(** * The TOYBOX configuration store and repository registry

    A shallow embedding of [src/types/config.ts] (the Zod schemas and the
    default factory), of [dist/services/config.js] (class
    [ConfigService]) and of the repository handlers that call it,
    followed by the properties of the store that the specification
    states.

    Conventions of the embedding.
    - A JavaScript value that came out of [JSON.parse] is a [json] term.
      Object members are an association list in member order; after
      [JSON.parse] the keys of an object are distinct, so [data[key]] is the
      first match.  A number is a double: [JSON.parse] reads a literal
      beyond the range of doubles as an infinity and [-0] as negative
      zero, and [JSON.stringify] writes neither of them back as it was.
    - [undefined] and a missing key are the same thing to every reader in
      this code ([z.optional], [z.default], [JSON.stringify], [find]), so an
      optional member is an [option].  The one place where they differ is
      the source of an object spread / [Object.assign]; the arguments of
      [upsertRepository] and [updateRepository] therefore carry three-state
      members ([js_member]).
    - The values that a caller passes under [metadata] are values that
      [JSON.parse] can return.
    - A timestamp is the string that [Date.prototype.toISOString] returns;
      such strings are ordered in time by their lexicographic order.
    - Promises are sequenced by [await] everywhere in the class, so an
      [async] method is a function in a state-and-exception monad over the
      [world] (the file, the lock marker, the clock).  Two calls in flight
      at once are followed step by step in [interleave]. *)

From Stdlib Require Import String Ascii List Bool Arith Lia.
Import ListNotations.
Open Scope string_scope.
Open Scope list_scope.

(** ** JSON values *)

#[local] Set Warnings "-register-all".

(** A number as [JSON.parse] returns it.  A finite double other than
    [-0] is named by the text that [JSON.stringify] writes for it, which
    [JSON.parse] reads back as the same double. *)
Inductive number : Type :=
| Finite (text : string)
| NegativeZero
| Infinity (negative : bool).

Inductive json : Type :=
| JNull
| JBool (b : bool)
| JNum (n : number)
| JStr (s : string)
| JArr (items : list json)
| JObj (members : list (string * json)).

(** [data[key]] on a parsed object: [None] is [undefined]. *)
Fixpoint get (key : string) (members : list (string * json)) : option json :=
  match members with
  | [] => None
  | (k, v) :: rest => if k =? key then Some v else get key rest
  end.

(** What [JSON.parse] reads from the text that [JSON.stringify] writes
    for a value: an infinity is written as [null], negative zero as [0],
    and everything else as itself. *)
Fixpoint reparsed (v : json) : json :=
  match v with
  | JNull => JNull
  | JBool b => JBool b
  | JNum (Finite text) => JNum (Finite text)
  | JNum NegativeZero => JNum (Finite "0")
  | JNum (Infinity _) => JNull
  | JStr s => JStr s
  | JArr items => JArr (map reparsed items)
  | JObj members => JObj (map (fun member => (fst member, reparsed (snd member))) members)
  end.

(** The same for one member of an object. *)
Definition reparsed_member (member : string * json) : string * json :=
  (fst member, reparsed (snd member)).

(** A value that [JSON.stringify] writes as it is. *)
Fixpoint plain (v : json) : bool :=
  match v with
  | JNum (Finite _) => true
  | JNum _ => false
  | JArr items => forallb plain items
  | JObj members => forallb (fun member => plain (snd member)) members
  | _ => true
  end.

(** ** Data model ([src/types/config.ts]) *)

Record ToyboxRepoConfig : Type := mkRepo {
  name : string;
  localPath : string;
  remoteUrl : option string;
  publishedUrl : option string;
  createdAt : string;
  lastUsedAt : string;
  isActive : bool;
  metadata : option (list (string * json))
}.

Record Preferences : Type := mkPreferences {
  defaultRepoName : string;
  autoCommit : bool;
  commitMessage : string
}.

Record ToyboxConfig : Type := mkConfig {
  version : string;
  repositories : list ToyboxRepoConfig;
  activeRepository : option string;
  debug : bool;
  localTemplatePath : option string;
  lastUpdated : string;
  preferences : Preferences
}.

Definition CONFIG_VERSION : string := "1.0.0".

(** Field assignments [obj.field = value]. *)

Definition set_isActive (b : bool) (r : ToyboxRepoConfig) : ToyboxRepoConfig :=
  mkRepo (name r) (localPath r) (remoteUrl r) (publishedUrl r)
         (createdAt r) (lastUsedAt r) b (metadata r).

Definition set_lastUsedAt (t : string) (r : ToyboxRepoConfig) : ToyboxRepoConfig :=
  mkRepo (name r) (localPath r) (remoteUrl r) (publishedUrl r)
         (createdAt r) t (isActive r) (metadata r).

Definition set_version (v : string) (c : ToyboxConfig) : ToyboxConfig :=
  mkConfig v (repositories c) (activeRepository c) (debug c)
           (localTemplatePath c) (lastUpdated c) (preferences c).

Definition set_repositories (l : list ToyboxRepoConfig) (c : ToyboxConfig) : ToyboxConfig :=
  mkConfig (version c) l (activeRepository c) (debug c)
           (localTemplatePath c) (lastUpdated c) (preferences c).

Definition set_activeRepository (a : option string) (c : ToyboxConfig) : ToyboxConfig :=
  mkConfig (version c) (repositories c) a (debug c)
           (localTemplatePath c) (lastUpdated c) (preferences c).

Definition set_lastUpdated (t : string) (c : ToyboxConfig) : ToyboxConfig :=
  mkConfig (version c) (repositories c) (activeRepository c) (debug c)
           (localTemplatePath c) t (preferences c).

(** ** The Zod combinators the schemas use

    A validator takes the member it is applied to ([None] for [undefined])
    and returns the parsed value, or [None] when Zod would report an
    issue. *)

Module Zod.

Definition validator (A : Type) : Type := option json -> option A.

Definition bind {A B : Type} (x : option A) (k : A -> option B) : option B :=
  match x with
  | Some a => k a
  | None => None
  end.

Definition string : validator String.string :=
  fun v => match v with Some (JStr s) => Some s | _ => None end.

Definition boolean : validator bool :=
  fun v => match v with Some (JBool b) => Some b | _ => None end.

(** [.optional()]: [undefined] passes through, anything else is checked. *)
Definition optional {A : Type} (p : validator A) : validator (option A) :=
  fun v => match v with
           | None => Some None
           | Some _ => bind (p v) (fun a => Some (Some a))
           end.

(** [.default(d)]: [undefined] is replaced by [d], and the result is
    parsed by the inner schema. *)
Definition default {A : Type} (p : validator A) (d : json) : validator A :=
  fun v => match v with
           | None => p (Some d)
           | Some _ => p v
           end.

Fixpoint all {A : Type} (p : validator A) (items : list json) : option (list A) :=
  match items with
  | [] => Some []
  | x :: rest =>
      bind (p (Some x)) (fun a => bind (all p rest) (fun l => Some (a :: l)))
  end.

Definition array {A : Type} (p : validator A) : validator (list A) :=
  fun v => match v with Some (JArr items) => all p items | _ => None end.

(** Zod puts the object it returns together member by member, and
    leaves out a member whose key is [__proto__]. *)
Definition kept (member : String.string * json) : bool :=
  negb (fst member =? "__proto__").

(** [z.record(z.unknown())]: any object; the values are not looked at. *)
Definition record_unknown : validator (list (String.string * json)) :=
  fun v => match v with
           | Some (JObj members) => Some (filter kept members)
           | _ => None
           end.

End Zod.

Notation "x <- e ;? k" := (Zod.bind e (fun x => k))
  (at level 61, e at next level, right associativity).

(** [ToyboxRepoConfigSchema]. *)
Definition ToyboxRepoConfigSchema : Zod.validator ToyboxRepoConfig :=
  fun v =>
    match v with
    | Some (JObj o) =>
        name_ <- Zod.string (get "name" o) ;?
        localPath_ <- Zod.string (get "localPath" o) ;?
        remoteUrl_ <- Zod.optional Zod.string (get "remoteUrl" o) ;?
        publishedUrl_ <- Zod.optional Zod.string (get "publishedUrl" o) ;?
        createdAt_ <- Zod.string (get "createdAt" o) ;?
        lastUsedAt_ <- Zod.string (get "lastUsedAt" o) ;?
        isActive_ <- Zod.default Zod.boolean (JBool false) (get "isActive" o) ;?
        metadata_ <- Zod.optional Zod.record_unknown (get "metadata" o) ;?
        Some (mkRepo name_ localPath_ remoteUrl_ publishedUrl_
                     createdAt_ lastUsedAt_ isActive_ metadata_)
    | _ => None
    end.

Definition PreferencesSchema : Zod.validator Preferences :=
  fun v =>
    match v with
    | Some (JObj o) =>
        defaultRepoName_ <- Zod.default Zod.string (JStr "toybox") (get "defaultRepoName" o) ;?
        autoCommit_ <- Zod.default Zod.boolean (JBool true) (get "autoCommit" o) ;?
        commitMessage_ <- Zod.default Zod.string (JStr "feat: Add new artifact via TOYBOX")
                                      (get "commitMessage" o) ;?
        Some (mkPreferences defaultRepoName_ autoCommit_ commitMessage_)
    | _ => None
    end.

(** [ToyboxConfigSchema]. *)
Definition ToyboxConfigSchema : Zod.validator ToyboxConfig :=
  fun v =>
    match v with
    | Some (JObj o) =>
        version_ <- Zod.default Zod.string (JStr "1.0.0") (get "version" o) ;?
        repositories_ <- Zod.default (Zod.array ToyboxRepoConfigSchema) (JArr [])
                                     (get "repositories" o) ;?
        activeRepository_ <- Zod.optional Zod.string (get "activeRepository" o) ;?
        debug_ <- Zod.default Zod.boolean (JBool false) (get "debug" o) ;?
        localTemplatePath_ <- Zod.optional Zod.string (get "localTemplatePath" o) ;?
        lastUpdated_ <- Zod.string (get "lastUpdated" o) ;?
        preferences_ <- Zod.default PreferencesSchema (JObj []) (get "preferences" o) ;?
        Some (mkConfig version_ repositories_ activeRepository_ debug_
                       localTemplatePath_ lastUpdated_ preferences_)
    | _ => None
    end.

(** ** A configuration object as a value

    The object that a record of the data model stands for, as the
    schema and [JSON.stringify] see it: its members in the order of the
    schema's keys, a member whose value is [undefined] left out (the
    schema reads a missing member as [undefined], and [JSON.stringify]
    skips one that is [undefined]). *)

Definition member (k : string) (v : json) : list (string * json) := [(k, v)].

Definition optional_member {A : Type} (k : string) (f : A -> json) (o : option A)
  : list (string * json) :=
  match o with
  | Some a => [(k, f a)]
  | None => []
  end.

Definition json_of_repo (r : ToyboxRepoConfig) : json :=
  JObj (member "name" (JStr (name r))
        ++ member "localPath" (JStr (localPath r))
        ++ optional_member "remoteUrl" JStr (remoteUrl r)
        ++ optional_member "publishedUrl" JStr (publishedUrl r)
        ++ member "createdAt" (JStr (createdAt r))
        ++ member "lastUsedAt" (JStr (lastUsedAt r))
        ++ member "isActive" (JBool (isActive r))
        ++ optional_member "metadata" JObj (metadata r)).

Definition json_of_preferences (p : Preferences) : json :=
  JObj (member "defaultRepoName" (JStr (defaultRepoName p))
        ++ member "autoCommit" (JBool (autoCommit p))
        ++ member "commitMessage" (JStr (commitMessage p))).

Definition json_of_config (c : ToyboxConfig) : json :=
  JObj (member "version" (JStr (version c))
        ++ member "repositories" (JArr (map json_of_repo (repositories c)))
        ++ optional_member "activeRepository" JStr (activeRepository c)
        ++ member "debug" (JBool (debug c))
        ++ optional_member "localTemplatePath" JStr (localTemplatePath c)
        ++ member "lastUpdated" (JStr (lastUpdated c))
        ++ member "preferences" (json_of_preferences (preferences c))).

(** ** Errors

    [Failed stage cause] is the [new Error(`Failed to <stage>
    configuration: ${cause.message}`)] that [read], [write] and [update]
    throw; it has no [code] member.  [ENOENT] and [ELOCKED] are the errors
    of [lockfile.lock], which carry that [code].  [NotFound repoName] is
    the [Error] thrown by the updater of [setActiveRepository]. *)

Inductive stage : Type := Read | Write | Update.

Inductive error : Type :=
| SyntaxError
| ZodError
| ENOENT
| ELOCKED
| NotFound (repoName : string)
| Failed (s : stage) (cause : error).

(** [error instanceof z.ZodError] *)
Definition is_ZodError (e : error) : bool :=
  match e with ZodError => true | _ => false end.

(** ['code' in error && error.code === 'ENOENT'] *)
Definition has_code_ENOENT (e : error) : bool :=
  match e with ENOENT => true | _ => false end.

(** ** The world

    The file at [configPath] holds a text.  [JSON.parse] belongs to the
    runtime, so a text is represented by what [JSON.parse] makes of it:
    [Malformed raw] is a text on which [JSON.parse] throws,
    [Serialized v] a text that parses to [v].  File-system calls
    succeed, apart from [lockfile.lock]. *)

Inductive file_text : Type :=
| Malformed (raw : string)
| Serialized (v : json).

(** [JSON.stringify(value, null, 2)]: the text written for a value. *)
Definition JSON_stringify (value : json) : file_text := Serialized (reparsed value).

(** The lock marker [configPath.lock] that [proper-lockfile] keeps next
    to the file.  It is a directory whose modification time its holder
    refreshes; [lockfile.lock] takes over a marker that is older than
    [stale], and tries again, [retries] times, when the marker is
    younger.  What a caller finds is therefore one of three things. *)
Inductive marker : Type :=
| Free        (* no marker *)
| Held        (* a marker that its holder keeps fresh for as long as the caller retries *)
| Abandoned.  (* a marker that nobody refreshes: older than [lockStale] by some retry *)

Record world : Type := mkWorld {
  disk : option file_text;   (* the file at configPath, if it exists *)
  lock : marker;             (* the lock marker next to it *)
  ticks : nat                (* how many times the clock was read *)
}.

Inductive outcome (A : Type) : Type :=
| Returns (a : A)
| Throws (e : error).
Arguments Returns {A} a.
Arguments Throws {A} e.

(** An [async] method: runs in a world, returns or throws, leaves a world. *)
Definition M (A : Type) : Type := world -> outcome A * world.

Definition ret {A : Type} (a : A) : M A := fun w => (Returns a, w).

Definition throw {A : Type} (e : error) : M A := fun w => (Throws e, w).

Definition bind {A B : Type} (m : M A) (k : A -> M B) : M B :=
  fun w => match m w with
           | (Returns a, w') => k a w'
           | (Throws e, w') => (Throws e, w')
           end.

(** [try { m } catch (error) { handler error }] *)
Definition try_catch {A : Type} (m : M A) (handler : error -> M A) : M A :=
  fun w => match m w with
           | (Returns a, w') => (Returns a, w')
           | (Throws e, w') => handler e w'
           end.

(** [try { m } finally { cleanup }], for a cleanup that does not throw. *)
Definition finally {A : Type} (m : M A) (cleanup : world -> world) : M A :=
  fun w => let (r, w') := m w in (r, cleanup w').

Notation "x <- m ;; k" := (bind m (fun x => k))
  (at level 61, m at next level, right associativity).
Notation "m ;; k" := (bind m (fun _ => k))
  (at level 61, right associativity).

(** Truthiness of a string-or-undefined value: [undefined] and the empty
    string are falsy. *)
Definition truthy (s : option string) : bool :=
  match s with
  | None => false
  | Some x => negb (x =? "")
  end.

(** [a === s] for [a] a string or [undefined] and [s] a string. *)
Definition strict_equal (a : option string) (s : string) : bool :=
  match a with
  | Some x => x =? s
  | None => false
  end.

(** The body of [migrate(config)]:
    [if (config.version !== CONFIG_VERSION) config.version = CONFIG_VERSION]. *)
Definition migrate_config (config : ToyboxConfig) : ToyboxConfig :=
  if negb (version config =? CONFIG_VERSION)
  then set_version CONFIG_VERSION config
  else config.

(** ** Array helpers *)

(** [array.findIndex(p)]; [None] stands for [-1]. *)
Fixpoint findIndex {A : Type} (p : A -> bool) (l : list A) : option nat :=
  match l with
  | [] => None
  | x :: rest => if p x then Some 0
                 else match findIndex p rest with
                      | Some i => Some (S i)
                      | None => None
                      end
  end.

(** [array[i] = x] for an index inside the array (the only use here: the
    index comes from [findIndex], or is [0] on a non-empty array). *)
Fixpoint assign_at {A : Type} (i : nat) (x : A) (l : list A) : list A :=
  match l, i with
  | [], _ => []
  | _ :: rest, 0 => x :: rest
  | y :: rest, S j => y :: assign_at j x rest
  end.

(** [const o = array.find(p); if (o) { mutate o }]: [find] returns the
    element itself, so the mutation is seen through the array. *)
Fixpoint mutate_found {A : Type} (p : A -> bool) (f : A -> A) (l : list A) : list A :=
  match l with
  | [] => []
  | x :: rest => if p x then f x :: rest else x :: mutate_found p f rest
  end.

(** ** Arguments of the registry calls

    A member of an object that is spread or assigned from: not there,
    there with value [undefined], or there with a value. *)

Inductive js_member (A : Type) : Type :=
| Absent
| Undefined
| Value (a : A).
Arguments Absent {A}.
Arguments Undefined {A}.
Arguments Value {A} a.

(** What [{...target, member}] / [Object.assign] leaves in a member of
    the target ([None] is [undefined]). *)
Definition spread {A : Type} (old : option A) (m : js_member A) : option A :=
  match m with
  | Absent => old
  | Undefined => None
  | Value a => Some a
  end.

(** The argument of [upsertRepository]: a [ToyboxRepoConfig] object as a
    caller builds it. *)
Record RepoArgument : Type := mkArg {
  arg_name : string;
  arg_localPath : string;
  arg_remoteUrl : js_member string;
  arg_publishedUrl : js_member string;
  arg_createdAt : string;
  arg_lastUsedAt : string;
  arg_isActive : bool;
  arg_metadata : js_member (list (string * json))
}.

(** The argument of [updateRepository]: [Partial<ToyboxRepoConfig>].
    Every member may be left out, given as [undefined], or given with a
    value. *)
Record RepoUpdates : Type := mkUpdates {
  upd_name : js_member string;
  upd_localPath : js_member string;
  upd_remoteUrl : js_member string;
  upd_publishedUrl : js_member string;
  upd_createdAt : js_member string;
  upd_lastUsedAt : js_member string;
  upd_isActive : js_member bool;
  upd_metadata : js_member (list (string * json))
}.

(** A record of the registry after [Object.assign]: a member that the
    schema requires may now hold [undefined]. *)
Record RepoObject : Type := mkObject {
  obj_name : option string;
  obj_localPath : option string;
  obj_remoteUrl : option string;
  obj_publishedUrl : option string;
  obj_createdAt : option string;
  obj_lastUsedAt : option string;
  obj_isActive : option bool;
  obj_metadata : option (list (string * json))
}.

(** [{...existing, ...repo, lastUsedAt: t}] *)
Definition merge_existing (existing : ToyboxRepoConfig) (repo : RepoArgument) (t : string)
  : ToyboxRepoConfig :=
  mkRepo (arg_name repo) (arg_localPath repo)
         (spread (remoteUrl existing) (arg_remoteUrl repo))
         (spread (publishedUrl existing) (arg_publishedUrl repo))
         (arg_createdAt repo) t (arg_isActive repo)
         (spread (metadata existing) (arg_metadata repo)).

(** [{...repo, createdAt: c, lastUsedAt: t}] *)
Definition new_record (repo : RepoArgument) (c t : string) : ToyboxRepoConfig :=
  mkRepo (arg_name repo) (arg_localPath repo)
         (spread None (arg_remoteUrl repo))
         (spread None (arg_publishedUrl repo))
         c t (arg_isActive repo)
         (spread None (arg_metadata repo)).

(** [Object.assign(repo, updates)] *)
Definition Object_assign (repo : ToyboxRepoConfig) (updates : RepoUpdates) : RepoObject :=
  mkObject (spread (Some (name repo)) (upd_name updates))
           (spread (Some (localPath repo)) (upd_localPath updates))
           (spread (remoteUrl repo) (upd_remoteUrl updates))
           (spread (publishedUrl repo) (upd_publishedUrl updates))
           (spread (Some (createdAt repo)) (upd_createdAt updates))
           (spread (Some (lastUsedAt repo)) (upd_lastUsedAt updates))
           (spread (Some (isActive repo)) (upd_isActive updates))
           (spread (metadata repo) (upd_metadata updates)).

(** [repo.lastUsedAt = t] on such an object. *)
Definition set_obj_lastUsedAt (t : string) (o : RepoObject) : RepoObject :=
  mkObject (obj_name o) (obj_localPath o) (obj_remoteUrl o) (obj_publishedUrl o)
           (obj_createdAt o) (Some t) (obj_isActive o) (obj_metadata o).

(** The object as the schema and [JSON.stringify] see it. *)
Definition json_of_object (o : RepoObject) : json :=
  JObj (optional_member "name" JStr (obj_name o)
        ++ optional_member "localPath" JStr (obj_localPath o)
        ++ optional_member "remoteUrl" JStr (obj_remoteUrl o)
        ++ optional_member "publishedUrl" JStr (obj_publishedUrl o)
        ++ optional_member "createdAt" JStr (obj_createdAt o)
        ++ optional_member "lastUsedAt" JStr (obj_lastUsedAt o)
        ++ optional_member "isActive" JBool (obj_isActive o)
        ++ optional_member "metadata" JObj (obj_metadata o)).

(** The object as a record of the data model, when it is one: the
    members that the schema requires hold strings.  An [isActive] that
    holds [undefined] counts as [false]: what reads the flag takes its
    truth value, and the schema fills in [false] before the object is
    written.  [None] is an object that [ToyboxRepoConfigSchema]
    refuses. *)
Definition as_record (o : RepoObject) : option ToyboxRepoConfig :=
  match obj_name o, obj_localPath o, obj_createdAt o, obj_lastUsedAt o with
  | Some name_, Some localPath_, Some createdAt_, Some lastUsedAt_ =>
      Some (mkRepo name_ localPath_ (obj_remoteUrl o) (obj_publishedUrl o)
                   createdAt_ lastUsedAt_
                   (match obj_isActive o with Some b => b | None => false end)
                   (obj_metadata o))
  | _, _, _, _ => None
  end.

(** The process environment that [createDefaultConfig] consults. *)
Record process_env : Type := mkEnv {
  TOYBOX_DEBUG : option string;
  TOYBOX_LOCAL_TEMPLATE_PATH : option string
}.

(** The object that [createDefaultConfig()] returns when the clock reads
    [t]: no [activeRepository] member, [debug] is
    [process.env.TOYBOX_DEBUG === 'true']. *)
Definition default_config (env : process_env) (t : string) : ToyboxConfig :=
  mkConfig "1.0.0" []
           None
           (strict_equal (TOYBOX_DEBUG env) "true")
           (TOYBOX_LOCAL_TEMPLATE_PATH env)
           t
           (mkPreferences "toybox" true "feat: Add new artifact via TOYBOX").

(** ** [ConfigService] *)

Section ConfigService.

Variable env : process_env.

(** [clock k] is what the [k]-th evaluation of
    [new Date().toISOString()] returns. *)
Variable clock : nat -> string.

Definition now : M string :=
  fun w => (Returns (clock (ticks w)), mkWorld (disk w) (lock w) (S (ticks w))).

(** [createDefaultConfig()]: the object literal is [default_config],
    with [lastUpdated] read from the clock. *)
Definition createDefaultConfig : M ToyboxConfig :=
  t <- now ;;
  ret (default_config env t).

(** File-system and runtime primitives. *)

Definition pathExists : M bool :=
  fun w => (Returns (match disk w with Some _ => true | None => false end), w).

Definition readFile : M file_text :=
  fun w => match disk w with
           | Some text => (Returns text, w)
           | None => (Throws ENOENT, w)
           end.

(** [writeFile(tempPath, text)] then [rename(tempPath, configPath)]:
    the file is replaced in one step. *)
Definition writeFile_rename (text : file_text) : M unit :=
  fun w => (Returns tt, mkWorld (Some text) (lock w) (ticks w)).

Definition JSON_parse (text : file_text) : M json :=
  match text with
  | Malformed _ => throw SyntaxError
  | Serialized v => ret v
  end.

(** [schema.parse(v)]: the parsed value, or a thrown [ZodError]. *)
Definition parse {A : Type} (schema : Zod.validator A) (v : json) : M A :=
  match schema (Some v) with
  | Some a => ret a
  | None => throw ZodError
  end.

(** [lockfile.lock(configPath, {retries: 5, stale: 5000})].  The path
    is resolved first, which rejects with [ENOENT] when the file does
    not exist.  Then the marker is created; a marker that is there and
    stays fresh through the retries makes the call reject with
    [ELOCKED], and one that goes stale is removed and taken over. *)
Definition lockfile_lock : M unit :=
  fun w => match disk w with
           | None => (Throws ENOENT, w)
           | Some _ =>
               match lock w with
               | Held => (Throws ELOCKED, w)
               | Free | Abandoned => (Returns tt, mkWorld (disk w) Held (ticks w))
               end
           end.

(** [release()]: the marker is removed. *)
Definition release (w : world) : world := mkWorld (disk w) Free (ticks w).

(** [migrate(config)]: the method has no effect on the world; its body
    is [migrate_config], below the helpers. *)
Definition migrate (config : ToyboxConfig) : M ToyboxConfig :=
  ret (migrate_config config).

(** [write(config)].  The method assigns [config.lastUpdated] on the
    object it is given; the object after that assignment is returned
    here, so that callers that go on using the same object see it. *)
Definition write (config : ToyboxConfig) : M ToyboxConfig :=
  t <- now ;;
  let config := set_lastUpdated t config in
  validatedConfig <- parse ToyboxConfigSchema (json_of_config config) ;;
  writeFile_rename (JSON_stringify (json_of_config validatedConfig)) ;;
  ret config.

(** [write(config)] for a configuration that holds an object which is
    not a record: [lastUpdated] is assigned, and
    [ToyboxConfigSchema.parse] throws. *)
Definition write_refused : M ToyboxConfig :=
  now ;;
  throw ZodError.

(** [read()] *)
Definition read : M ToyboxConfig :=
  try_catch
    (exists_ <- pathExists ;;
     if negb exists_ then
       defaultConfig <- createDefaultConfig ;;
       defaultConfig <- write defaultConfig ;;
       ret defaultConfig
     else
       configData <- readFile ;;
       parsedConfig <- JSON_parse configData ;;
       validatedConfig <- parse ToyboxConfigSchema parsedConfig ;;
       migratedConfig <- migrate validatedConfig ;;
       ret migratedConfig)
    (fun error =>
       if is_ZodError error then
         defaultConfig <- createDefaultConfig ;;
         defaultConfig <- write defaultConfig ;;
         ret defaultConfig
       else throw (Failed Read error)).

(** The [catch] clause of [update]. *)
Definition update_catch (updater : ToyboxConfig -> M ToyboxConfig) (error : error)
  : M ToyboxConfig :=
  if has_code_ENOENT error then
    defaultConfig <- createDefaultConfig ;;
    updatedConfig <- updater defaultConfig ;;
    updatedConfig <- write updatedConfig ;;
    ret updatedConfig
  else throw (Failed Update error).

(** [update(updater)] from the point where [await lockfile.lock(...)]
    has settled.  [release] is assigned only when the lock was given,
    and the [finally] clause calls it only then. *)
Definition update_after_lock (updater : ToyboxConfig -> M ToyboxConfig)
           (settled : outcome unit) : M ToyboxConfig :=
  match settled with
  | Returns _ =>
      finally
        (try_catch
           (currentConfig <- read ;;
            updatedConfig <- updater currentConfig ;;
            updatedConfig <- write updatedConfig ;;
            ret updatedConfig)
           (update_catch updater))
        release
  | Throws error => update_catch updater error
  end.

(** [update(updater)] *)
Definition update (updater : ToyboxConfig -> M ToyboxConfig) : M ToyboxConfig :=
  fun w => let (settled, w1) := lockfile_lock w in update_after_lock updater settled w1.

(** [getActiveRepository()]; [None] is [null]. *)
Definition getActiveRepository : M (option ToyboxRepoConfig) :=
  config <- read ;;
  if negb (truthy (activeRepository config)) then
    ret (find (fun r => isActive r) (repositories config))
  else
    ret (find (fun r => strict_equal (activeRepository config) (name r))
              (repositories config)).

(** The updater of [setActiveRepository(repoName)]. *)
Definition setActiveRepository_updater (repoName : string) (config : ToyboxConfig)
  : M ToyboxConfig :=
  match find (fun r => name r =? repoName) (repositories config) with
  | None => throw (NotFound repoName)
  | Some _ =>
      let config :=
        set_repositories
          (map (fun r => set_isActive (name r =? repoName) r) (repositories config))
          config in
      let config := set_activeRepository (Some repoName) config in
      ret config
  end.

Definition setActiveRepository (repoName : string) : M unit :=
  update (setActiveRepository_updater repoName) ;; ret tt.

(** [repo.createdAt || new Date().toISOString()]: the clock is read
    only when [repo.createdAt] is falsy. *)
Definition createdAt_or_now (repo : RepoArgument) : M string :=
  if arg_createdAt repo =? "" then now else ret (arg_createdAt repo).

(** The last step of the updater of [upsertRepository]:
    [if (config.repositories.length === 1) { ... }]. *)
Definition activate_if_single (repo : RepoArgument) (config : ToyboxConfig) : ToyboxConfig :=
  if Nat.eqb (length (repositories config)) 1 then
    let config := set_activeRepository (Some (arg_name repo)) config in
    match nth_error (repositories config) 0 with
    | Some first =>
        set_repositories (assign_at 0 (set_isActive true first) (repositories config)) config
    | None => config
    end
  else config.

(** The updater of [upsertRepository(repo)]. *)
Definition upsertRepository_updater (repo : RepoArgument) (config : ToyboxConfig)
  : M ToyboxConfig :=
  config <-
    match findIndex (fun r => name r =? arg_name repo) (repositories config) with
    | Some existingIndex =>
        match nth_error (repositories config) existingIndex with
        | Some existing =>
            t <- now ;;
            ret (set_repositories
                   (assign_at existingIndex (merge_existing existing repo t)
                              (repositories config))
                   config)
        | None => ret config   (* [findIndex] returns an index of the array *)
        end
    | None =>
        c <- createdAt_or_now repo ;;
        t <- now ;;
        ret (set_repositories (repositories config ++ [new_record repo c t]) config)
    end ;;
  ret (activate_if_single repo config).

Definition upsertRepository (repo : RepoArgument) : M unit :=
  update (upsertRepository_updater repo) ;; ret tt.

(** The updater of [removeRepository(repoName)]; it neither throws nor
    reads the clock. *)
Definition removeRepository_updater (repoName : string) (config : ToyboxConfig)
  : ToyboxConfig :=
  let config :=
    set_repositories
      (filter (fun r => negb (name r =? repoName)) (repositories config)) config in
  if strict_equal (activeRepository config) repoName then
    let config := set_activeRepository None config in
    match repositories config with
    | first :: rest =>
        let config := set_repositories (set_isActive true first :: rest) config in
        set_activeRepository (Some (name first)) config
    | [] => config
    end
  else config.

Definition removeRepository (repoName : string) : M unit :=
  update (fun config => ret (removeRepository_updater repoName config)) ;; ret tt.

(** [getRepositories()] *)
Definition getRepositories : M (list ToyboxRepoConfig) :=
  config <- read ;;
  ret (repositories config).

(** The updater of [touchRepository(repoName)]. *)
Definition touchRepository_updater (repoName : string) (config : ToyboxConfig)
  : M ToyboxConfig :=
  match find (fun r => name r =? repoName) (repositories config) with
  | Some _ =>
      t <- now ;;
      ret (set_repositories
             (mutate_found (fun r => name r =? repoName) (set_lastUsedAt t)
                           (repositories config))
             config)
  | None => ret config
  end.

Definition touchRepository (repoName : string) : M unit :=
  update (touchRepository_updater repoName) ;; ret tt.

(** The updater of [updateRepository(repoName, updates)].  The object
    that [Object.assign] and the assignment of [lastUsedAt] leave is
    put back as a record when it is one.  When it is not, the updater
    of the source still returns the configuration, and it is the
    [write] that [update] calls next which throws; a [ToyboxConfig]
    holds records only, so that [write] is made here. *)
Definition updateRepository_updater (repoName : string) (updates : RepoUpdates)
           (config : ToyboxConfig) : M ToyboxConfig :=
  match find (fun r => name r =? repoName) (repositories config) with
  | Some repo =>
      t <- now ;;
      match as_record (set_obj_lastUsedAt t (Object_assign repo updates)) with
      | Some assigned =>
          ret (set_repositories
                 (mutate_found (fun r => name r =? repoName) (fun _ => assigned)
                               (repositories config))
                 config)
      | None => write_refused
      end
  | None => ret config
  end.

Definition updateRepository (repoName : string) (updates : RepoUpdates) : M unit :=
  update (updateRepository_updater repoName updates) ;; ret tt.

(** [exists()] *)
Definition exists_ : M bool := pathExists.

(** *** Two calls of [update] in flight

    A call gives up control at each [await]; the first one is
    [await lockfile.lock(...)].  A call is followed here in two steps,
    cut at that [await]: its lock request settles, then the rest of the
    call runs.  (The rest has [await]s of its own; running it in one
    piece is one of the orders that the runtime allows.) *)

Inductive progress : Type :=
| Issued                                    (* [lockfile.lock] is pending *)
| LockSettled (settled : outcome unit)      (* it resolved or rejected *)
| Done (result : outcome ToyboxConfig).     (* the call returned or threw *)

Definition advance (updater : ToyboxConfig -> M ToyboxConfig) (p : progress)
  : world -> progress * world :=
  fun w =>
    match p with
    | Issued => let (settled, w') := lockfile_lock w in (LockSettled settled, w')
    | LockSettled settled =>
        let (result, w') := update_after_lock updater settled w in (Done result, w')
    | Done result => (Done result, w)
    end.

(** Whose step is next. *)
Inductive turn : Type := First | Second.

(** Two calls, [update(u1)] and [update(u2)], advanced in the order of
    a schedule. *)
Fixpoint interleave (u1 u2 : ToyboxConfig -> M ToyboxConfig) (schedule : list turn)
         (p1 p2 : progress) (w : world) : progress * progress * world :=
  match schedule with
  | [] => (p1, p2, w)
  | First :: rest =>
      let (p1', w') := advance u1 p1 w in interleave u1 u2 rest p1' p2 w'
  | Second :: rest =>
      let (p2', w') := advance u2 p2 w in interleave u1 u2 rest p1 p2' w'
  end.

End ConfigService.
(** ** The repository handlers ([handlers/repository.js])

    The handlers build a [ConfigService] on the default path and return
    a result object: [{success: true, ...}] or [{success: false, error}].
    The error texts are kept as constructors that carry what the text
    interpolates. *)

Module Handlers.

Inductive action : Type := Listing | Switching | Removing | Resolving.

Inductive failure : Type :=
| NotInConfiguration (repoName : string)
    (* `Repository '${repoName}' not found in configuration` *)
| PathNoLongerExists (path : string)
    (* `Repository path '${path}' no longer exists` *)
| NoActiveRepositorySet
    (* 'No active repository set. Use switch_repository to set one.' *)
| FailedTo (what : action) (cause : error).
    (* `Failed to <what>: ${error.message}` *)

Inductive result (A : Type) : Type :=
| Success (payload : A)
| Failure (error : failure).
Arguments Success {A} payload.
Arguments Failure {A} error.

(** An element of [listRepositories().repositories]. *)
Record entry : Type := mkEntry {
  entry_name : string;
  entry_localPath : string;
  entry_remoteUrl : option string;
  entry_publishedUrl : option string;
  entry_isActive : bool;
  entry_lastUsedAt : string
}.

(** [getActiveRepository().repository]. *)
Record info : Type := mkInfo {
  info_name : string;
  info_localPath : string;
  info_remoteUrl : option string;
  info_publishedUrl : option string;
  info_lastUsedAt : string
}.

Section WithServices.

Variable env : process_env.
Variable clock : nat -> string.

(** [new GitService(path).repositoryExists()], which is
    [fs.pathExists(path)]: the directories that exist. *)
Variable path_exists : string -> bool.

(** One element of the listing. *)
Definition entry_of (config : ToyboxConfig) (repo : ToyboxRepoConfig) : entry :=
  mkEntry (name repo) (localPath repo) (remoteUrl repo) (publishedUrl repo)
          (isActive repo || strict_equal (activeRepository config) (name repo))
          (lastUsedAt repo).

(** [listRepositories()] *)
Definition listRepositories : M (result (list entry)) :=
  try_catch
    (repositories <- getRepositories env clock ;;
     config <- read env clock ;;
     ret (Success (map (entry_of config) repositories)))
    (fun error => ret (Failure (FailedTo Listing error))).

(** [switchRepository(params)]; the payload of a success is what the
    message interpolates: the name and the local path. *)
Definition switchRepository (repoName : string) : M (result (string * string)) :=
  try_catch
    (repositories <- getRepositories env clock ;;
     match find (fun r => name r =? repoName) repositories with
     | None => ret (Failure (NotInConfiguration repoName))
     | Some repo =>
         if negb (path_exists (localPath repo)) then
           ret (Failure (PathNoLongerExists (localPath repo)))
         else
           setActiveRepository env clock repoName ;;
           ret (Success (repoName, localPath repo))
     end)
    (fun error => ret (Failure (FailedTo Switching error))).

(** [removeRepository(params)]; the call inside is the method of
    [ConfigService]. *)
Definition removeRepository (repoName : string) : M (result (string * string)) :=
  try_catch
    (repositories <- getRepositories env clock ;;
     match find (fun r => name r =? repoName) repositories with
     | None => ret (Failure (NotInConfiguration repoName))
     | Some repo =>
         removeRepository env clock repoName ;;
         ret (Success (repoName, localPath repo))
     end)
    (fun error => ret (Failure (FailedTo Removing error))).

(** [getActiveRepository()]; the call inside is the method of
    [ConfigService]. *)
Definition getActiveRepository : M (result info) :=
  try_catch
    (activeRepo <- getActiveRepository env clock ;;
     match activeRepo with
     | None => ret (Failure NoActiveRepositorySet)
     | Some repo =>
         ret (Success (mkInfo (name repo) (localPath repo) (remoteUrl repo)
                              (publishedUrl repo) (lastUsedAt repo)))
     end)
    (fun error => ret (Failure (FailedTo Resolving error))).

End WithServices.

End Handlers.


(** ** Observations and call sequences *)

(** What the schema returns for a record and for a configuration of the
    data model: the [metadata] of a record without its [__proto__]
    member. *)
Definition validated_repo (r : ToyboxRepoConfig) : ToyboxRepoConfig :=
  mkRepo (name r) (localPath r) (remoteUrl r) (publishedUrl r)
         (createdAt r) (lastUsedAt r) (isActive r)
         (option_map (filter Zod.kept) (metadata r)).

Definition validated (c : ToyboxConfig) : ToyboxConfig :=
  set_repositories (map validated_repo (repositories c)) c.

(** The text that [write] puts in the file for a configuration (its
    [lastUpdated] already assigned). *)
Definition file_of (c : ToyboxConfig) : file_text :=
  JSON_stringify (json_of_config (validated c)).

(** What is read back from that text: the [metadata] of a record has
    lost its [__proto__] member, and holds [null] where it held an
    infinity and [0] where it held negative zero. *)
Definition stored_metadata (m : list (string * json)) : list (string * json) :=
  map reparsed_member (filter Zod.kept m).

Definition stored_repo (r : ToyboxRepoConfig) : ToyboxRepoConfig :=
  mkRepo (name r) (localPath r) (remoteUrl r) (publishedUrl r)
         (createdAt r) (lastUsedAt r) (isActive r)
         (option_map stored_metadata (metadata r)).

Definition stored (c : ToyboxConfig) : ToyboxConfig :=
  set_repositories (map stored_repo (repositories c)) c.

(** A [metadata] that is written and read back as it is: no
    [__proto__] member, and only values that [JSON.stringify] writes as
    they are. *)
Definition plain_metadata (m : option (list (string * json))) : bool :=
  match m with
  | Some members => forallb (fun member => Zod.kept member && plain (snd member)) members
  | None => true
  end.

(** The configuration that the file holds: what parsing and validating
    the file gives, when both succeed. *)
Definition persisted (w : world) : option ToyboxConfig :=
  match disk w with
  | Some (Serialized v) => ToyboxConfigSchema (Some v)
  | _ => None
  end.

(** What [getActiveRepository] computes from the configuration it read. *)
Definition resolve_active (c : ToyboxConfig) : option ToyboxRepoConfig :=
  if negb (truthy (activeRepository c)) then
    find (fun r => isActive r) (repositories c)
  else
    find (fun r => strict_equal (activeRepository c) (name r)) (repositories c).

(** The file contains valid JSON. *)
Definition holds_json (w : world) : Prop :=
  exists v, disk w = Some (Serialized v).

(** Order of timestamps: [toISOString] texts compare in time as they
    compare as strings. *)
Definition ts_le (a b : string) : Prop := String.leb a b = true.

(** Two records that differ at most in [isActive], in [lastUsedAt] and
    in how their [metadata] is written. *)
Definition same_identity (r r' : ToyboxRepoConfig) : Prop :=
  name r' = name r
  /\ localPath r' = localPath r
  /\ remoteUrl r' = remoteUrl r
  /\ publishedUrl r' = publishedUrl r
  /\ createdAt r' = createdAt r
  /\ metadata r' = option_map stored_metadata (metadata r).

(** The three mutators of the active selection, as a caller issues them. *)
Inductive call : Type :=
| UpsertRepository (repo : RepoArgument)
| SetActiveRepository (repoName : string)
| RemoveRepository (repoName : string).

Definition perform (env : process_env) (clock : nat -> string) (c : call) : M unit :=
  match c with
  | UpsertRepository repo => upsertRepository env clock repo
  | SetActiveRepository repoName => setActiveRepository env clock repoName
  | RemoveRepository repoName => removeRepository env clock repoName
  end.

(** A caller issues the calls one after the other; a call that throws
    does not stop the caller from issuing the next one. *)
Fixpoint perform_all (env : process_env) (clock : nat -> string) (calls : list call)
         (w : world) : world :=
  match calls with
  | [] => w
  | c :: rest => perform_all env clock rest (snd (perform env clock c w))
  end.

(** The state of the active selection that the mutators maintain: names
    are distinct, a record that carries the flag is the one the pointer
    names, and the pointer, when set, names a stored record. *)
Definition registry_ok (c : ToyboxConfig) : Prop :=
  NoDup (map name (repositories c))
  /\ (forall r, In r (repositories c) -> isActive r = true ->
                activeRepository c = Some (name r))
  /\ (forall n, activeRepository c = Some n -> In n (map name (repositories c))).

(** The same for a world whose lock is free: there is no file yet, or
    the file holds a configuration in that state. *)
Definition world_ok (w : world) : Prop :=
  lock w = Free
  /\ (disk w = None
      \/ exists v c, disk w = Some (Serialized v)
                     /\ ToyboxConfigSchema (Some v) = Some c
                     /\ registry_ok c).

(** An updater that leaves file and lock alone and does not throw an
    error carrying the [ENOENT] code. *)
Definition quiet (u : ToyboxConfig -> M ToyboxConfig) : Prop :=
  forall c w,
    match u c w with
    | (Returns _, w') => disk w' = disk w /\ lock w' = lock w
    | (Throws e, w') =>
        disk w' = disk w /\ lock w' = lock w /\ has_code_ENOENT e = false
    end.

(** Calls whose [upsertRepository] arguments carry [isActive: false]. *)
Definition unflagged (c : call) : Prop :=
  match c with
  | UpsertRepository repo => arg_isActive repo = false
  | _ => True
  end.

(** Two records with the same timestamps. *)
Definition same_times (r r' : ToyboxRepoConfig) : Prop :=
  createdAt r' = createdAt r /\ lastUsedAt r' = lastUsedAt r.

(** Concrete inputs used in the examples below. *)

Definition env0 : process_env := mkEnv None None.

(** A clock that advances by one second at each reading. *)
Definition clock0 (k : nat) : string :=
  "2026-01-01T00:00:"
  ++ String (ascii_of_nat (48 + k / 10)) (String (ascii_of_nat (48 + k mod 10)) ".000Z").

Definition fresh : world := mkWorld None Free 0.

Definition alpha : RepoArgument :=
  mkArg "alpha" "/tmp/alpha" Absent Absent
        "2025-06-01T00:00:00.000Z" "2025-06-01T00:00:00.000Z" false Absent.

(** As [initializeToybox] passes it: [isActive: true]. *)
Definition beta : RepoArgument :=
  mkArg "beta" "/tmp/beta" Absent Absent
        "2025-07-01T00:00:00.000Z" "2025-07-01T00:00:00.000Z" true Absent.

Definition gamma : RepoArgument :=
  mkArg "gamma" "/tmp/gamma" (Value "https://example.org/gamma.git") Undefined
        "2025-08-01T00:00:00.000Z" "2025-08-01T00:00:00.000Z" false Absent.

(** [alpha] again, with an earlier [createdAt]. *)
Definition alpha_backdated : RepoArgument :=
  mkArg "alpha" "/tmp/alpha" Absent Absent
        "2020-01-01T00:00:00.000Z" "2020-01-01T00:00:00.000Z" false Absent.

(** A record whose name is the empty string. *)
Definition unnamed : RepoArgument :=
  mkArg "" "/tmp/unnamed" Absent Absent
        "2025-06-01T00:00:00.000Z" "2025-06-01T00:00:00.000Z" false Absent.

(** A configuration written by an earlier release. *)
Definition old_config : ToyboxConfig :=
  set_version "0.9.0" (default_config env0 "2025-01-01T00:00:00.000Z").

Definition old_world : world :=
  mkWorld (Some (Serialized (json_of_config old_config))) Free 0.

(** The registry after [alpha] and [gamma] were added. *)
Definition two_repositories : world :=
  perform_all env0 clock0 [UpsertRepository alpha; UpsertRepository gamma] fresh.

(** The registry after [unnamed] was added, [gamma] was added, and
    [unnamed] was upserted again. *)
Definition unnamed_twice : world :=
  perform_all env0 clock0
    [UpsertRepository unnamed; UpsertRepository gamma; UpsertRepository unnamed] fresh.


Definition two_repositories_config : ToyboxConfig :=
  Eval vm_compute in
    match persisted two_repositories with Some c => c | None => old_config end.

Definition alpha_record : ToyboxRepoConfig :=
  Eval vm_compute in
    match repositories two_repositories_config with
    | r :: _ => r
    | [] => mkRepo "" "" None None "" "" false None
    end.

Definition gamma_record : ToyboxRepoConfig :=
  Eval vm_compute in
    match repositories two_repositories_config with
    | _ :: r :: _ => r
    | _ => mkRepo "" "" None None "" "" false None
    end.

(** A caller's session with the three mutators, upserting unflagged
    records. *)
Definition session : list call :=
  [UpsertRepository alpha; UpsertRepository gamma; SetActiveRepository "gamma";
   UpsertRepository alpha_backdated; RemoveRepository "gamma";
   SetActiveRepository "nobody"].

Definition session_config : ToyboxConfig :=
  Eval vm_compute in
    match persisted (perform_all env0 clock0 session fresh) with
    | Some c => c
    | None => old_config
    end.

(** A file that holds a text that is not JSON. *)
Definition garbled : world := mkWorld (Some (Malformed "{not json")) Free 0.

(** A file that holds JSON that is not a configuration. *)
Definition invalid_world : world := mkWorld (Some (Serialized (JArr []))) Free 0.

(** A file whose lock is held by a process that is at work. *)
Definition held_world : world :=
  mkWorld (Some (Serialized (json_of_config old_config))) Held 0.

(** A file whose lock marker was left behind by a process that is gone. *)
Definition abandoned_world : world :=
  mkWorld (Some (Serialized (json_of_config old_config))) Abandoned 0.

(** The updates that [setupRemote] passes. *)
Definition remote_updates : RepoUpdates :=
  mkUpdates Absent Absent (Value "https://github.com/someone/alpha")
            (Value "https://someone.github.io/alpha/") Absent
            (Value "2031-01-01T00:00:00.000Z") Absent Absent.

(** Updates that give [undefined] for the flag and drop the remote. *)
Definition clearing_updates : RepoUpdates :=
  mkUpdates Absent (Value "/srv/alpha") Undefined Absent Absent Undefined Undefined Absent.

(** Updates that give [undefined] for the name. *)
Definition nameless_updates : RepoUpdates :=
  mkUpdates Undefined Absent Absent Absent Absent Absent Absent Absent.

(** An object with one member that the schema declares and one that it
    does not. *)
Definition sparse_document : list (string * json) :=
  [("theme", JStr "dark"); ("lastUpdated", JStr "2025-01-01T00:00:00.000Z")].

(** Every directory exists. *)
Definition all_paths (path : string) : bool := true.

(** A [metadata] as [JSON.parse] can return it: a [__proto__] member,
    a number beyond the doubles, a negative zero inside an array. *)
Definition odd_metadata : list (string * json) :=
  [("__proto__", JObj [("polluted", JBool true)]);
   ("size", JNum (Infinity false));
   ("tags", JArr [JStr "demo"; JNum NegativeZero]);
   ("owner", JStr "someone")].

(** A configuration with every member set: two records, a pointer, a
    template path, and an earlier version. *)
Definition full_config : ToyboxConfig :=
  mkConfig "0.9.0"
           [mkRepo "alpha" "/tmp/alpha" (Some "https://example.org/alpha.git") None
                   "2025-06-01T00:00:00.000Z" "2025-06-02T00:00:00.000Z" true
                   (Some odd_metadata);
            mkRepo "gamma" "/tmp/gamma" None (Some "https://someone.github.io/gamma/")
                   "2025-08-01T00:00:00.000Z" "2025-08-03T00:00:00.000Z" false
                   (Some [("owner", JStr "someone")])]
           (Some "alpha") true (Some "/srv/template")
           "2025-09-01T00:00:00.000Z"
           (mkPreferences "staging" false "chore: publish").


(** ** What is written and what is read back *)

(** Induction over JSON values, through arrays and objects. *)
Lemma json_induction (P : json -> Prop) :
  P JNull ->
  (forall b, P (JBool b)) ->
  (forall n, P (JNum n)) ->
  (forall s, P (JStr s)) ->
  (forall items, Forall P items -> P (JArr items)) ->
  (forall members, Forall (fun member => P (snd member)) members -> P (JObj members)) ->
  forall v, P v.
Proof.
  intros HNull HBool HNum HStr HArr HObj.
  fix IH 1. intros [| b | n | s | items | members].
  - exact HNull.
  - apply HBool.
  - apply HNum.
  - apply HStr.
  - apply HArr. induction items as [|x items IHitems]; constructor.
    + apply IH.
    + exact IHitems.
  - apply HObj. induction members as [|[k x] members IHmembers]; constructor.
    + apply IH.
    + exact IHmembers.
Qed.

(** A value that [JSON.stringify] writes as it is comes back as it
    was. *)
Lemma reparsed_plain (v : json) : plain v = true -> reparsed v = v.
Proof.
  induction v as [| b | n | s | items IH | members IH] using json_induction;
    cbn [plain reparsed]; try reflexivity.
  - destruct n; [reflexivity|discriminate|discriminate].
  - intros Hall. f_equal. induction IH as [|x items Hx _ IHitems]; [reflexivity|].
    cbn [forallb map] in *. apply andb_true_iff in Hall. destruct Hall as [H1 H2].
    rewrite (Hx H1), (IHitems H2). reflexivity.
  - intros Hall. f_equal. induction IH as [|[k x] members Hx _ IHmembers]; [reflexivity|].
    cbn [forallb map fst snd] in *. apply andb_true_iff in Hall. destruct Hall as [H1 H2].
    rewrite (Hx H1), (IHmembers H2). reflexivity.
Qed.

(** What was written once is written as it is from then on. *)
Lemma plain_reparsed (v : json) : plain (reparsed v) = true.
Proof.
  induction v as [| b | n | s | items IH | members IH] using json_induction;
    cbn [plain reparsed]; try reflexivity.
  - destruct n; reflexivity.
  - induction IH as [|x items Hx _ IHitems]; [reflexivity|].
    cbn [forallb map]. now rewrite Hx, IHitems.
  - induction IH as [|[k x] members Hx _ IHmembers]; [reflexivity|].
    cbn [forallb map fst snd] in *. now rewrite Hx, IHmembers.
Qed.

Lemma reparsed_idempotent (v : json) : reparsed (reparsed v) = reparsed v.
Proof. apply reparsed_plain, plain_reparsed. Qed.

Lemma filter_kept_reparsed (m : list (string * json)) :
  filter Zod.kept (map reparsed_member m) = map reparsed_member (filter Zod.kept m).
Proof.
  induction m as [|[k x] m IH]; [reflexivity|].
  cbn [map filter].
  replace (Zod.kept (reparsed_member (k, x))) with (Zod.kept (k, x)) by reflexivity.
  destruct (Zod.kept (k, x)); cbn [map]; now rewrite IH.
Qed.

Lemma filter_kept_twice (m : list (string * json)) :
  filter Zod.kept (filter Zod.kept m) = filter Zod.kept m.
Proof.
  induction m as [|x m IH]; [reflexivity|].
  cbn [filter]. destruct (Zod.kept x) eqn:E; [|exact IH].
  cbn [filter]. now rewrite E, IH.
Qed.

Lemma stored_metadata_plain (m : list (string * json)) :
  plain_metadata (Some m) = true -> stored_metadata m = m.
Proof.
  unfold stored_metadata. induction m as [|x m IH]; [reflexivity|].
  cbn [plain_metadata forallb filter]. intros H.
  apply andb_true_iff in H. destruct H as [H1 H2].
  apply andb_true_iff in H1. destruct H1 as [Hk Hp].
  rewrite Hk. cbn [map]. rewrite (IH H2). f_equal.
  destruct x as [k v]. unfold reparsed_member. cbn [fst snd] in *.
  now rewrite (reparsed_plain v Hp).
Qed.

Lemma plain_stored_metadata (m : list (string * json)) :
  plain_metadata (Some (stored_metadata m)) = true.
Proof.
  unfold stored_metadata. induction m as [|[k v] m IH]; [reflexivity|].
  cbn [filter]. destruct (Zod.kept (k, v)) eqn:Hk; [|exact IH].
  cbn [map plain_metadata forallb reparsed_member fst snd].
  replace (Zod.kept (reparsed_member (k, v))) with (Zod.kept (k, v)) by reflexivity.
  rewrite Hk, plain_reparsed. exact IH.
Qed.

Lemma stored_repo_plain (r : ToyboxRepoConfig) :
  plain_metadata (metadata r) = true -> stored_repo r = r.
Proof.
  destruct r as [n lp ru pu ca lu ia [m|]]; unfold stored_repo; cbn; intros H.
  - now rewrite (stored_metadata_plain m H).
  - reflexivity.
Qed.

Lemma plain_stored_repo (r : ToyboxRepoConfig) :
  plain_metadata (metadata (stored_repo r)) = true.
Proof.
  destruct r as [n lp ru pu ca lu ia [m|]]; cbn; [apply plain_stored_metadata|reflexivity].
Qed.

Lemma stored_repo_twice (r : ToyboxRepoConfig) : stored_repo (stored_repo r) = stored_repo r.
Proof. apply stored_repo_plain, plain_stored_repo. Qed.

Lemma map_stored_repo_plain (l : list ToyboxRepoConfig) :
  Forall (fun r => plain_metadata (metadata r) = true) l -> map stored_repo l = l.
Proof.
  induction 1 as [|r l Hr _ IH]; [reflexivity|].
  cbn [map]. now rewrite (stored_repo_plain r Hr), IH.
Qed.

Lemma stored_twice (c : ToyboxConfig) : stored (stored c) = stored c.
Proof.
  unfold stored. cbn [repositories set_repositories]. rewrite map_map.
  destruct c as [v rs ar d ltp lu p]. unfold set_repositories. cbn. f_equal.
  apply map_ext. intros r. apply stored_repo_twice.
Qed.

(** *** The schemas on the objects of the data model *)

Lemma repo_schema_json_of_repo (r : ToyboxRepoConfig) :
  ToyboxRepoConfigSchema (Some (json_of_repo r)) = Some (validated_repo r).
Proof.
  destruct r as [n lp ru pu ca lu ia md].
  destruct ru, pu, md; reflexivity.
Qed.

Lemma repo_schema_written (r : ToyboxRepoConfig) :
  ToyboxRepoConfigSchema (Some (reparsed (json_of_repo (validated_repo r))))
  = Some (stored_repo r).
Proof.
  destruct r as [n lp ru pu ca lu ia md].
  destruct ru, pu, md as [m|]; try reflexivity;
    unfold stored_repo, stored_metadata; cbn;
    change (fun member : string * json => (fst member, reparsed (snd member)))
      with reparsed_member;
    rewrite filter_kept_reparsed, filter_kept_twice; reflexivity.
Qed.

Lemma all_repo_schema (l : list ToyboxRepoConfig) :
  Zod.all ToyboxRepoConfigSchema (map json_of_repo l) = Some (map validated_repo l).
Proof.
  induction l as [|r l IH]; [reflexivity|].
  cbn [map Zod.all]. rewrite repo_schema_json_of_repo. cbn [Zod.bind].
  rewrite IH. reflexivity.
Qed.

Lemma all_repo_schema_written (l : list ToyboxRepoConfig) :
  Zod.all ToyboxRepoConfigSchema (map reparsed (map json_of_repo (map validated_repo l)))
  = Some (map stored_repo l).
Proof.
  induction l as [|r l IH]; [reflexivity|].
  cbn [map Zod.all]. rewrite repo_schema_written. cbn [Zod.bind].
  rewrite IH. reflexivity.
Qed.

Lemma preferences_schema_json (p : Preferences) :
  PreferencesSchema (Some (json_of_preferences p)) = Some p.
Proof. destruct p; reflexivity. Qed.

(** What [ToyboxConfigSchema.parse(config)] returns in [write]. *)
Lemma config_schema_json_of_config (c : ToyboxConfig) :
  ToyboxConfigSchema (Some (json_of_config c)) = Some (validated c).
Proof.
  destruct c as [v rs ar d ltp lu [drn ac cm]].
  assert (Hrs := all_repo_schema rs).
  destruct ar, ltp; cbn in *; rewrite Hrs; reflexivity.
Qed.

(** What validates from the text that [write] wrote. *)
Lemma config_schema_written (c : ToyboxConfig) :
  ToyboxConfigSchema (Some (reparsed (json_of_config (validated c)))) = Some (stored c).
Proof.
  destruct c as [v rs ar d ltp lu [drn ac cm]].
  assert (Hrs := all_repo_schema_written rs).
  destruct ar, ltp; cbn in *; rewrite Hrs; reflexivity.
Qed.

(** The stored form keeps everything but the [metadata]. *)
Lemma map_name_stored (l : list ToyboxRepoConfig) :
  map name (map stored_repo l) = map name l.
Proof. rewrite map_map. reflexivity. Qed.

Lemma find_map_stored (p : ToyboxRepoConfig -> bool) (l : list ToyboxRepoConfig) :
  (forall r, p (stored_repo r) = p r) ->
  find p (map stored_repo l) = option_map stored_repo (find p l).
Proof.
  intros Hp. induction l as [|x l IH]; [reflexivity|].
  cbn [map find]. rewrite Hp. destruct (p x); [reflexivity|exact IH].
Qed.

Lemma nth_error_stored (c : ToyboxConfig) (i : nat) :
  nth_error (repositories (stored c)) i
  = option_map stored_repo (nth_error (repositories c) i).
Proof. cbn [stored repositories set_repositories]. apply nth_error_map. Qed.

(** ** Facts about the array helpers *)

Lemma find_pointwise {A : Type} (p q : A -> bool) (l : list A) :
  (forall x, p x = q x) -> find p l = find q l.
Proof.
  intros Hpq. induction l as [|x l IH]; [reflexivity|].
  cbn [find]. rewrite Hpq, IH. reflexivity.
Qed.




Lemma findIndex_Some {A : Type} (p : A -> bool) (l : list A) (i : nat) :
  findIndex p l = Some i -> exists x, nth_error l i = Some x /\ p x = true.
Proof.
  revert i. induction l as [|y l IH]; intros i; [discriminate|].
  cbn [findIndex]. destruct (p y) eqn:Hp.
  - intros [= <-]. exists y. auto.
  - destruct (findIndex p l) as [j|]; [|discriminate].
    intros [= <-]. apply (IH j eq_refl).
Qed.

Lemma findIndex_None {A : Type} (p : A -> bool) (l : list A) :
  findIndex p l = None <-> (forall x, In x l -> p x = false).
Proof.
  induction l as [|y l IH]; cbn [findIndex].
  - split; [intros _ x []|reflexivity].
  - destruct (p y) eqn:Hp.
    + split; [discriminate|]. intros H. specialize (H y (or_introl eq_refl)). congruence.
    + destruct (findIndex p l) as [j|].
      * split; [discriminate|]. intros H.
        apply proj2 in IH. discriminate IH. intros x Hx. apply H. now right.
      * split; [|reflexivity]. intros _ x [<-|Hx]; [exact Hp|]. now apply IH.
Qed.

Lemma In_assign_at {A : Type} (i : nat) (x r : A) (l : list A) :
  In r (assign_at i x l) -> r = x \/ In r l.
Proof.
  revert i. induction l as [|y l IH]; intros [|i]; cbn; try tauto.
  - intros [<-|H]; auto.
  - intros [<-|H]; auto. destruct (IH i H); auto.
Qed.

Lemma map_assign_at {A B : Type} (f : A -> B) (i : nat) (x old : A) (l : list A) :
  nth_error l i = Some old -> f x = f old -> map f (assign_at i x l) = map f l.
Proof.
  revert i. induction l as [|y l IH]; intros [|i]; cbn; try discriminate.
  - intros [= ->] ->. reflexivity.
  - intros Hn Hf. rewrite (IH i Hn Hf). reflexivity.
Qed.

Lemma NoDup_map_filter {A B : Type} (f : A -> B) (q : A -> bool) (l : list A) :
  NoDup (map f l) -> NoDup (map f (filter q l)).
Proof.
  induction l as [|x l IH]; cbn [map filter]; [auto|].
  intros Hnd. inversion Hnd as [|? ? Hnotin Hrest]; subst.
  destruct (q x); [|auto]. cbn [map]. constructor; [|auto].
  intros Hin. apply Hnotin. apply in_map_iff in Hin.
  destruct Hin as [y [Hy Hin]]. apply filter_In in Hin.
  apply in_map_iff. exists y. tauto.
Qed.

(** With distinct names, the records that satisfy [p] and all carry the
    same name are at most one. *)
Lemma at_most_one_named (p : ToyboxRepoConfig -> bool) (n : string)
      (l : list ToyboxRepoConfig) :
  NoDup (map name l) ->
  (forall r, In r l -> p r = true -> name r = n) ->
  length (filter p l) <= 1.
Proof.
  induction l as [|x l IH]; cbn [map filter]; [cbn; lia|].
  intros Hnd Hall. inversion Hnd as [|? ? Hnotin Hrest]; subst.
  assert (IH' := IH Hrest (fun r Hin => Hall r (or_intror Hin))).
  destruct (p x) eqn:Hp; [|exact IH'].
  cbn [length].
  destruct (filter p l) as [|y ys] eqn:Hf; [cbn; lia|].
  exfalso. apply Hnotin.
  assert (Hy : In y (filter p l)) by (rewrite Hf; now left).
  apply filter_In in Hy. destruct Hy as [Hin Hpy].
  rewrite (Hall x (or_introl eq_refl) Hp).
  rewrite <- (Hall y (or_intror Hin) Hpy).
  now apply in_map.
Qed.

Lemma nth_error_assign_at {A : Type} (i j : nat) (x r : A) (l : list A) :
  nth_error l i = Some r ->
  nth_error (assign_at j x l) i = Some (if Nat.eqb i j then x else r).
Proof.
  revert i j. induction l as [|y l IH]; intros [|i] [|j]; cbn; try discriminate; auto.
Qed.

Lemma nth_error_mutate_found {A : Type} (p : A -> bool) (f : A -> A) (i : nat) (r : A)
      (l : list A) :
  nth_error l i = Some r ->
  nth_error (mutate_found p f l) i = Some r
  \/ (p r = true /\ nth_error (mutate_found p f l) i = Some (f r)).
Proof.
  revert i. induction l as [|y l IH]; intros [|i]; cbn; try discriminate.
  - intros [= ->]. destruct (p r) eqn:Hp; cbn; auto.
  - intros Hn. destruct (p y); cbn; auto.
Qed.

Lemma ts_le_refl (t : string) : ts_le t t.
Proof. unfold ts_le. destruct (String.leb_total t t); assumption. Qed.

Lemma resolve_active_set_lastUpdated (t : string) (c : ToyboxConfig) :
  resolve_active (set_lastUpdated t c) = resolve_active c.
Proof. reflexivity. Qed.


(** The position that [findIndex] returns is where [find] looks. *)
Lemma find_at_findIndex {A : Type} (p : A -> bool) (l : list A) (i : nat) :
  findIndex p l = Some i -> find p l = nth_error l i.
Proof.
  revert i. induction l as [|y l IH]; intros i; [discriminate|].
  cbn [findIndex find]. destruct (p y).
  - intros [= <-]. reflexivity.
  - destruct (findIndex p l) as [j|]; [|discriminate].
    intros [= <-]. cbn [nth_error]. now apply IH.
Qed.

Lemma findIndex_of_find {A : Type} (p : A -> bool) (l : list A) :
  find p l = None <-> findIndex p l = None.
Proof.
  induction l as [|y l IH]; cbn [find findIndex]; [tauto|].
  destruct (p y); [split; discriminate|].
  destruct (findIndex p l); split; intros H; try discriminate; try tauto.
  apply IH in H. discriminate.
Qed.

(** [mutate_found] changes the element at the position of the first
    match, and only that one. *)
Lemma nth_error_mutate_found_at {A : Type} (p : A -> bool) (f : A -> A) (l : list A)
      (i : nat) :
  findIndex p l = Some i ->
  nth_error (mutate_found p f l) i = option_map f (nth_error l i).
Proof.
  revert i. induction l as [|y l IH]; intros i; [discriminate|].
  cbn [findIndex mutate_found]. destruct (p y).
  - intros [= <-]. reflexivity.
  - destruct (findIndex p l) as [j|]; [|discriminate].
    intros [= <-]. cbn [nth_error]. now apply IH.
Qed.

Lemma nth_error_mutate_found_other {A : Type} (p : A -> bool) (f : A -> A) (l : list A)
      (i : nat) :
  findIndex p l <> Some i ->
  nth_error (mutate_found p f l) i = nth_error l i.
Proof.
  revert i. induction l as [|y l IH]; intros i; [reflexivity|].
  cbn [findIndex mutate_found]. destruct (p y).
  - destruct i as [|i]; [congruence|reflexivity].
  - intros H. destruct i as [|i]; [reflexivity|]. cbn [nth_error]. apply IH.
    destruct (findIndex p l) as [j|]; congruence.
Qed.

Lemma length_mutate_found {A : Type} (p : A -> bool) (f : A -> A) (l : list A) :
  length (mutate_found p f l) = length l.
Proof.
  induction l as [|y l IH]; [reflexivity|].
  cbn [mutate_found]. destruct (p y); cbn [length]; congruence.
Qed.

Lemma length_assign_at {A : Type} (i : nat) (x : A) (l : list A) :
  length (assign_at i x l) = length l.
Proof.
  revert i. induction l as [|y l IH]; intros [|i]; cbn; congruence.
Qed.

Lemma is_position (o : option nat) (i : nat) : o = Some i \/ o <> Some i.
Proof.
  destruct o as [j|]; [|right; discriminate].
  destruct (Nat.eq_dec j i) as [->|Hne]; [now left|right; congruence].
Qed.

(** ** The store: [write], [read], [update] *)

Section Store.

Variable env : process_env.
Variable clock : nat -> string.

Lemma write_run (c : ToyboxConfig) (w : world) :
  write clock c w =
    (Returns (set_lastUpdated (clock (ticks w)) c),
     mkWorld (Some (file_of (set_lastUpdated (clock (ticks w)) c)))
             (lock w) (S (ticks w))).
Proof.
  unfold write, bind, now, parse. cbn [ticks disk lock].
  rewrite config_schema_json_of_config. reflexivity.
Qed.

Lemma read_valid (w : world) (v : json) (c : ToyboxConfig) :
  disk w = Some (Serialized v) ->
  ToyboxConfigSchema (Some v) = Some c ->
  read env clock w = (Returns (migrate_config c), w).
Proof.
  intros Hd Hv.
  unfold read, try_catch, bind, pathExists, readFile, JSON_parse, parse, migrate.
  cbn -[ToyboxConfigSchema]. repeat (rewrite Hd; cbn -[ToyboxConfigSchema]).
  rewrite Hv. reflexivity.
Qed.

Lemma read_malformed (w : world) (raw : string) :
  disk w = Some (Malformed raw) ->
  read env clock w = (Throws (Failed Read SyntaxError), w).
Proof.
  intros Hd.
  unfold read, try_catch, bind, pathExists, readFile, JSON_parse.
  cbn. repeat (rewrite Hd; cbn). reflexivity.
Qed.

Lemma read_absent (w : world) :
  disk w = None ->
  read env clock w =
    (Returns (set_lastUpdated (clock (S (ticks w))) (default_config env (clock (ticks w)))),
     mkWorld (Some (file_of (set_lastUpdated (clock (S (ticks w)))
                                             (default_config env (clock (ticks w))))))
             (lock w) (S (S (ticks w)))).
Proof.
  intros Hd.
  unfold read, try_catch, bind at 1 2, pathExists. rewrite Hd.
  cbn [negb]. unfold bind at 1, createDefaultConfig, bind at 1, now, ret at 1.
  unfold bind at 1. rewrite write_run. reflexivity.
Qed.

(** A file that parses but does not validate is replaced by a default
    configuration, which is returned. *)
Lemma read_invalid (w : world) (v : json) :
  disk w = Some (Serialized v) ->
  ToyboxConfigSchema (Some v) = None ->
  read env clock w =
    (Returns (set_lastUpdated (clock (S (ticks w))) (default_config env (clock (ticks w)))),
     mkWorld (Some (file_of (set_lastUpdated (clock (S (ticks w)))
                                             (default_config env (clock (ticks w))))))
             (lock w) (S (S (ticks w)))).
Proof.
  intros Hd Hv.
  unfold read, try_catch, bind at 1 2, pathExists. rewrite Hd.
  cbn [negb]. unfold bind at 1 2, readFile. rewrite Hd.
  unfold JSON_parse, ret at 1, bind at 1, parse. rewrite Hv.
  unfold throw at 1. cbn [is_ZodError].
  unfold bind at 1, createDefaultConfig, bind at 1, now, ret at 1.
  unfold bind at 1. rewrite write_run. reflexivity.
Qed.

(** What the file holds after [write] wrote a configuration. *)
Lemma persisted_written (c : ToyboxConfig) (lk : marker) (t : nat) :
  persisted (mkWorld (Some (file_of c)) lk t) = Some (stored c).
Proof. unfold persisted. cbn [disk file_of JSON_stringify]. apply config_schema_written. Qed.

Lemma read_written (c : ToyboxConfig) (lk : marker) (t : nat) :
  read env clock (mkWorld (Some (file_of c)) lk t)
  = (Returns (migrate_config (stored c)), mkWorld (Some (file_of c)) lk t).
Proof.
  apply (read_valid _ (reparsed (json_of_config (validated c)))).
  - reflexivity.
  - apply config_schema_written.
Qed.

(** *** [update] on a file that holds a configuration *)

Lemma update_valid_returns (updater : ToyboxConfig -> M ToyboxConfig)
      (w w' : world) (v : json) (c c' : ToyboxConfig) :
  disk w = Some (Serialized v) ->
  lock w = Free ->
  ToyboxConfigSchema (Some v) = Some c ->
  updater (migrate_config c) (mkWorld (disk w) Held (ticks w)) = (Returns c', w') ->
  update env clock updater w =
    (Returns (set_lastUpdated (clock (ticks w')) c'),
     mkWorld (Some (file_of (set_lastUpdated (clock (ticks w')) c')))
             Free (S (ticks w'))).
Proof.
  intros Hd Hl Hv Hu.
  unfold update, lockfile_lock. rewrite Hd, Hl. rewrite <- Hd.
  unfold update_after_lock, finally, try_catch, bind at 1.
  rewrite (read_valid _ v c) by (cbn [disk]; assumption).
  unfold bind at 1. rewrite Hu. unfold bind at 1. rewrite write_run.
  reflexivity.
Qed.

Lemma update_valid_throws (updater : ToyboxConfig -> M ToyboxConfig)
      (w w' : world) (v : json) (c : ToyboxConfig) (e : error) :
  disk w = Some (Serialized v) ->
  lock w = Free ->
  ToyboxConfigSchema (Some v) = Some c ->
  updater (migrate_config c) (mkWorld (disk w) Held (ticks w)) = (Throws e, w') ->
  has_code_ENOENT e = false ->
  update env clock updater w = (Throws (Failed Update e), release w').
Proof.
  intros Hd Hl Hv Hu He.
  unfold update, lockfile_lock. rewrite Hd, Hl. rewrite <- Hd.
  unfold update_after_lock, finally, try_catch, bind at 1.
  rewrite (read_valid _ v c) by (cbn [disk]; assumption).
  unfold bind at 1. rewrite Hu. unfold update_catch. rewrite He. reflexivity.
Qed.

(** *** [update] when the file does not exist: the lock is refused with
    [ENOENT] and the updater runs on a default configuration. *)

Lemma update_absent (updater : ToyboxConfig -> M ToyboxConfig) (w : world) :
  disk w = None ->
  update env clock updater w =
    (updatedConfig <- updater (default_config env (clock (ticks w))) ;;
     write clock updatedConfig)
      (mkWorld (disk w) (lock w) (S (ticks w))).
Proof.
  intros Hd.
  unfold update, lockfile_lock. rewrite Hd.
  unfold update_after_lock, update_catch. cbn [has_code_ENOENT].
  unfold bind at 1, createDefaultConfig, bind at 1, now, ret at 1.
  rewrite Hd. unfold bind.
  destruct (updater _ _) as [[c'|e] w1]; [|reflexivity].
  destruct (write clock c' w1) as [[c''|e] w2]; reflexivity.
Qed.

Lemma migrate_config_repositories (c : ToyboxConfig) :
  repositories (migrate_config c) = repositories c.
Proof. unfold migrate_config. destruct (negb _); reflexivity. Qed.

Lemma migrate_config_activeRepository (c : ToyboxConfig) :
  activeRepository (migrate_config c) = activeRepository c.
Proof. unfold migrate_config. destruct (negb _); reflexivity. Qed.

Lemma migrate_config_version (c : ToyboxConfig) :
  version (migrate_config c) = CONFIG_VERSION.
Proof.
  unfold migrate_config.
  destruct (version c =? CONFIG_VERSION) eqn:E; cbn [negb]; [|reflexivity].
  now apply String.eqb_eq.
Qed.

Lemma getActiveRepository_valid (w : world) (v : json) (c : ToyboxConfig) :
  disk w = Some (Serialized v) ->
  ToyboxConfigSchema (Some v) = Some c ->
  getActiveRepository env clock w = (Returns (resolve_active c), w).
Proof.
  intros Hd Hv.
  unfold getActiveRepository, bind, resolve_active.
  rewrite (read_valid w v c Hd Hv).
  rewrite migrate_config_repositories, migrate_config_activeRepository.
  destruct (negb _); reflexivity.
Qed.

Lemma resolve_active_stored (c : ToyboxConfig) :
  resolve_active (stored c) = option_map stored_repo (resolve_active c).
Proof.
  unfold resolve_active. cbn [stored activeRepository repositories set_repositories].
  destruct (negb _); apply find_map_stored; reflexivity.
Qed.

Lemma getActiveRepository_written (c : ToyboxConfig) (lk : marker) (t : nat) :
  let w := mkWorld (Some (file_of c)) lk t in
  getActiveRepository env clock w = (Returns (option_map stored_repo (resolve_active c)), w).
Proof.
  intros w. rewrite <- resolve_active_stored.
  apply (getActiveRepository_valid w (reparsed (json_of_config (validated c)))).
  - reflexivity.
  - apply config_schema_written.
Qed.

(** The members of a [metadata] that is read back: no [__proto__], and
    every other member as [JSON.stringify] wrote it. *)
Lemma get_stored_metadata (k : string) (m : list (string * json)) :
  get k (stored_metadata m)
  = if k =? "__proto__" then None else option_map reparsed (get k m).
Proof.
  unfold stored_metadata. induction m as [|[k0 v] m IH].
  - cbn. now destruct (k =? "__proto__").
  - cbn [filter get]. unfold Zod.kept at 1. cbn [fst].
    destruct (k0 =? "__proto__") eqn:Hproto; cbn [negb].
    + rewrite IH. destruct (k =? "__proto__") eqn:Hk; [reflexivity|].
      apply String.eqb_eq in Hproto. subst k0.
      rewrite String.eqb_sym, Hk. reflexivity.
    + cbn [map reparsed_member fst snd get].
      destruct (k0 =? k) eqn:Hkk.
      * apply String.eqb_eq in Hkk. subst k0. rewrite Hproto. reflexivity.
      * exact IH.
Qed.

(** *** Claims about [read] and [write] *)

(** The recovery that [read] performs: a file that parses but does not
    validate is replaced by a default configuration, which is returned,
    and the file holds valid JSON afterwards. *)
Lemma read_recovers_from_invalid_document (w : world) (v : json) :
  disk w = Some (Serialized v) ->
  ToyboxConfigSchema (Some v) = None ->
  exists d w',
    read env clock w = (Returns d, w')
    /\ persisted w' = Some d
    /\ holds_json w'
    /\ repositories d = [] /\ activeRepository d = None.
Proof.
  intros Hd Hv. rewrite (read_invalid w v Hd Hv).
  eexists. eexists. split; [reflexivity|].
  split; [apply persisted_written|].
  split; [eexists; reflexivity|]. split; reflexivity.
Qed.

(** C1 (the code departs from the claim on texts that are not JSON):
    when the file holds a text that [JSON.parse] rejects, [read]
    throws [Failed to read configuration: ...] and leaves the world as
    it is: no default configuration is written, and the file does not
    hold valid JSON afterwards. *)
Theorem read_rethrows_on_malformed_text (raw : string) (lk : marker) (t : nat) :
  read env clock (mkWorld (Some (Malformed raw)) lk t) =
    (Throws (Failed Read SyntaxError), mkWorld (Some (Malformed raw)) lk t)
  /\ ~ holds_json (snd (read env clock (mkWorld (Some (Malformed raw)) lk t))).
Proof.
  assert (H : read env clock (mkWorld (Some (Malformed raw)) lk t) =
                (Throws (Failed Read SyntaxError), mkWorld (Some (Malformed raw)) lk t))
    by (apply (read_malformed _ raw); reflexivity).
  split; [exact H|]. rewrite H. intros [v Hv]. discriminate Hv.
Qed.

(** C10: a file that parses and validates with a [version] other than
    the current one is read as a configuration with the current
    version, and [read] leaves the world as it found it, so the file
    still holds the old version; a following [write] of what was read,
    or a following [update], stores the current version. *)
Theorem read_migrates_in_memory_only (w : world) (v : json) (c : ToyboxConfig) :
  disk w = Some (Serialized v) ->
  ToyboxConfigSchema (Some v) = Some c ->
  version c <> CONFIG_VERSION ->
  exists c',
    read env clock w = (Returns c', w)
    /\ version c' = CONFIG_VERSION
    /\ option_map version (persisted w) = Some (version c)
    /\ option_map version (persisted (snd (write clock c' w))) = Some CONFIG_VERSION
    /\ (lock w = Free ->
        option_map version (persisted (snd (update env clock ret w)))
        = Some CONFIG_VERSION).
Proof.
  intros Hd Hv Hne. exists (migrate_config c).
  split; [apply (read_valid w v c Hd Hv)|].
  split; [apply migrate_config_version|].
  split; [unfold persisted; rewrite Hd, Hv; reflexivity|].
  split.
  - rewrite write_run. cbn [snd]. rewrite persisted_written.
    cbn [option_map version set_lastUpdated stored set_repositories].
    f_equal. apply migrate_config_version.
  - intros Hl.
    rewrite (update_valid_returns ret w _ v c (migrate_config c) Hd Hl Hv eq_refl).
    cbn [snd]. rewrite persisted_written.
    cbn [option_map version set_lastUpdated stored set_repositories].
    f_equal. apply migrate_config_version.
Qed.

(** C6, as the code has it: [write(C)] followed by [read()] gives back
    [C] with three differences.  [version] is the current version;
    [lastUpdated] is what [write] read from the clock, which is not
    before [C.lastUpdated] when the clock is not behind it; and the
    [metadata] of a record comes back as it was written: without a
    [__proto__] member, and with what [JSON.stringify] writes for each
    value.  A record whose [metadata] is written as it is comes back
    unchanged. *)
Theorem write_then_read (C : ToyboxConfig) (w : world) :
  exists C' w1,
    snd (write clock C w) = w1
    /\ read env clock w1 = (Returns C', w1)
    /\ version C' = CONFIG_VERSION
    /\ (version C = CONFIG_VERSION -> version C' = version C)
    /\ activeRepository C' = activeRepository C
    /\ debug C' = debug C
    /\ localTemplatePath C' = localTemplatePath C
    /\ preferences C' = preferences C
    /\ lastUpdated C' = clock (ticks w)
    /\ (ts_le (lastUpdated C) (clock (ticks w)) -> ts_le (lastUpdated C) (lastUpdated C'))
    /\ length (repositories C') = length (repositories C)
    /\ (forall i r,
          nth_error (repositories C) i = Some r ->
          exists r',
            nth_error (repositories C') i = Some r'
            /\ name r' = name r
            /\ localPath r' = localPath r
            /\ remoteUrl r' = remoteUrl r
            /\ publishedUrl r' = publishedUrl r
            /\ createdAt r' = createdAt r
            /\ lastUsedAt r' = lastUsedAt r
            /\ isActive r' = isActive r
            /\ (metadata r = None -> metadata r' = None)
            /\ (forall m, metadata r = Some m ->
                  exists m', metadata r' = Some m'
                             /\ forall k, get k m'
                                          = if k =? "__proto__" then None
                                            else option_map reparsed (get k m))
            /\ (plain_metadata (metadata r) = true -> r' = r))
    /\ (Forall (fun r => plain_metadata (metadata r) = true) (repositories C) ->
        repositories C' = repositories C).
Proof.
  exists (migrate_config (stored (set_lastUpdated (clock (ticks w)) C))).
  eexists. split; [reflexivity|].
  rewrite write_run. cbn [snd].
  split; [apply read_written|].
  split; [apply migrate_config_version|].
  split; [intros H; rewrite migrate_config_version; symmetry; exact H|].
  assert (Hrecords : forall i r,
             nth_error (repositories C) i = Some r ->
             exists r',
               nth_error (map stored_repo (repositories C)) i = Some r'
               /\ name r' = name r
               /\ localPath r' = localPath r
               /\ remoteUrl r' = remoteUrl r
               /\ publishedUrl r' = publishedUrl r
               /\ createdAt r' = createdAt r
               /\ lastUsedAt r' = lastUsedAt r
               /\ isActive r' = isActive r
               /\ (metadata r = None -> metadata r' = None)
               /\ (forall m, metadata r = Some m ->
                     exists m', metadata r' = Some m'
                                /\ forall k, get k m'
                                             = if k =? "__proto__" then None
                                               else option_map reparsed (get k m))
               /\ (plain_metadata (metadata r) = true -> r' = r)).
  { intros i r Hr. exists (stored_repo r).
    split; [rewrite nth_error_map, Hr; reflexivity|].
    do 7 (split; [reflexivity|]).
    unfold stored_repo at 1 2. cbn [metadata].
    split; [intros ->; reflexivity|].
    split; [|apply stored_repo_plain].
    intros m ->. exists (stored_metadata m).
    split; [reflexivity|]. intros k. apply get_stored_metadata. }
  rewrite migrate_config_repositories.
  unfold migrate_config.
  destruct (negb _);
    cbn [stored set_version set_repositories set_lastUpdated repositories activeRepository
         debug localTemplatePath preferences lastUpdated];
    (do 5 (split; [reflexivity|]));
    (split; [auto|]);
    (split; [apply length_map|]);
    (split; [exact Hrecords|apply map_stored_repo_plain]).
Qed.

(** C7, as the code has it: the pointer is looked up by name when it is
    a non-empty string (the first record of that name, [null] when
    there is none); when it is unset or the empty string, the first
    record with [isActive = true] is returned, [null] when there is
    none.  [read] is the only effect, and on a valid file it has none. *)
Theorem getActiveRepository_resolves (w : world) (v : json) (c : ToyboxConfig) :
  disk w = Some (Serialized v) ->
  ToyboxConfigSchema (Some v) = Some c ->
  exists result,
    getActiveRepository env clock w = (Returns result, w)
    /\ (forall n, activeRepository c = Some n -> n <> "" ->
          result = find (fun r => name r =? n) (repositories c)
          /\ ((exists r, In r (repositories c) /\ name r = n) ->
              exists r, result = Some r /\ In r (repositories c) /\ name r = n)
          /\ ((forall r, In r (repositories c) -> name r <> n) -> result = None))
    /\ (activeRepository c = None \/ activeRepository c = Some "" ->
        result = find (fun r => isActive r) (repositories c)).
Proof.
  intros Hd Hv.
  rewrite (getActiveRepository_valid w v c Hd Hv). unfold resolve_active.
  destruct (activeRepository c) as [p|] eqn:Hp; cbn [truthy].
  - destruct (p =? "") eqn:Hempty; cbn [negb]; eexists; (split; [reflexivity|]).
    + apply String.eqb_eq in Hempty. subst p. split.
      * intros n Hn Hne. injection Hn as <-. congruence.
      * reflexivity.
    + apply String.eqb_neq in Hempty. split.
      * intros n Hn _. injection Hn as <-. cbn [strict_equal].
        assert (Hfind : find (fun r => p =? name r) (repositories c)
                        = find (fun r => name r =? p) (repositories c)).
        { apply find_pointwise. intros r. apply String.eqb_sym. }
        rewrite Hfind. split; [reflexivity|]. split.
        -- intros [r [Hin Hname]].
           destruct (find (fun r => name r =? p) (repositories c)) as [r'|] eqn:Hf.
           ++ apply find_some in Hf. destruct Hf as [Hin' Hn'].
              apply String.eqb_eq in Hn'. exists r'. auto.
           ++ exfalso. apply (find_none _ _ Hf) in Hin.
              rewrite Hname, String.eqb_refl in Hin. discriminate.
        -- intros Hnone.
           destruct (find (fun r => name r =? p) (repositories c)) as [r'|] eqn:Hf;
             [|reflexivity].
           apply find_some in Hf. destruct Hf as [Hin' Hn'].
           apply String.eqb_eq in Hn'. exfalso. exact (Hnone r' Hin' Hn').
      * intros [H|H]; [discriminate|]. injection H as ->. congruence.
  - eexists. split; [reflexivity|]. split.
    + intros n Hn. discriminate.
    + reflexivity.
Qed.

End Store.

(** Projections of a configuration built by the setters. *)
Ltac simpl_config :=
  repeat (progress
    (cbn [repositories activeRepository set_repositories set_activeRepository
          set_lastUpdated set_version stored];
     rewrite ?migrate_config_repositories, ?migrate_config_activeRepository)).

(** ** The registry *)

Section Registry.

Variable env : process_env.
Variable clock : nat -> string.

(** A method that awaits [update] and returns nothing. *)
Lemma method_returns (u : ToyboxConfig -> M ToyboxConfig) (w w' : world) (c' : ToyboxConfig) :
  update env clock u w = (Returns c', w') ->
  (update env clock u ;; ret tt) w = (Returns tt, w').
Proof. intros H. unfold bind. rewrite H. reflexivity. Qed.

Lemma method_throws (u : ToyboxConfig -> M ToyboxConfig) (w w' : world) (e : error) :
  update env clock u w = (Throws e, w') ->
  (update env clock u ;; ret tt) w = (Throws e, w').
Proof. intros H. unfold bind. rewrite H. reflexivity. Qed.

Lemma release_unlocked (w : world) :
  lock w = Free -> release (mkWorld (disk w) Held (ticks w)) = w.
Proof. destruct w as [d l t]. cbn. intros ->. reflexivity. Qed.

(** *** [setActiveRepository] *)

(** C5: on a file that holds a configuration without a record of that
    name, [setActiveRepository] throws the updater's not-found error
    (wrapped by [update]) and the world, hence the file, is as before.
    With such a record, the call returns, and in the configuration that
    the file then holds the pointer is [repoName] and the record at
    each position is the one that was there with [isActive] equal to
    [name == repoName] and nothing else changed.  Flags and pointer
    reach the file together: the clock was read once, by the one
    [write] of the one [update], and [lastUpdated] is that reading. *)
Theorem setActiveRepository_spec (repoName : string) (w : world) (v : json)
        (c : ToyboxConfig) :
  disk w = Some (Serialized v) ->
  lock w = Free ->
  ToyboxConfigSchema (Some v) = Some c ->
  ((forall r, In r (repositories c) -> name r <> repoName) ->
   setActiveRepository env clock repoName w
   = (Throws (Failed Update (NotFound repoName)), w))
  /\ ((exists r, In r (repositories c) /\ name r = repoName) ->
      exists c' w',
        setActiveRepository env clock repoName w = (Returns tt, w')
        /\ persisted w' = Some c'
        /\ lock w' = Free
        /\ ticks w' = S (ticks w)
        /\ lastUpdated c' = clock (ticks w)
        /\ activeRepository c' = Some repoName
        /\ length (repositories c') = length (repositories c)
        /\ (forall i r,
              nth_error (repositories c) i = Some r ->
              exists r',
                nth_error (repositories c') i = Some r'
                /\ isActive r' = (name r =? repoName)
                /\ name r' = name r
                /\ localPath r' = localPath r
                /\ remoteUrl r' = remoteUrl r
                /\ publishedUrl r' = publishedUrl r
                /\ createdAt r' = createdAt r
                /\ lastUsedAt r' = lastUsedAt r
                /\ metadata r' = option_map stored_metadata (metadata r))
        /\ (forall x, In x (repositories c') -> (isActive x = true <-> name x = repoName))).
Proof.
  intros Hd Hl Hv. split.
  - intros Hnone. unfold setActiveRepository.
    apply method_throws.
    rewrite <- (release_unlocked w Hl) at 2.
    eapply (update_valid_throws env clock _ w _ v c); try eassumption; [|reflexivity].
    unfold setActiveRepository_updater.
    rewrite migrate_config_repositories.
    destruct (find _ (repositories c)) as [r|] eqn:Hf; [|reflexivity].
    apply find_some in Hf. destruct Hf as [Hin Hn]. apply String.eqb_eq in Hn.
    exfalso. exact (Hnone r Hin Hn).
  - intros [r [Hin Hname]].
    assert (Hu : setActiveRepository_updater repoName (migrate_config c)
                   (mkWorld (disk w) Held (ticks w))
                 = (Returns (set_activeRepository (Some repoName)
                               (set_repositories
                                  (map (fun r => set_isActive (name r =? repoName) r)
                                       (repositories c))
                                  (migrate_config c))),
                    mkWorld (disk w) Held (ticks w))).
    { unfold setActiveRepository_updater.
      rewrite migrate_config_repositories.
      destruct (find _ (repositories c)) as [r'|] eqn:Hf; [reflexivity|].
      apply (find_none _ _ Hf) in Hin.
      rewrite Hname, String.eqb_refl in Hin. discriminate. }
    eexists. eexists. split.
    { unfold setActiveRepository.
      eapply method_returns.
      apply (update_valid_returns env clock _ w _ v c _ Hd Hl Hv Hu). }
    split; [apply persisted_written|].
    cbn [lock ticks lastUpdated activeRepository repositories stored set_repositories
         set_lastUpdated set_activeRepository].
    do 4 (split; [reflexivity|]).
    split; [now rewrite !length_map|].
    split.
    + intros i r0 Hr0. eexists. split.
      * rewrite !nth_error_map, Hr0. reflexivity.
      * cbn. repeat split.
    + intros x Hx. apply in_map_iff in Hx. destruct Hx as [y [<- Hy]].
      apply in_map_iff in Hy. destruct Hy as [z [<- _]].
      cbn [isActive name stored_repo set_isActive]. apply String.eqb_eq.
Qed.

(** *** [removeRepository] *)

Lemma removeRepository_run (repoName : string) (w : world) (v : json) (c : ToyboxConfig) :
  disk w = Some (Serialized v) ->
  lock w = Free ->
  ToyboxConfigSchema (Some v) = Some c ->
  let c' := set_lastUpdated (clock (ticks w))
              (removeRepository_updater repoName (migrate_config c)) in
  removeRepository env clock repoName w
  = (Returns tt, mkWorld (Some (file_of c')) Free (S (ticks w))).
Proof.
  intros Hd Hl Hv c'. unfold removeRepository.
  eapply method_returns.
  apply (update_valid_returns env clock _ w (mkWorld (disk w) Held (ticks w))
                              v c _ Hd Hl Hv eq_refl).
Qed.



(** *** [upsertRepository] *)

Lemma upsert_updater_empty (repo : RepoArgument) (config : ToyboxConfig) (w : world) :
  repositories config = [] ->
  exists r w',
    upsertRepository_updater clock repo config w
    = (Returns (set_repositories [r] (set_activeRepository (Some (arg_name repo)) config)),
       w')
    /\ name r = arg_name repo /\ isActive r = true
    /\ disk w' = disk w /\ lock w' = lock w.
Proof.
  intros Hempty.
  unfold upsertRepository_updater, createdAt_or_now. rewrite Hempty. cbn [findIndex].
  destruct (arg_createdAt repo =? ""); cbn;
    eexists; eexists; (split; [reflexivity|]); cbn; auto.
Qed.







(** *** The active selection over sequences of calls *)

Lemma registry_ok_at_most_one (c : ToyboxConfig) :
  registry_ok c ->
  length (filter (fun r => isActive r) (repositories c)) <= 1.
Proof.
  intros [Hnd [Hflag _]].
  destruct (activeRepository c) as [n|] eqn:Hp.
  - apply (at_most_one_named _ n); [exact Hnd|].
    intros r Hin Ha. specialize (Hflag r Hin Ha). congruence.
  - apply (at_most_one_named _ ""); [exact Hnd|].
    intros r Hin Ha. specialize (Hflag r Hin Ha). discriminate.
Qed.

Lemma registry_ok_default (t : string) : registry_ok (default_config env t).
Proof. split; [constructor|split; [intros r []|discriminate]]. Qed.

Lemma registry_ok_set_lastUpdated (t : string) (c : ToyboxConfig) :
  registry_ok c -> registry_ok (set_lastUpdated t c).
Proof. intros H. exact H. Qed.

Lemma registry_ok_stored (c : ToyboxConfig) :
  registry_ok c -> registry_ok (stored c).
Proof.
  intros [Hnd [Hflag Hres]]. unfold registry_ok.
  cbn [stored repositories activeRepository set_repositories].
  rewrite map_name_stored. split; [exact Hnd|]. split; [|exact Hres].
  intros r Hin Ha. apply in_map_iff in Hin. destruct Hin as [x [<- Hx]].
  exact (Hflag x Hx Ha).
Qed.

Lemma registry_ok_migrate (c : ToyboxConfig) :
  registry_ok c -> registry_ok (migrate_config c).
Proof.
  unfold registry_ok.
  rewrite migrate_config_repositories, migrate_config_activeRepository. auto.
Qed.

Lemma registry_ok_empty (c : ToyboxConfig) :
  repositories c = [] -> activeRepository c = None -> registry_ok c.
Proof.
  intros H Hp. unfold registry_ok. rewrite H, Hp.
  split; [constructor|split; [intros r []|discriminate]].
Qed.

(** [update] keeps a world in order when the updater keeps the
    configuration in order. *)
Lemma update_world_ok (u : ToyboxConfig -> M ToyboxConfig) :
  quiet u ->
  (forall c w c' w', registry_ok c -> u c w = (Returns c', w') -> registry_ok c') ->
  forall w, world_ok w -> world_ok (snd ((update env clock u ;; ret tt) w)).
Proof.
  intros Hq Hu w [Hl [Hd | [v [c [Hd [Hv Hok]]]]]].
  - (* no file *)
    unfold bind at 1. rewrite (update_absent env clock u w Hd). unfold bind at 1.
    specialize (Hq (default_config env (clock (ticks w)))
                   (mkWorld (disk w) (lock w) (S (ticks w)))).
    destruct (u _ _) as [[c'|e] w1] eqn:Hrun.
    + rewrite write_run. cbn [snd ret]. destruct Hq as [_ Hl1]. cbn in Hl1.
      split; [cbn; congruence|]. right.
      eexists. eexists. split; [reflexivity|].
      split; [apply config_schema_written|].
      apply registry_ok_stored, registry_ok_set_lastUpdated.
      apply (Hu _ _ _ _ (registry_ok_default _) Hrun).
    + cbn [snd]. destruct Hq as [Hd1 [Hl1 _]]. cbn in Hd1, Hl1.
      split; [congruence|]. left. congruence.
  - (* a configuration in order *)
    specialize (Hq (migrate_config c) (mkWorld (disk w) Held (ticks w))).
    destruct (u _ _) as [[c'|e] w1] eqn:Hrun.
    + unfold bind at 1.
      rewrite (update_valid_returns env clock u w w1 v c c' Hd Hl Hv Hrun).
      cbn [snd ret]. split; [reflexivity|]. right.
      eexists. eexists. split; [reflexivity|].
      split; [apply config_schema_written|].
      apply registry_ok_stored, registry_ok_set_lastUpdated.
      apply (Hu _ _ _ _ (registry_ok_migrate _ Hok) Hrun).
    + destruct Hq as [Hd1 [Hl1 He]]. cbn in Hd1, Hl1.
      unfold bind at 1.
      rewrite (update_valid_throws env clock u w w1 v c e Hd Hl Hv Hrun He).
      cbn [snd]. split; [reflexivity|]. right.
      exists v, c. cbn [release disk]. split; [congruence|]. auto.
Qed.

Lemma setActiveRepository_updater_quiet (repoName : string) :
  quiet (setActiveRepository_updater repoName).
Proof.
  intros c w. unfold setActiveRepository_updater.
  destruct (find _ _); cbn; auto.
Qed.

Lemma setActiveRepository_updater_ok (repoName : string) (c c' : ToyboxConfig)
      (w w' : world) :
  registry_ok c ->
  setActiveRepository_updater repoName c w = (Returns c', w') ->
  registry_ok c'.
Proof.
  intros [Hnd _]. unfold setActiveRepository_updater.
  destruct (find _ _) as [found|] eqn:Hf; [|discriminate]. intros [= <- _].
  apply find_some in Hf. destruct Hf as [Hin Hname]. apply String.eqb_eq in Hname.
  split; [|split]; simpl_config.
  - rewrite map_map. cbn [name set_isActive]. exact Hnd.
  - intros r Hr Ha. apply in_map_iff in Hr. destruct Hr as [r0 [<- _]].
    cbn [isActive set_isActive name] in *. apply String.eqb_eq in Ha. congruence.
  - intros n [= <-]. rewrite map_map. cbn [name set_isActive].
    rewrite <- Hname. now apply in_map.
Qed.

Lemma removeRepository_updater_ok (repoName : string) (c : ToyboxConfig) :
  registry_ok c -> registry_ok (removeRepository_updater repoName c).
Proof.
  intros [Hnd [Hflag Hres]]. unfold removeRepository_updater. simpl_config.
  set (kept := filter (fun r => negb (name r =? repoName)) (repositories c)).
  assert (Hnd' : NoDup (map name kept)) by now apply NoDup_map_filter.
  assert (Hkept : forall r, In r kept -> In r (repositories c) /\ name r <> repoName).
  { intros r Hin. apply filter_In in Hin. destruct Hin as [Hin Hn].
    apply negb_true_iff, String.eqb_neq in Hn. auto. }
  destruct (strict_equal (activeRepository c) repoName) eqn:Hptr; simpl_config.
  - assert (Hp : activeRepository c = Some repoName).
    { destruct (activeRepository c) as [p|]; [|discriminate].
      cbn in Hptr. apply String.eqb_eq in Hptr. congruence. }
    assert (Hnoflag : forall r, In r kept -> isActive r = false).
    { intros r Hin. destruct (Hkept r Hin) as [Hin' Hne].
      destruct (isActive r) eqn:Ha; [|reflexivity].
      specialize (Hflag r Hin' Ha). congruence. }
    destruct kept as [|first rest]; simpl_config.
    + split; [constructor|split; [intros r []|discriminate]].
    + split; [exact Hnd'|]. split.
      * intros r [<-|Hin] Ha; [reflexivity|].
        rewrite (Hnoflag r (or_intror Hin)) in Ha. discriminate.
      * intros n [= <-]. now left.
  - split; [exact Hnd'|]. split.
    + intros r Hin Ha. apply Hflag; [apply (Hkept r Hin)|exact Ha].
    + intros n Hn. specialize (Hres n Hn). apply in_map_iff in Hres.
      destruct Hres as [r [Hname Hin]]. apply in_map_iff. exists r.
      split; [exact Hname|]. apply filter_In. split; [exact Hin|].
      apply negb_true_iff, String.eqb_neq. intros Heq.
      cbn [activeRepository set_repositories] in Hn. rewrite Hn in Hptr. cbn in Hptr.
      rewrite <- Hname, Heq, String.eqb_refl in Hptr.
      discriminate.
Qed.

Lemma activate_if_single_ok (repo : RepoArgument) (c : ToyboxConfig) :
  registry_ok c ->
  (forall r, repositories c = [r] -> name r = arg_name repo) ->
  registry_ok (activate_if_single repo c).
Proof.
  intros Hok Hsingle. unfold activate_if_single.
  destruct (repositories c) as [|first [|second rest]] eqn:Hr;
    cbn [length Nat.eqb]; try exact Hok; simpl_config.
  rewrite ?Hr. cbn [nth_error assign_at]. split; [|split]; simpl_config.
  - cbn. constructor; [intros []|constructor].
  - intros r [<-|[]] _. cbn [name set_isActive].
    now rewrite (Hsingle first eq_refl).
  - intros n [= <-]. left. cbn [name set_isActive].
    now rewrite (Hsingle first eq_refl).
Qed.

Lemma upsertRepository_updater_quiet (repo : RepoArgument) :
  quiet (upsertRepository_updater clock repo).
Proof.
  intros c w. unfold upsertRepository_updater, createdAt_or_now.
  destruct (findIndex _ _) as [i|].
  - destruct (nth_error _ _); cbn; auto.
  - destruct (arg_createdAt repo =? ""); cbn; auto.
Qed.

Lemma upsertRepository_updater_ok (repo : RepoArgument) (c c' : ToyboxConfig)
      (w w' : world) :
  arg_isActive repo = false ->
  registry_ok c ->
  upsertRepository_updater clock repo c w = (Returns c', w') ->
  registry_ok c'.
Proof.
  intros Hflag0 [Hnd [Hflag Hres]]. unfold upsertRepository_updater, createdAt_or_now.
  destruct (findIndex _ _) as [i|] eqn:Hidx.
  - (* a record of that name is there *)
    destruct (findIndex_Some _ _ _ Hidx) as [existing [Hnth Hname]].
    apply String.eqb_eq in Hname.
    rewrite Hnth. cbn. intros [= <- _].
    assert (Hnames : map name (assign_at i (merge_existing existing repo (clock (ticks w)))
                                         (repositories c))
                     = map name (repositories c)).
    { apply (map_assign_at name i _ existing); [exact Hnth|]. cbn. congruence. }
    apply activate_if_single_ok.
    + split; [|split]; simpl_config; [rewrite Hnames; exact Hnd| |].
      * intros r Hin Ha. apply In_assign_at in Hin. destruct Hin as [->|Hin].
        -- cbn in Ha. congruence.
        -- now apply Hflag.
      * rewrite Hnames. exact Hres.
    + simpl_config. intros r Hr.
      assert (Hn : map name [r] = map name (repositories c)) by (rewrite <- Hr; exact Hnames).
      destruct (repositories c) as [|x [|y l]]; try discriminate.
      destruct i as [|i]; cbn in Hnth; [|destruct i; discriminate].
      injection Hnth as ->. cbn in Hn. congruence.
  - (* a new name *)
    assert (Hfresh : ~ In (arg_name repo) (map name (repositories c))).
    { intros Hin. apply in_map_iff in Hin. destruct Hin as [r [Hn Hin]].
      apply (proj1 (findIndex_None _ _) Hidx) in Hin.
      rewrite Hn, String.eqb_refl in Hin. discriminate. }
    assert (Hgoal : forall cr t,
               registry_ok (activate_if_single repo
                 (set_repositories (repositories c ++ [new_record repo cr t]) c))).
    { intros cr t. apply activate_if_single_ok.
      - split; [|split]; simpl_config.
        + rewrite map_app. cbn [map name new_record].
          apply NoDup_app; [exact Hnd|constructor; [intros []|constructor]|].
          intros x Hx [<-|[]]. exact (Hfresh Hx).
        + intros r Hin Ha. apply in_app_or in Hin. destruct Hin as [Hin|[<-|[]]].
          * now apply Hflag.
          * cbn in Ha. congruence.
        + intros n Hn. rewrite map_app. apply in_or_app. left. now apply Hres.
      - simpl_config. intros r Hr.
        destruct (repositories c) as [|x l]; cbn in Hr.
        + injection Hr as <-. reflexivity.
        + destruct l; discriminate. }
    destruct (arg_createdAt repo =? ""); cbn; intros [= <- _]; apply Hgoal.
Qed.

Lemma perform_world_ok (c : call) (w : world) :
  unflagged c -> world_ok w -> world_ok (snd (perform env clock c w)).
Proof.
  intros Hc Hw. destruct c as [repo|repoName|repoName]; cbn [perform].
  - apply update_world_ok; [apply upsertRepository_updater_quiet| |exact Hw].
    intros c w0 c' w' Hok. now apply upsertRepository_updater_ok.
  - apply update_world_ok; [apply setActiveRepository_updater_quiet| |exact Hw].
    intros c w0 c' w'. apply setActiveRepository_updater_ok.
  - apply update_world_ok; [| |exact Hw].
    + intros c w0. cbn. auto.
    + intros c w0 c' w' Hok [= <- _]. now apply removeRepository_updater_ok.
Qed.

Lemma perform_all_world_ok (calls : list call) (w : world) :
  Forall unflagged calls -> world_ok w -> world_ok (perform_all env clock calls w).
Proof.
  revert w. induction calls as [|c calls IH]; intros w Hcalls Hw; [exact Hw|].
  inversion Hcalls; subst. cbn [perform_all].
  apply IH; [assumption|]. now apply perform_world_ok.
Qed.

(** C2, as the code has it: starting with no file or with a file whose
    registry is empty and has no pointer, after any sequence of
    [upsertRepository], [setActiveRepository] and [removeRepository]
    calls whose upserted records carry [isActive: false], at most one
    stored record has [isActive = true], a record that has it is the one
    that [activeRepository] names, and [activeRepository], when set,
    names a stored record. *)
Theorem at_most_one_active (calls : list call) (w : world) (c : ToyboxConfig) :
  lock w = Free ->
  (disk w = None
   \/ exists v c0, disk w = Some (Serialized v)
                   /\ ToyboxConfigSchema (Some v) = Some c0
                   /\ repositories c0 = []
                   /\ activeRepository c0 = None) ->
  Forall unflagged calls ->
  persisted (perform_all env clock calls w) = Some c ->
  length (filter (fun r => isActive r) (repositories c)) <= 1
  /\ (forall r, In r (repositories c) -> isActive r = true ->
                activeRepository c = Some (name r))
  /\ (forall n, activeRepository c = Some n ->
                exists r, In r (repositories c) /\ name r = n).
Proof.
  intros Hl Hstart Hcalls Hc.
  assert (Hw : world_ok w).
  { split; [exact Hl|].
    destruct Hstart as [Hd | [v [c0 [Hd [Hv [Hempty Hp]]]]]]; [now left|].
    right. exists v, c0. auto using registry_ok_empty. }
  destruct (perform_all_world_ok calls w Hcalls Hw) as [_ [Hd | [v [c1 [Hd [Hv Hok]]]]]].
  - unfold persisted in Hc. rewrite Hd in Hc. discriminate.
  - unfold persisted in Hc. rewrite Hd, Hv in Hc. injection Hc as <-.
    split; [now apply registry_ok_at_most_one|].
    destruct Hok as [_ [Hflag Hres]]. split; [exact Hflag|].
    intros n Hn. specialize (Hres n Hn). apply in_map_iff in Hres.
    destruct Hres as [r [Hname Hin]]. exists r. auto.
Qed.

(** *** Timestamps of the records *)

(** What the file holds after a method built on [update], from the run
    of its updater. *)
Lemma persisted_after_update (u : ToyboxConfig -> M ToyboxConfig) (w w1 : world)
      (v : json) (c c1 : ToyboxConfig) :
  disk w = Some (Serialized v) ->
  lock w = Free ->
  ToyboxConfigSchema (Some v) = Some c ->
  u (migrate_config c) (mkWorld (disk w) Held (ticks w)) = (Returns c1, w1) ->
  persisted (snd ((update env clock u ;; ret tt) w))
  = Some (stored (set_lastUpdated (clock (ticks w1)) c1)).
Proof.
  intros Hd Hl Hv Hu. unfold bind at 1.
  rewrite (update_valid_returns env clock u w w1 v c c1 Hd Hl Hv Hu).
  cbn [snd ret]. apply persisted_written.
Qed.

Lemma persisted_after_failed_update (u : ToyboxConfig -> M ToyboxConfig) (w w1 : world)
      (v : json) (c : ToyboxConfig) (e : error) :
  disk w = Some (Serialized v) ->
  lock w = Free ->
  ToyboxConfigSchema (Some v) = Some c ->
  u (migrate_config c) (mkWorld (disk w) Held (ticks w)) = (Throws e, w1) ->
  has_code_ENOENT e = false ->
  disk w1 = disk w ->
  persisted (snd ((update env clock u ;; ret tt) w)) = Some c.
Proof.
  intros Hd Hl Hv Hu He Hd1. unfold bind at 1.
  rewrite (update_valid_throws env clock u w w1 v c e Hd Hl Hv Hu He).
  cbn [snd]. unfold persisted, release. cbn [disk]. rewrite Hd1, Hd. exact Hv.
Qed.

Lemma activate_if_single_at (repo : RepoArgument) (c : ToyboxConfig) (i : nat)
      (r : ToyboxRepoConfig) :
  nth_error (repositories c) i = Some r ->
  exists r', nth_error (repositories (activate_if_single repo c)) i = Some r'
             /\ same_times r r'.
Proof.
  intros Hn. unfold activate_if_single.
  destruct (Nat.eqb (length (repositories c)) 1); simpl_config;
    [|exists r; split; [exact Hn|split; reflexivity]].
  destruct (repositories c) as [|first rest] eqn:Hr;
    [destruct i; discriminate|].
  cbn [nth_error]. simpl_config. cbn [assign_at].
  destruct i as [|i]; cbn [nth_error] in *.
  - injection Hn as ->. eexists. split; [reflexivity|split; reflexivity].
  - exists r. split; [exact Hn|split; reflexivity].
Qed.

(** The record at a position after the updater of [upsertRepository]:
    at the position of the record of that name, it carries the caller's
    [createdAt] and the clock reading; elsewhere its timestamps are
    kept. *)
Lemma upsert_updater_at (repo : RepoArgument) (config : ToyboxConfig) (w0 : world)
      (i : nat) (r : ToyboxRepoConfig) :
  nth_error (repositories config) i = Some r ->
  exists c1 w1 r1,
    upsertRepository_updater clock repo config w0 = (Returns c1, w1)
    /\ nth_error (repositories c1) i = Some r1
    /\ (findIndex (fun x => name x =? arg_name repo) (repositories config) = Some i ->
        createdAt r1 = arg_createdAt repo /\ lastUsedAt r1 = clock (ticks w0))
    /\ (findIndex (fun x => name x =? arg_name repo) (repositories config) <> Some i ->
        same_times r r1).
Proof.
  intros Hn. unfold upsertRepository_updater, createdAt_or_now.
  destruct (findIndex _ _) as [j|] eqn:Hidx.
  - destruct (findIndex_Some _ _ _ Hidx) as [existing [Hnth _]]. rewrite Hnth. cbn.
    pose proof (nth_error_assign_at i j
                  (merge_existing existing repo (clock (ticks w0))) r _ Hn) as Hat.
    destruct (activate_if_single_at repo
                (set_repositories
                   (assign_at j (merge_existing existing repo (clock (ticks w0)))
                              (repositories config)) config)
                i _ Hat) as [r1 [Hr1 [Hc Hu]]].
    eexists. eexists. exists r1. split; [reflexivity|]. split; [exact Hr1|].
    destruct (Nat.eqb i j) eqn:Hij.
    + cbn in Hc, Hu. split; [auto|].
      apply Nat.eqb_eq in Hij. subst j. congruence.
    + split; [|intros _; split; assumption].
      intros [= ->]. rewrite Nat.eqb_refl in Hij. discriminate.
  - assert (Hgoal : forall cr t,
               exists r1,
                 nth_error (repositories (activate_if_single repo
                   (set_repositories (repositories config ++ [new_record repo cr t])
                                     config))) i = Some r1
                 /\ same_times r r1).
    { intros cr t. apply activate_if_single_at. simpl_config.
      rewrite nth_error_app1; [exact Hn|]. apply nth_error_Some. congruence. }
    destruct (arg_createdAt repo =? ""); cbn;
      match goal with
      | |- context [new_record repo ?cr ?t] => destruct (Hgoal cr t) as [r1 [Hr1 Hs]]
      end;
      eexists; eexists; exists r1; (split; [reflexivity|]); (split; [exact Hr1|]);
      (split; [discriminate|auto]).
Qed.

(** The record that [Object.assign] and the assignment of [lastUsedAt]
    leave, member by member. *)
Lemma as_record_assigned (t : string) (r r1 : ToyboxRepoConfig) (updates : RepoUpdates) :
  as_record (set_obj_lastUsedAt t (Object_assign r updates)) = Some r1 ->
  spread (Some (name r)) (upd_name updates) = Some (name r1)
  /\ spread (Some (localPath r)) (upd_localPath updates) = Some (localPath r1)
  /\ remoteUrl r1 = spread (remoteUrl r) (upd_remoteUrl updates)
  /\ publishedUrl r1 = spread (publishedUrl r) (upd_publishedUrl updates)
  /\ spread (Some (createdAt r)) (upd_createdAt updates) = Some (createdAt r1)
  /\ lastUsedAt r1 = t
  /\ isActive r1 = match spread (Some (isActive r)) (upd_isActive updates) with
                   | Some b => b
                   | None => false
                   end
  /\ metadata r1 = spread (metadata r) (upd_metadata updates).
Proof.
  unfold as_record, set_obj_lastUsedAt, Object_assign.
  cbn [obj_name obj_localPath obj_remoteUrl obj_publishedUrl obj_createdAt obj_lastUsedAt
       obj_isActive obj_metadata].
  destruct (spread (Some (name r)) (upd_name updates)) as [n|]; [|discriminate].
  destruct (spread (Some (localPath r)) (upd_localPath updates)) as [p|]; [|discriminate].
  destruct (spread (Some (createdAt r)) (upd_createdAt updates)) as [ca|]; [|discriminate].
  intros [= <-]. cbn. repeat split.
Qed.

(** It is refused exactly when [name], [localPath] or [createdAt] was
    given as [undefined]. *)
Lemma as_record_refused (t : string) (r : ToyboxRepoConfig) (updates : RepoUpdates) :
  as_record (set_obj_lastUsedAt t (Object_assign r updates)) = None
  <-> upd_name updates = Undefined
      \/ upd_localPath updates = Undefined
      \/ upd_createdAt updates = Undefined.
Proof.
  unfold as_record, set_obj_lastUsedAt, Object_assign.
  cbn [obj_name obj_localPath obj_remoteUrl obj_publishedUrl obj_createdAt obj_lastUsedAt
       obj_isActive obj_metadata].
  destruct (upd_name updates), (upd_localPath updates), (upd_createdAt updates);
    cbn [spread]; split; intros H; try discriminate; try reflexivity; auto;
    destruct H as [H|[H|H]]; discriminate.
Qed.

(** The schema reads the object as [as_record] does. *)
Lemma repo_schema_json_of_object (o : RepoObject) :
  ToyboxRepoConfigSchema (Some (json_of_object o)) = option_map validated_repo (as_record o).
Proof.
  destruct o as [[n|] [p|] [ru|] [pu|] [ca|] [lu|] [ia|] [m|]]; reflexivity.
Qed.

Lemma write_refused_run (w : world) :
  write_refused clock w = (Throws ZodError, mkWorld (disk w) (lock w) (S (ticks w))).
Proof. reflexivity. Qed.

(** The updater of [updateRepository], at a position of the registry. *)
Lemma updateRepository_updater_at (repoName : string) (updates : RepoUpdates)
      (config : ToyboxConfig) (w0 : world) (i : nat) (r : ToyboxRepoConfig) :
  nth_error (repositories config) i = Some r ->
  (exists c1 r1,
      updateRepository_updater clock repoName updates config w0
      = (Returns c1,
         match find (fun x => name x =? repoName) (repositories config) with
         | Some _ => mkWorld (disk w0) (lock w0) (S (ticks w0))
         | None => w0
         end)
      /\ activeRepository c1 = activeRepository config
      /\ length (repositories c1) = length (repositories config)
      /\ nth_error (repositories c1) i = Some r1
      /\ (findIndex (fun x => name x =? repoName) (repositories config) = Some i ->
          as_record (set_obj_lastUsedAt (clock (ticks w0)) (Object_assign r updates))
          = Some r1)
      /\ (findIndex (fun x => name x =? repoName) (repositories config) <> Some i ->
          r1 = r))
  \/ (updateRepository_updater clock repoName updates config w0
      = (Throws ZodError, mkWorld (disk w0) (lock w0) (S (S (ticks w0))))
      /\ (upd_name updates = Undefined
          \/ upd_localPath updates = Undefined
          \/ upd_createdAt updates = Undefined)
      /\ exists repo, find (fun x => name x =? repoName) (repositories config) = Some repo).
Proof.
  intros Hn. unfold updateRepository_updater.
  destruct (find _ _) as [repo|] eqn:Hf.
  - unfold bind, now. cbn [ticks disk lock].
    destruct (as_record _) as [assigned|] eqn:Has.
    + left.
      destruct (findIndex (fun x => name x =? repoName) (repositories config)) as [j|]
        eqn:Hidx; [|apply findIndex_of_find in Hidx; congruence].
      destruct (Nat.eq_dec j i) as [->|Hne].
      * exists (set_repositories
                  (mutate_found (fun x => name x =? repoName) (fun _ => assigned)
                                (repositories config)) config), assigned.
        split; [reflexivity|].
        cbn [repositories activeRepository set_repositories].
        split; [reflexivity|]. split; [apply length_mutate_found|].
        split; [rewrite (nth_error_mutate_found_at _ _ _ i Hidx), Hn; reflexivity|].
        split; [|congruence]. intros _.
        rewrite (find_at_findIndex _ _ _ Hidx), Hn in Hf. injection Hf as <-. exact Has.
      * exists (set_repositories
                  (mutate_found (fun x => name x =? repoName) (fun _ => assigned)
                                (repositories config)) config), r.
        split; [reflexivity|].
        cbn [repositories activeRepository set_repositories].
        split; [reflexivity|]. split; [apply length_mutate_found|].
        split; [rewrite nth_error_mutate_found_other; [exact Hn|congruence]|].
        split; [congruence|reflexivity].
    + right. split; [reflexivity|]. split; [|eauto].
      now apply (as_record_refused (clock (ticks w0)) repo).
  - left. exists config, r. split; [reflexivity|].
    split; [reflexivity|]. split; [reflexivity|]. split; [exact Hn|].
    apply findIndex_of_find in Hf. rewrite Hf. split; [discriminate|reflexivity].
Qed.

(** The updater of [touchRepository], at a position of the registry. *)
Lemma touchRepository_updater_at (repoName : string)
      (config : ToyboxConfig) (w0 : world) (i : nat) (r : ToyboxRepoConfig) :
  nth_error (repositories config) i = Some r ->
  exists c1 r1,
    touchRepository_updater clock repoName config w0
    = (Returns c1,
       match find (fun x => name x =? repoName) (repositories config) with
       | Some _ => mkWorld (disk w0) (lock w0) (S (ticks w0))
       | None => w0
       end)
    /\ activeRepository c1 = activeRepository config
    /\ length (repositories c1) = length (repositories config)
    /\ nth_error (repositories c1) i = Some r1
    /\ (findIndex (fun x => name x =? repoName) (repositories config) = Some i ->
        r1 = set_lastUsedAt (clock (ticks w0)) r)
    /\ (findIndex (fun x => name x =? repoName) (repositories config) <> Some i ->
        r1 = r).
Proof.
  intros Hn. unfold touchRepository_updater.
  destruct (find _ _) as [repo|] eqn:Hf.
  - unfold bind, now. cbn [ticks disk lock].
    destruct (findIndex (fun x => name x =? repoName) (repositories config)) as [j|]
      eqn:Hidx; [|apply findIndex_of_find in Hidx; congruence].
    destruct (Nat.eq_dec j i) as [->|Hne].
    + eexists. exists (set_lastUsedAt (clock (ticks w0)) r). split; [reflexivity|].
      cbn [repositories activeRepository set_repositories].
      split; [reflexivity|]. split; [apply length_mutate_found|].
      split; [rewrite (nth_error_mutate_found_at _ _ _ i Hidx), Hn; reflexivity|].
      split; [reflexivity|congruence].
    + eexists. exists r. split; [reflexivity|].
      cbn [repositories activeRepository set_repositories].
      split; [reflexivity|]. split; [apply length_mutate_found|].
      split; [rewrite nth_error_mutate_found_other; [exact Hn|congruence]|].
      split; [congruence|reflexivity].
  - exists config, r. split; [reflexivity|].
    split; [reflexivity|]. split; [reflexivity|]. split; [exact Hn|].
    apply findIndex_of_find in Hf. rewrite Hf. split; [discriminate|reflexivity].
Qed.

Lemma updateRepository_updater_quiet (repoName : string) (updates : RepoUpdates) :
  quiet (updateRepository_updater clock repoName updates).
Proof.
  intros c w. unfold updateRepository_updater.
  destruct (find _ _); [|cbn; auto].
  unfold bind, now. destruct (as_record _); cbn; auto.
Qed.

Lemma touchRepository_updater_quiet (repoName : string) :
  quiet (touchRepository_updater clock repoName).
Proof.
  intros c w. unfold touchRepository_updater.
  destruct (find _ _); cbn; auto.
Qed.

(** C8, as the code has it.  For a record stored at some position
    before a call and the record at that position after it:
    [setActiveRepository] keeps [lastUsedAt] and [createdAt];
    [touchRepository] keeps [createdAt], and keeps [lastUsedAt] or sets
    it to the clock reading; [upsertRepository] and [updateRepository]
    keep [lastUsedAt] or set it to the clock reading, and keep
    [createdAt] or store the one the caller passes.  So [lastUsedAt]
    does not go back when the clock is not behind it, and [createdAt]
    does not go back when the caller's value is not earlier; the record
    that [upsertRepository] updates carries the caller's [createdAt],
    earlier or not. *)
Theorem timestamps_after_registry_calls (w : world) (v : json) (c : ToyboxConfig)
        (i : nat) (r : ToyboxRepoConfig) :
  disk w = Some (Serialized v) ->
  lock w = Free ->
  ToyboxConfigSchema (Some v) = Some c ->
  nth_error (repositories c) i = Some r ->
  (forall repo c' r',
      persisted (snd (upsertRepository env clock repo w)) = Some c' ->
      nth_error (repositories c') i = Some r' ->
      (lastUsedAt r' = lastUsedAt r \/ lastUsedAt r' = clock (ticks w))
      /\ (createdAt r' = createdAt r \/ createdAt r' = arg_createdAt repo)
      /\ (findIndex (fun x => name x =? arg_name repo) (repositories c) = Some i ->
          createdAt r' = arg_createdAt repo /\ lastUsedAt r' = clock (ticks w))
      /\ (findIndex (fun x => name x =? arg_name repo) (repositories c) <> Some i ->
          createdAt r' = createdAt r /\ lastUsedAt r' = lastUsedAt r)
      /\ (ts_le (lastUsedAt r) (clock (ticks w)) -> ts_le (lastUsedAt r) (lastUsedAt r'))
      /\ (ts_le (createdAt r) (arg_createdAt repo) -> ts_le (createdAt r) (createdAt r')))
  /\ (forall repoName updates c' r',
        persisted (snd (updateRepository env clock repoName updates w)) = Some c' ->
        nth_error (repositories c') i = Some r' ->
        (lastUsedAt r' = lastUsedAt r \/ lastUsedAt r' = clock (ticks w))
        /\ (createdAt r' = createdAt r \/ upd_createdAt updates = Value (createdAt r'))
        /\ (ts_le (lastUsedAt r) (clock (ticks w)) -> ts_le (lastUsedAt r) (lastUsedAt r'))
        /\ ((forall t, upd_createdAt updates = Value t -> ts_le (createdAt r) t) ->
            ts_le (createdAt r) (createdAt r')))
  /\ (forall repoName c' r',
        persisted (snd (touchRepository env clock repoName w)) = Some c' ->
        nth_error (repositories c') i = Some r' ->
        (lastUsedAt r' = lastUsedAt r \/ lastUsedAt r' = clock (ticks w))
        /\ createdAt r' = createdAt r
        /\ (ts_le (lastUsedAt r) (clock (ticks w)) -> ts_le (lastUsedAt r) (lastUsedAt r')))
  /\ (forall repoName c' r',
        persisted (snd (setActiveRepository env clock repoName w)) = Some c' ->
        nth_error (repositories c') i = Some r' ->
        lastUsedAt r' = lastUsedAt r /\ createdAt r' = createdAt r).
Proof.
  intros Hd Hl Hv Hn.
  assert (Hn' : nth_error (repositories (migrate_config c)) i = Some r)
    by now rewrite migrate_config_repositories.
  split; [|split; [|split]].
  - intros repo c' r' Hc' Hr'.
    destruct (upsert_updater_at repo (migrate_config c)
                (mkWorld (disk w) Held (ticks w)) i r Hn')
      as [c1 [w1 [r1 [Hu [Hr1 [Hhit Hmiss]]]]]].
    unfold upsertRepository in Hc'.
    rewrite (persisted_after_update _ w w1 v c c1 Hd Hl Hv Hu) in Hc'.
    injection Hc' as <-. rewrite nth_error_stored in Hr'.
    cbn [repositories set_lastUpdated] in Hr'.
    rewrite Hr1 in Hr'. injection Hr' as <-.
    cbn [ticks createdAt lastUsedAt stored_repo] in *.
    rewrite migrate_config_repositories in Hhit, Hmiss.
    destruct (is_position (findIndex (fun x => name x =? arg_name repo) (repositories c)) i)
      as [Hidx|Hidx].
    + destruct (Hhit Hidx) as [Hc Hu']. rewrite Hc, Hu'.
      split; [now right|]. split; [now right|]. split; [auto|].
      split; [intros Hne; contradiction|]. auto.
    + destruct (Hmiss Hidx) as [Hc Hu']. rewrite Hc, Hu'.
      split; [now left|]. split; [now left|]. split; [intros Heq; contradiction|].
      split; [auto|]. split; intros _; apply ts_le_refl.
  - intros repoName updates c' r' Hc' Hr'.
    unfold updateRepository in Hc'.
    destruct (updateRepository_updater_at repoName updates (migrate_config c)
                (mkWorld (disk w) Held (ticks w)) i r Hn')
      as [[c1 [r1 [Hu [_ [_ [Hr1 [Hhit Hmiss]]]]]]] | [Hu _]].
    + rewrite (persisted_after_update _ w _ v c c1 Hd Hl Hv Hu) in Hc'.
      injection Hc' as <-. rewrite nth_error_stored in Hr'.
      cbn [repositories set_lastUpdated] in Hr'.
      rewrite Hr1 in Hr'. injection Hr' as <-.
      cbn [ticks createdAt lastUsedAt stored_repo] in *.
      rewrite migrate_config_repositories in Hhit, Hmiss.
      destruct (is_position (findIndex (fun x => name x =? repoName) (repositories c)) i)
      as [Hidx|Hidx].
      * destruct (as_record_assigned _ _ _ _ (Hhit Hidx))
          as [_ [_ [_ [_ [Hc [Hu' _]]]]]].
        rewrite Hu'. split; [now right|].
        destruct (upd_createdAt updates) as [| |t]; cbn [spread] in Hc;
          [| discriminate |]; injection Hc as Hc; rewrite <- Hc.
        -- split; [now left|]. split; [auto|]. intros _. apply ts_le_refl.
        -- split; [now right|]. split; [auto|]. intros H. now apply H.
      * rewrite (Hmiss Hidx).
        split; [now left|]. split; [now left|]. split; intros _; apply ts_le_refl.
    + rewrite (persisted_after_failed_update _ w _ v c ZodError Hd Hl Hv Hu eq_refl eq_refl)
        in Hc'.
      injection Hc' as <-. rewrite Hn in Hr'. injection Hr' as <-.
      split; [now left|]. split; [now left|]. split; intros _; apply ts_le_refl.
  - intros repoName c' r' Hc' Hr'.
    destruct (touchRepository_updater_at repoName (migrate_config c)
                (mkWorld (disk w) Held (ticks w)) i r Hn')
      as [c1 [r1 [Hu [_ [_ [Hr1 [Hhit Hmiss]]]]]]].
    unfold touchRepository in Hc'.
    rewrite (persisted_after_update _ w _ v c c1 Hd Hl Hv Hu) in Hc'.
    injection Hc' as <-. rewrite nth_error_stored in Hr'.
    cbn [repositories set_lastUpdated] in Hr'.
    rewrite Hr1 in Hr'. injection Hr' as <-.
    cbn [ticks createdAt lastUsedAt stored_repo] in *.
    rewrite migrate_config_repositories in Hhit, Hmiss.
    destruct (is_position (findIndex (fun x => name x =? repoName) (repositories c)) i)
      as [Hidx|Hidx].
    + rewrite (Hhit Hidx). cbn [createdAt lastUsedAt set_lastUsedAt].
      split; [now right|]. split; [reflexivity|]. auto.
    + rewrite (Hmiss Hidx).
      split; [now left|]. split; [reflexivity|]. intros _. apply ts_le_refl.
  - intros repoName c' r' Hc' Hr'.
    unfold setActiveRepository in Hc'.
    destruct (setActiveRepository_updater repoName (migrate_config c)
                (mkWorld (disk w) Held (ticks w))) as [[c1|e] w1] eqn:Hu.
    + rewrite (persisted_after_update _ w w1 v c c1 Hd Hl Hv Hu) in Hc'.
      injection Hc' as <-. rewrite nth_error_stored in Hr'.
      cbn [repositories set_lastUpdated] in Hr'.
      unfold setActiveRepository_updater in Hu.
      destruct (find _ _); [|discriminate]. injection Hu as <- _.
      cbn [repositories set_repositories set_activeRepository] in Hr'.
      rewrite (map_nth_error _ _ _ Hn') in Hr'. injection Hr' as <-.
      split; reflexivity.
    + pose proof (setActiveRepository_updater_quiet repoName (migrate_config c)
                    (mkWorld (disk w) Held (ticks w))) as Hq.
      rewrite Hu in Hq. destruct Hq as [Hd1 [_ He]]. cbn [disk] in Hd1.
      rewrite (persisted_after_failed_update _ w w1 v c e Hd Hl Hv Hu He Hd1) in Hc'.
      injection Hc' as <-. rewrite Hn in Hr'. injection Hr' as <-.
      split; reflexivity.
Qed.

End Registry.

(** ** More of the store *)

Section MoreOfTheStore.

Variable env : process_env.
Variable clock : nat -> string.

Lemma migrate_config_default (t t' : string) :
  migrate_config (set_lastUpdated t' (default_config env t))
  = set_lastUpdated t' (default_config env t).
Proof. reflexivity. Qed.

Lemma stored_default (t t' : string) :
  stored (set_lastUpdated t' (default_config env t))
  = set_lastUpdated t' (default_config env t).
Proof. reflexivity. Qed.

(** A configuration whose records have a [metadata] that is written as
    it is, is stored as it is. *)
Lemma stored_plain (c : ToyboxConfig) :
  Forall (fun r => plain_metadata (metadata r) = true) (repositories c) ->
  stored c = c.
Proof.
  intros H. unfold stored. rewrite (map_stored_repo_plain _ H).
  destruct c; reflexivity.
Qed.

(** [update] on a file whose document fails validation, from the run of
    the updater on the default configuration that [read] put in its
    place. *)
Lemma update_invalid_returns (u : ToyboxConfig -> M ToyboxConfig) (w w3 : world)
      (v : json) (c' : ToyboxConfig) :
  disk w = Some (Serialized v) ->
  lock w = Free ->
  ToyboxConfigSchema (Some v) = None ->
  u (set_lastUpdated (clock (S (ticks w))) (default_config env (clock (ticks w))))
    (mkWorld (Some (file_of (set_lastUpdated (clock (S (ticks w)))
                                             (default_config env (clock (ticks w))))))
             Held (S (S (ticks w))))
  = (Returns c', w3) ->
  update env clock u w =
    (Returns (set_lastUpdated (clock (ticks w3)) c'),
     mkWorld (Some (file_of (set_lastUpdated (clock (ticks w3)) c')))
             Free (S (ticks w3))).
Proof.
  intros Hd Hl Hv Hu.
  unfold update, lockfile_lock. rewrite Hd, Hl. rewrite <- Hd.
  unfold update_after_lock, finally, try_catch, bind at 1.
  rewrite (read_invalid env clock _ v) by (cbn [disk]; assumption).
  cbn [ticks lock]. unfold bind at 1. rewrite Hu. unfold bind at 1.
  rewrite write_run. reflexivity.
Qed.

Lemma update_invalid_throws (u : ToyboxConfig -> M ToyboxConfig) (w w3 : world)
      (v : json) (e : error) :
  disk w = Some (Serialized v) ->
  lock w = Free ->
  ToyboxConfigSchema (Some v) = None ->
  u (set_lastUpdated (clock (S (ticks w))) (default_config env (clock (ticks w))))
    (mkWorld (Some (file_of (set_lastUpdated (clock (S (ticks w)))
                                             (default_config env (clock (ticks w))))))
             Held (S (S (ticks w))))
  = (Throws e, w3) ->
  has_code_ENOENT e = false ->
  update env clock u w = (Throws (Failed Update e), release w3).
Proof.
  intros Hd Hl Hv Hu He.
  unfold update, lockfile_lock. rewrite Hd, Hl. rewrite <- Hd.
  unfold update_after_lock, finally, try_catch, bind at 1.
  rewrite (read_invalid env clock _ v) by (cbn [disk]; assumption).
  cbn [ticks lock]. unfold bind at 1. rewrite Hu.
  unfold update_catch. rewrite He. reflexivity.
Qed.

Lemma update_malformed (u : ToyboxConfig -> M ToyboxConfig) (w : world) (raw : string) :
  disk w = Some (Malformed raw) ->
  lock w = Free ->
  update env clock u w = (Throws (Failed Update (Failed Read SyntaxError)), w).
Proof.
  intros Hd Hl. destruct w as [d l t]. cbn in Hd, Hl. subst d l.
  unfold update, lockfile_lock. cbn [disk lock ticks].
  unfold update_after_lock, finally, try_catch, bind at 1.
  rewrite (read_malformed env clock _ raw) by reflexivity.
  reflexivity.
Qed.

(** X1: the first [read] on a path without a file creates the file
    with an empty default configuration and returns it; [exists] is
    false before and true after; a second [read] returns the same
    configuration and changes nothing. *)
Theorem read_bootstraps_once (w : world) :
  disk w = None ->
  exists d w1,
    exists_ w = (Returns false, w)
    /\ read env clock w = (Returns d, w1)
    /\ exists_ w1 = (Returns true, w1)
    /\ persisted w1 = Some d
    /\ repositories d = []
    /\ activeRepository d = None
    /\ preferences d = mkPreferences "toybox" true "feat: Add new artifact via TOYBOX"
    /\ read env clock w1 = (Returns d, w1).
Proof.
  intros Hd. eexists. eexists.
  split; [unfold exists_, pathExists; rewrite Hd; reflexivity|].
  split; [apply (read_absent env clock w Hd)|].
  split; [reflexivity|].
  split; [rewrite persisted_written; apply f_equal, stored_default|].
  split; [reflexivity|]. split; [reflexivity|]. split; [reflexivity|].
  rewrite read_written, stored_default, migrate_config_default. reflexivity.
Qed.

(** X2: whenever [read] returns, what it returns has the current
    version, the lock is as it was, and the file then holds a
    configuration that migrates to the returned one. *)
Theorem read_result_is_current_and_stored (w w' : world) (c : ToyboxConfig) :
  read env clock w = (Returns c, w') ->
  version c = CONFIG_VERSION
  /\ lock w' = lock w
  /\ exists c0, persisted w' = Some c0 /\ migrate_config c0 = c.
Proof.
  intros Hread.
  destruct (disk w) as [[raw|v]|] eqn:Hd.
  - rewrite (read_malformed env clock w raw Hd) in Hread. discriminate.
  - destruct (ToyboxConfigSchema (Some v)) as [c0|] eqn:Hv.
    + rewrite (read_valid env clock w v c0 Hd Hv) in Hread.
      injection Hread as <- <-.
      split; [apply migrate_config_version|]. split; [reflexivity|].
      exists c0. split; [unfold persisted; rewrite Hd; exact Hv|reflexivity].
    + rewrite (read_invalid env clock w v Hd Hv) in Hread.
      injection Hread as <- <-.
      split; [reflexivity|]. split; [reflexivity|].
      eexists. split; [apply persisted_written|reflexivity].
  - rewrite (read_absent env clock w Hd) in Hread.
    injection Hread as <- <-.
    split; [reflexivity|]. split; [reflexivity|].
    eexists. split; [apply persisted_written|reflexivity].
Qed.

(** X3: [write] accepts every configuration: it returns, replaces
    whatever the file held (nothing, garbage, another document) by the
    configuration with [lastUpdated] set from the clock (the caller's
    [lastUpdated] is not kept), and leaves the lock alone.  What the
    file then holds is the configuration as it is stored; that is the
    configuration itself when the [metadata] of its records is written
    as it is. *)
Theorem write_stamps_and_replaces (c : ToyboxConfig) (w : world) :
  exists w',
    write clock c w = (Returns (set_lastUpdated (clock (ticks w)) c), w')
    /\ persisted w' = Some (stored (set_lastUpdated (clock (ticks w)) c))
    /\ (Forall (fun r => plain_metadata (metadata r) = true) (repositories c) ->
        persisted w' = Some (set_lastUpdated (clock (ticks w)) c))
    /\ option_map lastUpdated (persisted w') = Some (clock (ticks w))
    /\ holds_json w'
    /\ lock w' = lock w.
Proof.
  eexists. split; [apply write_run|].
  split; [apply persisted_written|].
  split; [intros H; rewrite persisted_written; f_equal; now apply stored_plain|].
  split; [rewrite persisted_written; reflexivity|].
  split; [eexists; reflexivity|reflexivity].
Qed.

(** X4: [update] on a file whose lock marker is there.  When the
    marker is kept fresh by its holder for as long as [lockfile.lock]
    retries, [update] neither runs the updater nor touches anything:
    it throws [Failed to update configuration: ...] and the world, the
    marker included, is as before.  When the marker was left behind and
    goes stale, it is taken over: [update] does what it does with no
    marker, and the marker is gone afterwards. *)
Theorem update_when_the_marker_is_there (u : ToyboxConfig -> M ToyboxConfig)
        (text : file_text) (t : nat) :
  update env clock u (mkWorld (Some text) Held t)
  = (Throws (Failed Update ELOCKED), mkWorld (Some text) Held t)
  /\ update env clock u (mkWorld (Some text) Abandoned t)
     = update env clock u (mkWorld (Some text) Free t)
  /\ (quiet u -> lock (snd (update env clock u (mkWorld (Some text) Abandoned t))) = Free)
  /\ (forall v c c' w',
        text = Serialized v ->
        ToyboxConfigSchema (Some v) = Some c ->
        u (migrate_config c) (mkWorld (Some text) Held t) = (Returns c', w') ->
        exists w'',
          update env clock u (mkWorld (Some text) Abandoned t)
          = (Returns (set_lastUpdated (clock (ticks w')) c'), w'')
          /\ persisted w'' = Some (stored (set_lastUpdated (clock (ticks w')) c'))
          /\ lock w'' = Free).
Proof.
  split; [reflexivity|]. split; [reflexivity|]. split.
  - intros Hq.
    change (update env clock u (mkWorld (Some text) Abandoned t))
      with (update env clock u (mkWorld (Some text) Free t)).
    destruct text as [raw|v].
    + rewrite (update_malformed u (mkWorld (Some (Malformed raw)) Free t) raw
                 eq_refl eq_refl). reflexivity.
    + destruct (ToyboxConfigSchema (Some v)) as [c0|] eqn:Hv.
      * specialize (Hq (migrate_config c0) (mkWorld (Some (Serialized v)) Held t)).
        destruct (u _ _) as [[c'|e] w1] eqn:Hrun.
        -- rewrite (update_valid_returns env clock u (mkWorld (Some (Serialized v)) Free t)
                      w1 v c0 c' eq_refl eq_refl Hv Hrun).
           reflexivity.
        -- destruct Hq as [_ [_ He]].
           rewrite (update_valid_throws env clock u (mkWorld (Some (Serialized v)) Free t)
                      w1 v c0 e eq_refl eq_refl Hv Hrun He).
           reflexivity.
      * pose proof (update_invalid_returns u (mkWorld (Some (Serialized v)) Free t)) as Hret.
        pose proof (update_invalid_throws u (mkWorld (Some (Serialized v)) Free t)) as Hthr.
        match type of Hret with
        | forall w3 v0 c', _ -> _ -> _ -> u ?d ?w2 = _ -> _ =>
            specialize (Hq d w2); destruct (u d w2) as [[c'|e] w3] eqn:Hrun
        end.
        -- rewrite (Hret w3 v c' eq_refl eq_refl Hv eq_refl). reflexivity.
        -- destruct Hq as [_ [_ He]].
           rewrite (Hthr w3 v e eq_refl eq_refl Hv eq_refl He). reflexivity.
  - intros v c c' w' -> Hv Hrun.
    change (update env clock u (mkWorld (Some (Serialized v)) Abandoned t))
      with (update env clock u (mkWorld (Some (Serialized v)) Free t)).
    rewrite (update_valid_returns env clock u (mkWorld (Some (Serialized v)) Free t)
               w' v c c' eq_refl eq_refl Hv Hrun).
    eexists. split; [reflexivity|]. split; [apply persisted_written|reflexivity].
Qed.

(** X5: on a file that holds a text that is not JSON, every mutation
    fails: [update], and with it the five registry mutators, throws
    [Failed to update configuration: Failed to read configuration: ...],
    never runs the updater, leaves the text in place and releases the
    lock. *)
Theorem mutators_fail_on_malformed_file (w : world) (raw : string) :
  disk w = Some (Malformed raw) ->
  lock w = Free ->
  (forall u, update env clock u w = (Throws (Failed Update (Failed Read SyntaxError)), w))
  /\ (forall repo, upsertRepository env clock repo w
                   = (Throws (Failed Update (Failed Read SyntaxError)), w))
  /\ (forall n, setActiveRepository env clock n w
                = (Throws (Failed Update (Failed Read SyntaxError)), w))
  /\ (forall n, removeRepository env clock n w
                = (Throws (Failed Update (Failed Read SyntaxError)), w))
  /\ (forall n, touchRepository env clock n w
                = (Throws (Failed Update (Failed Read SyntaxError)), w))
  /\ (forall n updates, updateRepository env clock n updates w
                        = (Throws (Failed Update (Failed Read SyntaxError)), w)).
Proof.
  intros Hd Hl.
  assert (H : forall u, update env clock u w
                        = (Throws (Failed Update (Failed Read SyntaxError)), w))
    by (intros u; apply (update_malformed u w raw Hd Hl)).
  split; [exact H|].
  repeat split; intros;
    unfold upsertRepository, setActiveRepository, removeRepository,
           touchRepository, updateRepository, bind;
    rewrite H; reflexivity.
Qed.

(** X6: [update] gives the lock back on every path: started with the
    lock free, with an updater that leaves file and lock alone, it ends
    with the lock free, whatever the file holds and whether the updater
    returns or throws. *)
Theorem update_releases_lock (u : ToyboxConfig -> M ToyboxConfig) (w : world) :
  quiet u ->
  lock w = Free ->
  lock (snd (update env clock u w)) = Free.
Proof.
  intros Hq Hl.
  destruct (disk w) as [[raw|v]|] eqn:Hd.
  - rewrite (update_malformed u w raw Hd Hl). exact Hl.
  - destruct (ToyboxConfigSchema (Some v)) as [c0|] eqn:Hv.
    + specialize (Hq (migrate_config c0) (mkWorld (disk w) Held (ticks w))).
      destruct (u _ _) as [[c'|e] w1] eqn:Hrun.
      * rewrite (update_valid_returns env clock u w w1 v c0 c' Hd Hl Hv Hrun). reflexivity.
      * destruct Hq as [_ [_ He]].
        rewrite (update_valid_throws env clock u w w1 v c0 e Hd Hl Hv Hrun He). reflexivity.
    + match goal with
      | |- context [update env clock u w] =>
          pose proof (update_invalid_returns u w) as Hret;
          pose proof (update_invalid_throws u w) as Hthr
      end.
      match type of Hret with
      | forall w3 v0 c', _ -> _ -> _ -> u ?d ?w2 = _ -> _ =>
          specialize (Hq d w2); destruct (u d w2) as [[c'|e] w3] eqn:Hrun
      end.
      * rewrite (Hret w3 v c' Hd Hl Hv eq_refl). reflexivity.
      * destruct Hq as [_ [_ He]].
        rewrite (Hthr w3 v e Hd Hl Hv eq_refl He). reflexivity.
  - rewrite (update_absent env clock u w Hd). unfold bind.
    specialize (Hq (default_config env (clock (ticks w)))
                   (mkWorld (disk w) (lock w) (S (ticks w)))).
    destruct (u _ _) as [[c'|e] w1] eqn:Hrun.
    + rewrite write_run. cbn [snd lock]. destruct Hq as [_ Hl1]. cbn in Hl1. congruence.
    + cbn [snd]. destruct Hq as [_ [Hl1 _]]. cbn in Hl1. congruence.
Qed.

(** X7: when the updater throws, nothing is written: on a file that
    holds a configuration, with an updater that leaves file and lock
    alone, [update] throws the updater's error wrapped as [Failed to
    update configuration: ...], the file is as it was and the lock is
    free. *)
Theorem update_keeps_file_when_updater_throws (u : ToyboxConfig -> M ToyboxConfig)
        (w w1 : world) (v : json) (c : ToyboxConfig) (e : error) :
  disk w = Some (Serialized v) ->
  lock w = Free ->
  ToyboxConfigSchema (Some v) = Some c ->
  quiet u ->
  u (migrate_config c) (mkWorld (disk w) Held (ticks w)) = (Throws e, w1) ->
  fst (update env clock u w) = Throws (Failed Update e)
  /\ disk (snd (update env clock u w)) = disk w
  /\ lock (snd (update env clock u w)) = Free.
Proof.
  intros Hd Hl Hv Hq Hrun.
  specialize (Hq (migrate_config c) (mkWorld (disk w) Held (ticks w))).
  rewrite Hrun in Hq. destruct Hq as [Hd1 [_ He]]. cbn [disk] in Hd1.
  rewrite (update_valid_throws env clock u w w1 v c e Hd Hl Hv Hrun He).
  cbn [fst snd release disk lock]. auto.
Qed.

(** X8: [upsertRepository] on a file whose document parses but fails
    validation does not fail: the document is dropped, and the file
    then holds a registry with the upserted record alone, active. *)
Theorem upsertRepository_on_invalid_document (repo : RepoArgument) (w : world) (v : json) :
  disk w = Some (Serialized v) ->
  lock w = Free ->
  ToyboxConfigSchema (Some v) = None ->
  exists c' w' r,
    upsertRepository env clock repo w = (Returns tt, w')
    /\ persisted w' = Some c'
    /\ lock w' = Free
    /\ repositories c' = [r]
    /\ name r = arg_name repo
    /\ isActive r = true
    /\ activeRepository c' = Some (arg_name repo).
Proof.
  intros Hd Hl Hv.
  match goal with
  | |- _ => pose proof (update_invalid_returns (upsertRepository_updater clock repo) w) as Hret
  end.
  match type of Hret with
  | forall w3 v0 c', _ -> _ -> _ -> _ ?d ?w2 = _ -> _ =>
      destruct (upsert_updater_empty clock repo d w2 eq_refl)
        as [r [w3 [Hu [Hn [Ha _]]]]]
  end.
  eexists. eexists. exists (stored_repo r). split.
  { unfold upsertRepository. eapply method_returns.
    apply (Hret w3 v _ Hd Hl Hv Hu). }
  split; [apply persisted_written|].
  cbn. auto.
Qed.

End MoreOfTheStore.

(** ** More of the registry *)

Lemma mutate_found_absent {A : Type} (p : A -> bool) (f : A -> A) (l : list A) :
  (forall x, In x l -> p x = false) -> mutate_found p f l = l.
Proof.
  induction l as [|y l IH]; cbn [mutate_found]; [reflexivity|].
  intros H. rewrite (H y (or_introl eq_refl)). f_equal. apply IH.
  intros x Hx. apply H. now right.
Qed.

Lemma map_mutate_found {A B : Type} (g : A -> B) (p : A -> bool) (f : A -> A) (l : list A) :
  (forall x, g (f x) = g x) -> map g (mutate_found p f l) = map g l.
Proof.
  intros Hg. induction l as [|y l IH]; cbn [mutate_found map]; [reflexivity|].
  destruct (p y); cbn [map]; [now rewrite Hg|now rewrite IH].
Qed.

Lemma find_none_of_names (n : string) (l : list ToyboxRepoConfig) :
  (forall r, In r l -> name r <> n) -> find (fun r => name r =? n) l = None.
Proof.
  intros H. destruct (find _ l) as [r|] eqn:Hf; [|reflexivity].
  apply find_some in Hf. destruct Hf as [Hin Hn]. apply String.eqb_eq in Hn.
  exfalso. exact (H r Hin Hn).
Qed.

Lemma find_some_of_name (n : string) (l : list ToyboxRepoConfig) :
  In n (map name l) ->
  exists r, find (fun r => name r =? n) l = Some r /\ name r = n /\ In r l.
Proof.
  intros Hin. apply in_map_iff in Hin. destruct Hin as [x [Hx Hin]].
  destruct (find (fun r => name r =? n) l) as [r|] eqn:Hf.
  - exists r. apply find_some in Hf. destruct Hf as [Hr Hn].
    apply String.eqb_eq in Hn. auto.
  - apply (find_none _ _ Hf) in Hin. rewrite Hx, String.eqb_refl in Hin. discriminate.
Qed.

Lemma filter_keeps_all (n : string) (l : list ToyboxRepoConfig) :
  (forall r, In r l -> name r <> n) ->
  filter (fun r => negb (name r =? n)) l = l.
Proof.
  induction l as [|y l IH]; cbn [filter]; [reflexivity|].
  intros H. assert (Hy : (name y =? n) = false)
    by (apply String.eqb_neq, H; now left).
  rewrite Hy. cbn [negb]. f_equal. apply IH. intros r Hr. apply H. now right.
Qed.

(** After [forEach(r => r.isActive = r.name === n)], the first flagged
    record and the first record named [n] are the same one. *)
Lemma find_flag_after_set (n : string) (l : list ToyboxRepoConfig) :
  find (fun r => isActive r) (map (fun r => set_isActive (name r =? n) r) l)
  = option_map (set_isActive true) (find (fun r => name r =? n) l).
Proof.
  induction l as [|y l IH]; cbn [map find]; [reflexivity|].
  cbn [isActive set_isActive]. destruct (name y =? n); [reflexivity|exact IH].
Qed.

Lemma find_name_after_set (n : string) (l : list ToyboxRepoConfig) :
  find (fun r => strict_equal (Some n) (name r))
       (map (fun r => set_isActive (name r =? n) r) l)
  = option_map (set_isActive true) (find (fun r => name r =? n) l).
Proof.
  induction l as [|y l IH]; cbn [map find]; [reflexivity|].
  cbn [strict_equal name set_isActive]. rewrite (String.eqb_sym n (name y)).
  destruct (name y =? n); [reflexivity|exact IH].
Qed.

Lemma activate_if_single_names (repo : RepoArgument) (c : ToyboxConfig) :
  map name (repositories (activate_if_single repo c)) = map name (repositories c).
Proof.
  unfold activate_if_single.
  destruct (Nat.eqb (length (repositories c)) 1); [|reflexivity].
  cbn [repositories set_activeRepository].
  destruct (repositories c) as [|first rest] eqn:Hr; cbn [nth_error].
  - cbn [repositories set_activeRepository]. now rewrite Hr.
  - reflexivity.
Qed.

Section MoreOfTheRegistry.

Variable env : process_env.
Variable clock : nat -> string.

(** The names after the updater of [upsertRepository]. *)
Lemma upsert_updater_names (repo : RepoArgument) (config : ToyboxConfig) (w0 : world) :
  exists c1 w1,
    upsertRepository_updater clock repo config w0 = (Returns c1, w1)
    /\ map name (repositories c1)
       = match findIndex (fun r => name r =? arg_name repo) (repositories config) with
         | Some _ => map name (repositories config)
         | None => map name (repositories config) ++ [arg_name repo]
         end.
Proof.
  unfold upsertRepository_updater, createdAt_or_now.
  destruct (findIndex _ _) as [i|] eqn:Hidx.
  - destruct (findIndex_Some _ _ _ Hidx) as [existing [Hnth Hname]].
    apply String.eqb_eq in Hname. rewrite Hnth. cbn.
    eexists. eexists. split; [reflexivity|].
    rewrite activate_if_single_names. cbn [repositories set_repositories].
    apply (map_assign_at name i _ existing); [exact Hnth|]. cbn. congruence.
  - destruct (arg_createdAt repo =? ""); cbn;
      eexists; eexists; (split; [reflexivity|]);
      rewrite activate_if_single_names; cbn [repositories set_repositories];
      rewrite map_app; reflexivity.
Qed.

Lemma findIndex_of_names (n : string) (l : list ToyboxRepoConfig) :
  match findIndex (fun r => name r =? n) l with
  | Some _ => In n (map name l)
  | None => ~ In n (map name l)
  end.
Proof.
  destruct (findIndex _ l) as [i|] eqn:Hidx.
  - destruct (findIndex_Some _ _ _ Hidx) as [x [Hnth Hn]].
    apply String.eqb_eq in Hn. apply in_map_iff. exists x.
    split; [exact Hn|]. now apply nth_error_In in Hnth.
  - intros Hin. apply in_map_iff in Hin. destruct Hin as [x [Hn Hin]].
    apply (proj1 (findIndex_None _ _) Hidx) in Hin.
    rewrite Hn, String.eqb_refl in Hin. discriminate.
Qed.

(** [upsertRepository] on a file that holds a configuration: the world
    it leaves and the names it stores. *)
Lemma upsertRepository_run (repo : RepoArgument) (w : world) (v : json) (c : ToyboxConfig) :
  disk w = Some (Serialized v) ->
  lock w = Free ->
  ToyboxConfigSchema (Some v) = Some c ->
  exists c' t,
    upsertRepository env clock repo w
    = (Returns tt, mkWorld (Some (file_of c')) Free t)
    /\ (In (arg_name repo) (map name (repositories c)) ->
        map name (repositories c') = map name (repositories c))
    /\ (~ In (arg_name repo) (map name (repositories c)) ->
        map name (repositories c') = map name (repositories c) ++ [arg_name repo]).
Proof.
  intros Hd Hl Hv.
  destruct (upsert_updater_names repo (migrate_config c) (mkWorld (disk w) Held (ticks w)))
    as [c1 [w1 [Hu Hnames]]].
  rewrite migrate_config_repositories in Hnames.
  pose proof (findIndex_of_names (arg_name repo) (repositories c)) as Hidx.
  eexists. eexists. split.
  { unfold upsertRepository. eapply method_returns.
    apply (update_valid_returns env clock _ w w1 v c c1 Hd Hl Hv Hu). }
  cbn [repositories set_lastUpdated].
  destruct (findIndex _ (repositories c)); split; intros H; try exact Hnames; contradiction.
Qed.

Lemma upsertRepository_run_absent (repo : RepoArgument) (w : world) :
  disk w = None ->
  exists c' t,
    upsertRepository env clock repo w
    = (Returns tt, mkWorld (Some (file_of c')) (lock w) t)
    /\ map name (repositories c') = [arg_name repo].
Proof.
  intros Hd.
  destruct (upsert_updater_empty clock repo (default_config env (clock (ticks w)))
              (mkWorld (disk w) (lock w) (S (ticks w))) eq_refl)
    as [r [w1 [Hu [Hn [_ [_ Hl1]]]]]].
  cbn [lock] in Hl1.
  eexists. eexists. split.
  { unfold upsertRepository. eapply method_returns.
    rewrite (update_absent env clock _ w Hd). unfold bind at 1. rewrite Hu.
    rewrite write_run. rewrite Hl1. reflexivity. }
  cbn. now rewrite Hn.
Qed.

(** [setActiveRepository] on a file that holds a configuration with a
    record of that name. *)
Lemma setActiveRepository_run (n : string) (w : world) (v : json) (c : ToyboxConfig) :
  disk w = Some (Serialized v) ->
  lock w = Free ->
  ToyboxConfigSchema (Some v) = Some c ->
  In n (map name (repositories c)) ->
  setActiveRepository env clock n w
  = (Returns tt,
     mkWorld (Some (file_of
                (set_lastUpdated (clock (ticks w))
                   (set_activeRepository (Some n)
                      (set_repositories
                         (map (fun r => set_isActive (name r =? n) r) (repositories c))
                         (migrate_config c))))))
             Free (S (ticks w))).
Proof.
  intros Hd Hl Hv Hin.
  destruct (find_some_of_name n (repositories c) Hin) as [r [Hf _]].
  unfold setActiveRepository. eapply method_returns.
  apply (update_valid_returns env clock _ w (mkWorld (disk w) Held (ticks w)) v c _ Hd Hl Hv).
  unfold setActiveRepository_updater. rewrite migrate_config_repositories, Hf.
  reflexivity.
Qed.

Lemma resolve_active_after_set (n : string) (c0 : ToyboxConfig) (l : list ToyboxRepoConfig) :
  resolve_active
    (set_activeRepository (Some n)
       (set_repositories (map (fun r => set_isActive (name r =? n) r) l) c0))
  = option_map (set_isActive true) (find (fun r => name r =? n) l).
Proof.
  unfold resolve_active. cbn [activeRepository repositories set_activeRepository
                              set_repositories truthy].
  destruct (negb (negb (n =? ""))); [apply find_flag_after_set|apply find_name_after_set].
Qed.

Lemma getRepositories_written (c : ToyboxConfig) (lk : marker) (t : nat) :
  getRepositories env clock (mkWorld (Some (file_of c)) lk t)
  = (Returns (repositories (stored c)), mkWorld (Some (file_of c)) lk t).
Proof.
  unfold getRepositories, bind. rewrite read_written.
  now rewrite migrate_config_repositories.
Qed.

(** X9: [upsertRepository] never stores a second record of a name: on
    a file that holds a configuration it returns, and the stored names
    are the names that were there, in their order, followed by the
    upserted name when it was not among them. *)
Theorem upsertRepository_names (repo : RepoArgument) (w : world) (v : json)
        (c : ToyboxConfig) :
  disk w = Some (Serialized v) ->
  lock w = Free ->
  ToyboxConfigSchema (Some v) = Some c ->
  exists c' w',
    upsertRepository env clock repo w = (Returns tt, w')
    /\ persisted w' = Some c'
    /\ getRepositories env clock w' = (Returns (repositories c'), w')
    /\ (In (arg_name repo) (map name (repositories c)) ->
        map name (repositories c') = map name (repositories c))
    /\ (~ In (arg_name repo) (map name (repositories c)) ->
        map name (repositories c') = map name (repositories c) ++ [arg_name repo]).
Proof.
  intros Hd Hl Hv.
  destruct (upsertRepository_run repo w v c Hd Hl Hv) as [c' [t [Hrun [Hold Hnew]]]].
  exists (stored c'). eexists. split; [exact Hrun|].
  split; [apply persisted_written|]. split; [apply getRepositories_written|].
  cbn [stored repositories set_repositories]. rewrite map_name_stored. auto.
Qed.

(** X10: two [upsertRepository] calls, one after the other, with two
    different names that are not in the registry: both return and
    [getRepositories] then lists the earlier names followed by the two
    new names, in the order of the calls. *)
Theorem two_upserts_are_both_kept (a b : RepoArgument) (w : world) (v : json)
        (c : ToyboxConfig) :
  disk w = Some (Serialized v) ->
  lock w = Free ->
  ToyboxConfigSchema (Some v) = Some c ->
  arg_name a <> arg_name b ->
  ~ In (arg_name a) (map name (repositories c)) ->
  ~ In (arg_name b) (map name (repositories c)) ->
  exists w1 w2 l,
    upsertRepository env clock a w = (Returns tt, w1)
    /\ upsertRepository env clock b w1 = (Returns tt, w2)
    /\ getRepositories env clock w2 = (Returns l, w2)
    /\ map name l = map name (repositories c) ++ [arg_name a; arg_name b].
Proof.
  intros Hd Hl Hv Hab Ha Hb.
  destruct (upsertRepository_run a w v c Hd Hl Hv) as [c1 [t1 [Hrun1 [_ Hnew1]]]].
  specialize (Hnew1 Ha).
  destruct (upsertRepository_run b (mkWorld (Some (file_of c1)) Free t1)
              (reparsed (json_of_config (validated c1))) (stored c1) eq_refl eq_refl
              (config_schema_written c1)) as [c2 [t2 [Hrun2 [_ Hnew2]]]].
  cbn [stored repositories set_repositories] in Hnew2.
  rewrite map_name_stored in Hnew2.
  assert (Hb1 : ~ In (arg_name b) (map name (repositories c1))).
  { rewrite Hnew1. intros Hin. apply in_app_or in Hin.
    destruct Hin as [Hin|[Heq|[]]]; [exact (Hb Hin)|exact (Hab Heq)]. }
  specialize (Hnew2 Hb1).
  eexists. eexists. exists (repositories (stored c2)).
  split; [exact Hrun1|]. split; [exact Hrun2|]. split.
  - apply getRepositories_written.
  - cbn [stored repositories set_repositories].
    rewrite map_name_stored, Hnew2, Hnew1, <- app_assoc. reflexivity.
Qed.

(** X11: after [setActiveRepository(n)] on a registry that has a record
    named [n], whatever the flags and the pointer were before, the
    stored records that carry the flag are exactly those named [n], and
    [getActiveRepository] returns a record named [n] with
    [isActive = true] (also when [n] is the empty string). *)
Theorem setActiveRepository_then_getActiveRepository (n : string) (w : world) (v : json)
        (c : ToyboxConfig) :
  disk w = Some (Serialized v) ->
  lock w = Free ->
  ToyboxConfigSchema (Some v) = Some c ->
  In n (map name (repositories c)) ->
  exists c' w' r,
    setActiveRepository env clock n w = (Returns tt, w')
    /\ persisted w' = Some c'
    /\ (forall x, In x (repositories c') -> (isActive x = true <-> name x = n))
    /\ getActiveRepository env clock w' = (Returns (Some r), w')
    /\ name r = n /\ isActive r = true /\ In r (repositories c').
Proof.
  intros Hd Hl Hv Hin.
  destruct (find_some_of_name n (repositories c) Hin) as [r0 [Hf [Hn0 Hin0]]].
  eexists. eexists. exists (stored_repo (set_isActive true r0)).
  split; [apply (setActiveRepository_run n w v c Hd Hl Hv Hin)|].
  split; [apply persisted_written|].
  split.
  { cbn [repositories set_lastUpdated set_activeRepository set_repositories stored].
    intros x Hx. apply in_map_iff in Hx. destruct Hx as [y [<- Hy]].
    apply in_map_iff in Hy. destruct Hy as [z [<- _]].
    cbn [isActive name set_isActive stored_repo]. apply String.eqb_eq. }
  split.
  { rewrite getActiveRepository_written, resolve_active_set_lastUpdated.
    rewrite resolve_active_after_set, Hf. reflexivity. }
  split; [exact Hn0|]. split; [reflexivity|].
  cbn [repositories set_lastUpdated set_activeRepository set_repositories stored].
  apply in_map. apply in_map_iff. exists r0. split; [|exact Hin0].
  rewrite Hn0, String.eqb_refl. reflexivity.
Qed.

(** X12: the registration that [initializeToybox] does,
    [upsertRepository(repo)] followed by
    [setActiveRepository(repo.name)], with no file yet or with a file
    that holds a configuration: both calls return, the stored records
    that carry the flag are exactly those named [repo.name], and
    [getActiveRepository] returns a record of that name, whatever
    [isActive] the upserted record carried and whatever was active
    before. *)
Theorem register_then_activate (repo : RepoArgument) (w : world) :
  lock w = Free ->
  (disk w = None
   \/ exists v c, disk w = Some (Serialized v) /\ ToyboxConfigSchema (Some v) = Some c) ->
  exists w1 w2 c2 r,
    upsertRepository env clock repo w = (Returns tt, w1)
    /\ setActiveRepository env clock (arg_name repo) w1 = (Returns tt, w2)
    /\ persisted w2 = Some c2
    /\ (forall x, In x (repositories c2) -> (isActive x = true <-> name x = arg_name repo))
    /\ getActiveRepository env clock w2 = (Returns (Some r), w2)
    /\ name r = arg_name repo /\ isActive r = true.
Proof.
  intros Hl Hstart.
  assert (Hup : exists c1 t,
             upsertRepository env clock repo w
             = (Returns tt, mkWorld (Some (file_of c1)) Free t)
             /\ In (arg_name repo) (map name (repositories c1))).
  { destruct Hstart as [Hd | [v [c [Hd Hv]]]].
    - destruct (upsertRepository_run_absent repo w Hd) as [c1 [t [Hrun Hnames]]].
      rewrite Hl in Hrun.
      exists c1, t. split; [exact Hrun|]. rewrite Hnames. now left.
    - destruct (upsertRepository_run repo w v c Hd Hl Hv) as [c1 [t [Hrun [Hold Hnew]]]].
      exists c1, t. split; [exact Hrun|].
      destruct (in_dec string_dec (arg_name repo) (map name (repositories c))) as [Hin|Hout].
      + rewrite (Hold Hin). exact Hin.
      + rewrite (Hnew Hout). apply in_or_app. right. now left. }
  destruct Hup as [c1 [t [Hrun1 Hin1]]].
  assert (Hin1' : In (arg_name repo) (map name (repositories (stored c1)))).
  { cbn [stored repositories set_repositories]. now rewrite map_name_stored. }
  destruct (find_some_of_name _ _ Hin1') as [r0 [Hf [Hn0 _]]].
  eexists. eexists. eexists. exists (stored_repo (set_isActive true r0)).
  split; [exact Hrun1|].
  split; [apply (setActiveRepository_run (arg_name repo)
                   (mkWorld (Some (file_of c1)) Free t)
                   (reparsed (json_of_config (validated c1))) (stored c1)
                   eq_refl eq_refl (config_schema_written c1) Hin1')|].
  split; [apply persisted_written|].
  split.
  { cbn [repositories set_lastUpdated set_activeRepository set_repositories stored].
    intros x Hx. apply in_map_iff in Hx. destruct Hx as [y [<- Hy]].
    apply in_map_iff in Hy. destruct Hy as [z [<- _]].
    cbn [isActive name set_isActive stored_repo]. apply String.eqb_eq. }
  split.
  { rewrite getActiveRepository_written, resolve_active_set_lastUpdated.
    rewrite resolve_active_after_set, Hf. reflexivity. }
  split; [exact Hn0|reflexivity].
Qed.

End MoreOfTheRegistry.

(** ** Two calls in flight *)

Section TwoCalls.

Variable env : process_env.
Variable clock : nat -> string.

(** The [catch] clause of [update] on the rejection of
    [lockfile.lock] for a file that is not there: the updater runs on a
    default configuration and its result is written, whatever the file
    holds by then. *)
Lemma update_catch_ENOENT (u : ToyboxConfig -> M ToyboxConfig) (w : world) :
  update_catch env clock u ENOENT w
  = (updatedConfig <- u (default_config env (clock (ticks w))) ;;
     write clock updatedConfig)
      (mkWorld (disk w) (lock w) (S (ticks w))).
Proof.
  unfold update_catch. cbn [has_code_ENOENT].
  unfold bind at 1, createDefaultConfig, bind at 1, now, ret at 1.
  unfold bind.
  destruct (u _ _) as [[c'|e] w1]; [|reflexivity].
  destruct (write clock c' w1) as [[c''|e] w2]; reflexivity.
Qed.

(** One call after the other: the schedule that lets the first call
    finish before the second starts is two [update]s in sequence. *)
Lemma one_after_the_other (u1 u2 : ToyboxConfig -> M ToyboxConfig) (w : world) :
  interleave env clock u1 u2 [First; First; Second; Second] Issued Issued w
  = (Done (fst (update env clock u1 w)),
     Done (fst (update env clock u2 (snd (update env clock u1 w)))),
     snd (update env clock u2 (snd (update env clock u1 w)))).
Proof.
  unfold interleave, advance, update.
  destruct (lockfile_lock w) as [s1 w1].
  destruct (update_after_lock env clock u1 s1 w1) as [r1 w2]. cbn [fst snd].
  destruct (lockfile_lock w2) as [s2 w3].
  destruct (update_after_lock env clock u2 s2 w3) as [r2 w4]. reflexivity.
Qed.

(** With the file there and the lock free, two calls whose lock
    requests both settle before either goes on do not both get the
    lock: the first does its [update], and the second, whose retries
    ran out while the first held the lock, is refused. *)
Lemma second_call_is_refused (u1 u2 : ToyboxConfig -> M ToyboxConfig)
      (text : file_text) (t : nat) :
  interleave env clock u1 u2 [First; Second; First; Second] Issued Issued
             (mkWorld (Some text) Free t)
  = (Done (fst (update env clock u1 (mkWorld (Some text) Free t))),
     Done (Throws (Failed Update ELOCKED)),
     snd (update env clock u1 (mkWorld (Some text) Free t))).
Proof.
  unfold interleave, advance, update, lockfile_lock. cbn [disk lock ticks].
  destruct (update_after_lock env clock u1 (Returns tt) (mkWorld (Some text) Held t))
    as [r1 w2].
  reflexivity.
Qed.

(** C9 (the code departs from the claim when there is no file yet).
    Two [upsertRepository] calls are in flight, and both lock requests
    settle before either call goes on.  With no file, each request is
    rejected with [ENOENT], no lock is ever taken, and each call runs
    its updater on a default configuration of its own and writes the
    result.  Both calls return; the file then holds the second call's
    record alone, and the first call's record is lost. *)
Theorem concurrent_updates_without_a_file_lose_one (a b : RepoArgument)
        (lk : marker) (t : nat) :
  exists ca cb w' l,
    interleave env clock (upsertRepository_updater clock a) (upsertRepository_updater clock b)
               [First; Second; First; Second] Issued Issued (mkWorld None lk t)
    = (Done (Returns ca), Done (Returns cb), w')
    /\ map name (repositories ca) = [arg_name a]
    /\ map name (repositories cb) = [arg_name b]
    /\ lock w' = lk
    /\ getRepositories env clock w' = (Returns l, w')
    /\ map name l = [arg_name b]
    /\ (arg_name a <> arg_name b -> ~ In (arg_name a) (map name l)).
Proof.
  unfold interleave, advance, lockfile_lock. cbn [disk update_after_lock].
  rewrite update_catch_ENOENT. cbn [disk lock ticks].
  destruct (upsert_updater_empty clock a (default_config env (clock t))
              (mkWorld None lk (S t)) eq_refl) as [ra [wa [Hua [Hna [_ [_ Hla]]]]]].
  unfold bind at 1. rewrite Hua, write_run.
  rewrite update_catch_ENOENT. cbn [disk lock ticks].
  destruct (upsert_updater_empty clock b
              (default_config env (clock (S (ticks wa))))
              (mkWorld (Some (file_of
                         (set_lastUpdated (clock (ticks wa))
                            (set_repositories [ra]
                               (set_activeRepository (Some (arg_name a))
                                  (default_config env (clock t)))))))
                       (lock wa) (S (S (ticks wa)))) eq_refl)
    as [rb [wb [Hub [Hnb [_ [_ Hlb]]]]]].
  unfold bind at 1. rewrite Hub, write_run.
  eexists. eexists. eexists. eexists. split; [reflexivity|].
  cbn [repositories set_lastUpdated set_repositories map lock].
  rewrite Hna, Hnb. split; [reflexivity|]. split; [reflexivity|].
  split; [cbn [lock] in Hla, Hlb; congruence|].
  split; [apply getRepositories_written|].
  cbn [stored repositories set_lastUpdated set_repositories map name stored_repo].
  rewrite Hnb. split; [reflexivity|].
  intros Hab [Hin|[]]. congruence.
Qed.

End TwoCalls.

Section TouchUpdateRemove.

Variable env : process_env.
Variable clock : nat -> string.

Lemma touchRepository_updater_run (n : string) (config : ToyboxConfig) (w0 : world) :
  exists c1 w1,
    touchRepository_updater clock n config w0 = (Returns c1, w1)
    /\ repositories c1
       = mutate_found (fun r => name r =? n) (set_lastUsedAt (clock (ticks w0)))
                      (repositories config)
    /\ activeRepository c1 = activeRepository config
    /\ ticks w0 <= ticks w1.
Proof.
  unfold touchRepository_updater.
  destruct (find _ _) eqn:Hf.
  - cbn. eexists. eexists. split; [reflexivity|]. split; [reflexivity|]. cbn. auto.
  - exists config, w0. split; [reflexivity|]. split; [|auto].
    symmetry. apply mutate_found_absent. intros x Hx. exact (find_none _ _ Hf x Hx).
Qed.

(** X13: [removeRepository] of a name that no record has keeps every
    record, in order.  When the pointer is not that name, the pointer
    is kept too; when the pointer is that name (a stale pointer), it is
    moved to the first record, which gets the flag, or unset when there
    is no record.  The records are rewritten, so each is then as it is
    stored; with a [metadata] that is written as it is, that is the
    record itself. *)
Theorem removeRepository_of_unknown_name (n : string) (w : world) (v : json)
        (c : ToyboxConfig) :
  disk w = Some (Serialized v) ->
  lock w = Free ->
  ToyboxConfigSchema (Some v) = Some c ->
  (forall r, In r (repositories c) -> name r <> n) ->
  exists c' w',
    removeRepository env clock n w = (Returns tt, w')
    /\ persisted w' = Some c'
    /\ map name (repositories c') = map name (repositories c)
    /\ (activeRepository c <> Some n ->
        repositories c' = map stored_repo (repositories c)
        /\ activeRepository c' = activeRepository c
        /\ (Forall (fun r => plain_metadata (metadata r) = true) (repositories c) ->
            repositories c' = repositories c))
    /\ (activeRepository c = Some n ->
        match repositories c with
        | [] => repositories c' = [] /\ activeRepository c' = None
        | first :: rest =>
            repositories c' = map stored_repo (set_isActive true first :: rest)
            /\ activeRepository c' = Some (name first)
            /\ exists promoted,
                nth_error (repositories c') 0 = Some promoted
                /\ name promoted = name first
                /\ isActive promoted = true
        end).
Proof.
  intros Hd Hl Hv Hnone.
  eexists. eexists. split; [apply (removeRepository_run env clock n w v c Hd Hl Hv)|].
  split; [apply persisted_written|].
  cbn [repositories activeRepository set_lastUpdated stored set_repositories].
  unfold removeRepository_updater.
  cbn [repositories activeRepository set_repositories].
  rewrite migrate_config_repositories, migrate_config_activeRepository.
  rewrite (filter_keeps_all n (repositories c) Hnone).
  destruct (strict_equal (activeRepository c) n) eqn:Hptr.
  - assert (Hp : activeRepository c = Some n).
    { destruct (activeRepository c) as [p|]; [|discriminate].
      cbn in Hptr. apply String.eqb_eq in Hptr. congruence. }
    destruct (repositories c) as [|first rest];
      cbn [repositories activeRepository set_repositories set_activeRepository map name
           set_isActive stored_repo].
    + split; [reflexivity|]. split; [intros Hne; contradiction|]. intros _. auto.
    + split; [rewrite map_name_stored; reflexivity|].
      split; [intros Hne; contradiction|]. intros _.
      split; [reflexivity|]. split; [reflexivity|].
      eexists. split; [reflexivity|]. split; reflexivity.
  - cbn [repositories activeRepository set_repositories].
    rewrite migrate_config_activeRepository.
    split; [apply map_name_stored|]. split.
    + intros _. split; [reflexivity|]. split; [reflexivity|apply map_stored_repo_plain].
    + intros Hp. rewrite Hp in Hptr. cbn in Hptr. rewrite String.eqb_refl in Hptr.
      discriminate.
Qed.

(** X14: [touchRepository(n)] sets the [lastUsedAt] of the first record
    named [n] to the clock reading and changes nothing else of the
    registry: the pointer, the number of records and, at each position,
    the name, the paths, [createdAt] and [isActive] are as before, and
    so is [lastUsedAt] at every other position.  With no record of that
    name the records are as before (the file is still rewritten). *)
Theorem touchRepository_effect (n : string) (w : world) (v : json) (c : ToyboxConfig) :
  disk w = Some (Serialized v) ->
  lock w = Free ->
  ToyboxConfigSchema (Some v) = Some c ->
  exists c' w',
    touchRepository env clock n w = (Returns tt, w')
    /\ persisted w' = Some c'
    /\ lock w' = Free
    /\ activeRepository c' = activeRepository c
    /\ length (repositories c') = length (repositories c)
    /\ (forall i r,
          nth_error (repositories c) i = Some r ->
          exists r',
            nth_error (repositories c') i = Some r'
            /\ same_identity r r'
            /\ isActive r' = isActive r
            /\ (findIndex (fun x => name x =? n) (repositories c) = Some i ->
                lastUsedAt r' = clock (ticks w))
            /\ (findIndex (fun x => name x =? n) (repositories c) <> Some i ->
                lastUsedAt r' = lastUsedAt r))
    /\ ((exists r, In r (repositories c) /\ name r = n) ->
        exists i r',
          findIndex (fun x => name x =? n) (repositories c) = Some i
          /\ nth_error (repositories c') i = Some r'
          /\ name r' = n
          /\ lastUsedAt r' = clock (ticks w))
    /\ ((forall r, In r (repositories c) -> name r <> n) ->
        repositories c' = map stored_repo (repositories c))
    /\ ticks w < ticks w'.
Proof.
  intros Hd Hl Hv.
  destruct (touchRepository_updater_run n (migrate_config c) (mkWorld (disk w) Held (ticks w)))
    as [c1 [w1 [Hu [Hrepos [Hptr Hticks]]]]].
  rewrite migrate_config_repositories in Hrepos.
  rewrite migrate_config_activeRepository in Hptr. cbn [ticks] in Hrepos, Hticks.
  assert (Hat : forall i r,
             nth_error (repositories c) i = Some r ->
             exists r',
               nth_error (map stored_repo (repositories c1)) i = Some r'
               /\ same_identity r r'
               /\ isActive r' = isActive r
               /\ (findIndex (fun x => name x =? n) (repositories c) = Some i ->
                   lastUsedAt r' = clock (ticks w))
               /\ (findIndex (fun x => name x =? n) (repositories c) <> Some i ->
                   lastUsedAt r' = lastUsedAt r)).
  { intros i r Hr. rewrite Hrepos, nth_error_map.
    destruct (is_position (findIndex (fun x => name x =? n) (repositories c)) i)
      as [Hidx|Hidx].
    - rewrite (nth_error_mutate_found_at _ _ _ i Hidx), Hr.
      eexists. split; [reflexivity|]. cbn. unfold same_identity. cbn.
      repeat split; auto. intros H. contradiction.
    - rewrite (nth_error_mutate_found_other _ _ _ i Hidx), Hr.
      eexists. split; [reflexivity|]. cbn. unfold same_identity. cbn.
      repeat split; auto. intros H. contradiction. }
  eexists. eexists. split.
  { unfold touchRepository. eapply method_returns.
    apply (update_valid_returns env clock _ w w1 v c c1 Hd Hl Hv Hu). }
  split; [apply persisted_written|].
  cbn [repositories activeRepository set_lastUpdated lock ticks stored set_repositories].
  split; [reflexivity|]. split; [exact Hptr|].
  split; [rewrite length_map, Hrepos; apply length_mutate_found|].
  split; [exact Hat|].
  split.
  { intros [r [Hin Hname]].
    destruct (findIndex (fun x => name x =? n) (repositories c)) as [i|] eqn:Hidx.
    - destruct (findIndex_Some _ _ _ Hidx) as [x [Hx Hpx]]. apply String.eqb_eq in Hpx.
      destruct (Hat i x Hx) as [r' [Hr' [[Hn' _] [_ [Hhit _]]]]].
      exists i, r'. split; [reflexivity|]. split; [exact Hr'|].
      split; [congruence|]. now apply Hhit.
    - apply (proj1 (findIndex_None _ _) Hidx) in Hin.
      rewrite Hname, String.eqb_refl in Hin. discriminate. }
  split; [|lia].
  intros Hnone. rewrite Hrepos. f_equal. apply mutate_found_absent. intros x Hx.
  apply String.eqb_neq. now apply Hnone.
Qed.

(** What [Object.assign] leaves of a member for which a value may be
    given. *)
Lemma spread_cases {A : Type} (old : A) (m : js_member A) (x : A) :
  spread (Some old) m = Some x ->
  x = match m with Value a => a | _ => old end.
Proof. destruct m; cbn; congruence. Qed.

(** X15: [updateRepository(n, updates)] on a registry with a record
    named [n].  When [updates] gives [undefined] for [name],
    [localPath] or [createdAt], the call throws [Failed to update
    configuration: ...] and the file is as it was.  Otherwise the first
    record named [n] gets every member that [updates] gives (a member
    given as [undefined] is dropped, and [isActive: undefined] is
    stored as [false]), its [lastUsedAt] is the clock reading whatever
    [updates] gives for it, and every other record is as before.  The
    pointer is never changed, also when the name is.  With no record
    named [n] the records are as before. *)
Theorem updateRepository_effect (n : string) (updates : RepoUpdates) (w : world) (v : json)
        (c : ToyboxConfig) :
  disk w = Some (Serialized v) ->
  lock w = Free ->
  ToyboxConfigSchema (Some v) = Some c ->
  ((exists r, In r (repositories c) /\ name r = n) ->
   (upd_name updates = Undefined
    \/ upd_localPath updates = Undefined
    \/ upd_createdAt updates = Undefined) ->
   updateRepository env clock n updates w
   = (Throws (Failed Update ZodError), mkWorld (disk w) Free (S (S (ticks w)))))
  /\ ((forall r, In r (repositories c) -> name r <> n)
      \/ (upd_name updates <> Undefined
          /\ upd_localPath updates <> Undefined
          /\ upd_createdAt updates <> Undefined) ->
      exists c' w',
        updateRepository env clock n updates w = (Returns tt, w')
        /\ persisted w' = Some c'
        /\ lock w' = Free
        /\ activeRepository c' = activeRepository c
        /\ length (repositories c') = length (repositories c)
        /\ (forall i r,
              nth_error (repositories c) i = Some r ->
              exists r',
                nth_error (repositories c') i = Some r'
                /\ (findIndex (fun x => name x =? n) (repositories c) <> Some i ->
                    r' = stored_repo r)
                /\ (findIndex (fun x => name x =? n) (repositories c) = Some i ->
                    lastUsedAt r' = clock (ticks w)
                    /\ name r' = match upd_name updates with
                                 | Value s => s
                                 | _ => name r
                                 end
                    /\ localPath r' = match upd_localPath updates with
                                      | Value s => s
                                      | _ => localPath r
                                      end
                    /\ createdAt r' = match upd_createdAt updates with
                                      | Value s => s
                                      | _ => createdAt r
                                      end
                    /\ remoteUrl r' = match upd_remoteUrl updates with
                                      | Absent => remoteUrl r
                                      | Undefined => None
                                      | Value s => Some s
                                      end
                    /\ publishedUrl r' = match upd_publishedUrl updates with
                                         | Absent => publishedUrl r
                                         | Undefined => None
                                         | Value s => Some s
                                         end
                    /\ isActive r' = match upd_isActive updates with
                                     | Absent => isActive r
                                     | Undefined => false
                                     | Value b => b
                                     end
                    /\ metadata r' = option_map stored_metadata
                                       match upd_metadata updates with
                                       | Absent => metadata r
                                       | Undefined => None
                                       | Value m => Some m
                                       end))
        /\ ((forall s, upd_name updates <> Value s) ->
            map name (repositories c') = map name (repositories c))
        /\ ((forall r, In r (repositories c) -> name r <> n) ->
            repositories c' = map stored_repo (repositories c))).
Proof.
  intros Hd Hl Hv.
  assert (Hrefused : forall repo,
             upd_name updates = Undefined
             \/ upd_localPath updates = Undefined
             \/ upd_createdAt updates = Undefined ->
             as_record (set_obj_lastUsedAt (clock (ticks w)) (Object_assign repo updates))
             = None)
    by (intros repo; apply as_record_refused).
  split.
  - intros [r [Hin Hname]] Hundef.
    unfold updateRepository. apply method_throws.
    rewrite (update_valid_throws env clock _ w (mkWorld (disk w) Held (S (S (ticks w))))
               v c ZodError Hd Hl Hv); [reflexivity| |reflexivity].
    unfold updateRepository_updater. rewrite migrate_config_repositories.
    destruct (find _ (repositories c)) as [repo|] eqn:Hf.
    + unfold bind, now. cbn [ticks disk lock]. rewrite (Hrefused repo Hundef).
      reflexivity.
    + apply (find_none _ _ Hf) in Hin. rewrite Hname, String.eqb_refl in Hin.
      discriminate.
  - intros Hcase.
    destruct (find (fun x => name x =? n) (repositories c)) as [repo|] eqn:Hf.
    + (* a record named [n] is there, so no required member is given as undefined *)
      destruct Hcase as [Hnone | [Hname [Hpath Hcreated]]].
      { apply find_some in Hf. destruct Hf as [Hin Heq]. apply String.eqb_eq in Heq.
        exfalso. exact (Hnone repo Hin Heq). }
      destruct (as_record (set_obj_lastUsedAt (clock (ticks w)) (Object_assign repo updates)))
        as [assigned|] eqn:Has.
      2:{ apply as_record_refused in Has. tauto. }
      assert (Hu : updateRepository_updater clock n updates (migrate_config c)
                     (mkWorld (disk w) Held (ticks w))
                   = (Returns (set_repositories
                                 (mutate_found (fun x => name x =? n) (fun _ => assigned)
                                               (repositories c))
                                 (migrate_config c)),
                      mkWorld (disk w) Held (S (ticks w)))).
      { unfold updateRepository_updater. rewrite migrate_config_repositories, Hf.
        unfold bind, now. cbn [ticks disk lock]. rewrite Has. reflexivity. }
      destruct (as_record_assigned _ _ _ _ Has)
        as [Hn1 [Hp1 [Hru [Hpu [Hc1 [Hlu [Hia Hmd]]]]]]].
      apply spread_cases in Hn1, Hp1, Hc1.
      eexists. eexists. split.
      { unfold updateRepository. eapply method_returns.
        apply (update_valid_returns env clock _ w _ v c _ Hd Hl Hv Hu). }
      split; [apply persisted_written|].
      cbn [repositories activeRepository set_lastUpdated lock ticks stored set_repositories].
      rewrite migrate_config_activeRepository.
      split; [reflexivity|]. split; [reflexivity|].
      split; [rewrite length_map; apply length_mutate_found|].
      split.
      { intros i r Hr. rewrite nth_error_map.
        destruct (is_position (findIndex (fun x => name x =? n) (repositories c)) i)
          as [Hidx|Hidx].
        - rewrite (nth_error_mutate_found_at _ _ _ i Hidx), Hr.
          eexists. split; [reflexivity|]. split; [intros H; contradiction|].
          intros _.
          rewrite (find_at_findIndex _ _ _ Hidx), Hr in Hf. injection Hf as ->.
          cbn [lastUsedAt name localPath createdAt remoteUrl publishedUrl isActive metadata
               stored_repo].
          split; [exact Hlu|]. split; [exact Hn1|]. split; [exact Hp1|].
          split; [exact Hc1|].
          split; [rewrite Hru; destruct (upd_remoteUrl updates); reflexivity|].
          split; [rewrite Hpu; destruct (upd_publishedUrl updates); reflexivity|].
          split; [rewrite Hia; destruct (upd_isActive updates); reflexivity|].
          rewrite Hmd. destruct (upd_metadata updates); reflexivity.
        - rewrite (nth_error_mutate_found_other _ _ _ i Hidx), Hr.
          eexists. split; [reflexivity|]. split; [reflexivity|].
          intros H. contradiction. }
      split.
      { intros Hnoname. rewrite map_name_stored.
        assert (Hsame : name assigned = name repo).
        { rewrite Hn1. destruct (upd_name updates) as [| |s]; try reflexivity.
          exfalso. exact (Hnoname s eq_refl). }
        clear - Hf Hsame. revert Hf.
        induction (repositories c) as [|y l IH]; [reflexivity|].
        cbn [find mutate_found map]. destruct (name y =? n).
        - intros [= ->]. cbn [map]. now rewrite Hsame.
        - intros Hf. cbn [map]. now rewrite (IH Hf). }
      intros Hnone. apply find_some in Hf. destruct Hf as [Hin Heq].
      apply String.eqb_eq in Heq. exfalso. exact (Hnone repo Hin Heq).
    + (* no record named [n] *)
      assert (Hu : updateRepository_updater clock n updates (migrate_config c)
                     (mkWorld (disk w) Held (ticks w))
                   = (Returns (migrate_config c), mkWorld (disk w) Held (ticks w))).
      { unfold updateRepository_updater. rewrite migrate_config_repositories, Hf.
        reflexivity. }
      assert (Hidx : findIndex (fun x => name x =? n) (repositories c) = None)
        by now apply findIndex_of_find.
      eexists. eexists. split.
      { unfold updateRepository. eapply method_returns.
        apply (update_valid_returns env clock _ w _ v c _ Hd Hl Hv Hu). }
      split; [apply persisted_written|].
      cbn [repositories activeRepository set_lastUpdated lock ticks stored set_repositories].
      rewrite migrate_config_activeRepository, migrate_config_repositories.
      split; [reflexivity|]. split; [reflexivity|].
      split; [apply length_map|].
      split.
      { intros i r Hr. rewrite nth_error_map, Hr. eexists.
        split; [reflexivity|]. split; [reflexivity|]. rewrite Hidx. discriminate. }
      split; [intros _; apply map_name_stored|reflexivity].
Qed.

End TouchUpdateRemove.

(** ** More of the schemas *)

Lemma all_fails {A : Type} (p : Zod.validator A) (x : json) (items : list json) :
  In x items -> p (Some x) = None -> Zod.all p items = None.
Proof.
  induction items as [|y items IH]; [intros []|].
  intros [->|Hin] Hx; cbn [Zod.all].
  - rewrite Hx. reflexivity.
  - destruct (p (Some y)); cbn [Zod.bind]; [|reflexivity].
    rewrite (IH Hin Hx). reflexivity.
Qed.

Lemma get_other_key (k key : string) (v : json) (o : list (string * json)) :
  k <> key -> get key ((k, v) :: o) = get key o.
Proof.
  intros Hne. cbn [get]. apply String.eqb_neq in Hne. rewrite Hne. reflexivity.
Qed.

(** A step through the members of an object schema: either the member
    is refused, and so is the object, or the next member is looked at. *)
Ltac next_member :=
  match goal with
  | |- Zod.bind ?e _ = None => destruct e; cbn [Zod.bind]; [|reflexivity]
  end.

(** X16: what [write] writes validates, when it is read back, to the
    stored form of what was given: every member of a record is as it
    was, except that its [metadata] has no [__proto__] member and holds
    each value as [JSON.stringify] wrote it ([null] for an infinity,
    [0] for negative zero).  A record whose [metadata] is written as it
    is comes back as it was, and what came back once comes back as it
    is from then on. *)
Theorem written_values_validate_to_what_is_stored :
  (forall r,
      exists r',
        ToyboxRepoConfigSchema (Some (reparsed (json_of_repo (validated_repo r)))) = Some r'
        /\ name r' = name r
        /\ localPath r' = localPath r
        /\ remoteUrl r' = remoteUrl r
        /\ publishedUrl r' = publishedUrl r
        /\ createdAt r' = createdAt r
        /\ lastUsedAt r' = lastUsedAt r
        /\ isActive r' = isActive r
        /\ (metadata r = None -> metadata r' = None)
        /\ (forall m, metadata r = Some m ->
              exists m', metadata r' = Some m'
                         /\ forall k, get k m'
                                      = if k =? "__proto__" then None
                                        else option_map reparsed (get k m))
        /\ (plain_metadata (metadata r) = true -> r' = r)
        /\ ToyboxRepoConfigSchema (Some (reparsed (json_of_repo (validated_repo r'))))
           = Some r')
  /\ (forall c,
        exists c',
          ToyboxConfigSchema (Some (reparsed (json_of_config (validated c)))) = Some c'
          /\ version c' = version c
          /\ activeRepository c' = activeRepository c
          /\ debug c' = debug c
          /\ localTemplatePath c' = localTemplatePath c
          /\ lastUpdated c' = lastUpdated c
          /\ preferences c' = preferences c
          /\ map name (repositories c') = map name (repositories c)
          /\ (Forall (fun r => plain_metadata (metadata r) = true) (repositories c) ->
              c' = c)
          /\ ToyboxConfigSchema (Some (reparsed (json_of_config (validated c')))) = Some c').
Proof.
  split.
  - intros r. exists (stored_repo r). split; [apply repo_schema_written|].
    do 7 (split; [reflexivity|]).
    unfold stored_repo at 1 2. cbn [metadata].
    split; [intros ->; reflexivity|].
    split.
    { intros m ->. exists (stored_metadata m).
      split; [reflexivity|]. intros k. apply get_stored_metadata. }
    split; [apply stored_repo_plain|].
    rewrite repo_schema_written. f_equal. apply stored_repo_twice.
  - intros c. exists (stored c). split; [apply config_schema_written|].
    do 6 (split; [reflexivity|]).
    split; [apply map_name_stored|].
    split.
    { intros H. unfold stored. rewrite (map_stored_repo_plain _ H).
      destruct c; reflexivity. }
    rewrite config_schema_written. f_equal. apply stored_twice.
Qed.

(** X17: an object with a string [lastUpdated] and none of the other
    six members of the schema validates, whatever other members it has,
    to the configuration made of the declared defaults: version 1.0.0,
    no repositories, no pointer, debug off, no template path and the
    default preferences. *)
Theorem schema_fills_in_defaults (o : list (string * json)) (t : string) :
  get "lastUpdated" o = Some (JStr t) ->
  get "version" o = None ->
  get "repositories" o = None ->
  get "activeRepository" o = None ->
  get "debug" o = None ->
  get "localTemplatePath" o = None ->
  get "preferences" o = None ->
  ToyboxConfigSchema (Some (JObj o))
  = Some (mkConfig "1.0.0" [] None false None t
                   (mkPreferences "toybox" true "feat: Add new artifact via TOYBOX")).
Proof.
  intros Hlu Hv Hr Ha Hd Hl Hp. unfold ToyboxConfigSchema.
  rewrite Hlu, Hv, Hr, Ha, Hd, Hl, Hp. reflexivity.
Qed.

(** X18: what the configuration schema refuses: a value that is not an
    object; an object whose [lastUpdated] is missing or not a string;
    [null] given for [activeRepository]; and a [repositories] array
    with one element that the record schema refuses. *)
Theorem schema_refusals :
  (forall v, (forall o, v <> JObj o) -> ToyboxConfigSchema (Some v) = None)
  /\ (forall o, (forall t, get "lastUpdated" o <> Some (JStr t)) ->
                ToyboxConfigSchema (Some (JObj o)) = None)
  /\ (forall o, get "activeRepository" o = Some JNull ->
                ToyboxConfigSchema (Some (JObj o)) = None)
  /\ (forall o items x,
        get "repositories" o = Some (JArr items) ->
        In x items ->
        ToyboxRepoConfigSchema (Some x) = None ->
        ToyboxConfigSchema (Some (JObj o)) = None).
Proof.
  split; [|split; [|split]].
  - intros v Hv. destruct v; try reflexivity. exfalso. exact (Hv members eq_refl).
  - intros o Hlu. unfold ToyboxConfigSchema.
    do 5 next_member.
    destruct (get "lastUpdated" o) as [[|?|?|stamp|?|?]|] eqn:E;
      try reflexivity.
    exfalso. exact (Hlu stamp eq_refl).
  - intros o Ha. unfold ToyboxConfigSchema.
    do 2 next_member. rewrite Ha. reflexivity.
  - intros o items x Hr Hin Hx. unfold ToyboxConfigSchema.
    next_member. rewrite Hr. cbn [Zod.default Zod.array].
    rewrite (all_fails _ x items Hin Hx). reflexivity.
Qed.

(** X19: a member that the schema does not declare is not looked at:
    adding one to an object changes neither whether the object
    validates nor the configuration it validates to. *)
Theorem schema_ignores_undeclared_members (k : string) (v : json)
        (o : list (string * json)) :
  ~ In k ["version"; "repositories"; "activeRepository"; "debug";
          "localTemplatePath"; "lastUpdated"; "preferences"] ->
  ToyboxConfigSchema (Some (JObj ((k, v) :: o))) = ToyboxConfigSchema (Some (JObj o)).
Proof.
  intros Hk. unfold ToyboxConfigSchema.
  rewrite !get_other_key; [reflexivity|..];
    intros ->; apply Hk; cbn; tauto.
Qed.

Lemma removeRepository_updater_names (n : string) (c : ToyboxConfig) :
  map name (repositories (removeRepository_updater n c))
  = map name (filter (fun r => negb (name r =? n)) (repositories c)).
Proof.
  unfold removeRepository_updater.
  cbn [repositories activeRepository set_repositories].
  destruct (strict_equal _ n); [|reflexivity].
  cbn [repositories set_activeRepository set_repositories].
  destruct (filter _ (repositories c)); reflexivity.
Qed.
(** ** The repository handlers *)

Section HandlerProperties.

Variable env : process_env.
Variable clock : nat -> string.
Variable path_exists : string -> bool.

Lemma getRepositories_valid (w : world) (v : json) (c : ToyboxConfig) :
  disk w = Some (Serialized v) ->
  ToyboxConfigSchema (Some v) = Some c ->
  getRepositories env clock w = (Returns (repositories c), w).
Proof.
  intros Hd Hv. unfold getRepositories, bind.
  rewrite (read_valid env clock w v c Hd Hv).
  now rewrite migrate_config_repositories.
Qed.

Lemma getRepositories_malformed (w : world) (raw : string) :
  disk w = Some (Malformed raw) ->
  getRepositories env clock w = (Throws (Failed Read SyntaxError), w).
Proof.
  intros Hd. unfold getRepositories, bind.
  rewrite (read_malformed env clock w raw Hd). reflexivity.
Qed.

(** X20: on a file that holds a configuration, [listRepositories]
    succeeds without changing anything and lists one entry per stored
    record, in order, with the record's name, paths and [lastUsedAt];
    an entry is marked active exactly when the record carries the flag
    or the pointer names it. *)
Theorem listRepositories_lists_the_registry (w : world) (v : json) (c : ToyboxConfig) :
  disk w = Some (Serialized v) ->
  ToyboxConfigSchema (Some v) = Some c ->
  exists entries,
    Handlers.listRepositories env clock w = (Returns (Handlers.Success entries), w)
    /\ entries = map (Handlers.entry_of c) (repositories c)
    /\ map Handlers.entry_name entries = map name (repositories c)
    /\ map Handlers.entry_lastUsedAt entries = map lastUsedAt (repositories c)
    /\ (forall r, In r (repositories c) ->
          (Handlers.entry_isActive (Handlers.entry_of c r) = true
           <-> isActive r = true \/ activeRepository c = Some (name r))).
Proof.
  intros Hd Hv. eexists. split.
  { unfold Handlers.listRepositories, try_catch, bind.
    rewrite (getRepositories_valid w v c Hd Hv).
    rewrite (read_valid env clock w v c Hd Hv). unfold ret.
    unfold Handlers.entry_of. rewrite migrate_config_activeRepository. reflexivity. }
  split; [reflexivity|].
  split; [rewrite map_map; reflexivity|].
  split; [rewrite map_map; reflexivity|].
  intros r _. cbn [Handlers.entry_isActive Handlers.entry_of].
  rewrite orb_true_iff.
  destruct (activeRepository c) as [p|]; cbn [strict_equal].
  - rewrite String.eqb_eq. split; intros [H|H]; auto; right; congruence.
  - split; intros [H|H]; auto; discriminate.
Qed.

(** X21: the four handlers never throw: in every world, whatever the
    file holds and whether or not the lock is free, each returns a
    result object. *)
Theorem handlers_return_result_objects (w : world) :
  (exists r w', Handlers.listRepositories env clock w = (Returns r, w'))
  /\ (forall n, exists r w',
         Handlers.switchRepository env clock path_exists n w = (Returns r, w'))
  /\ (forall n, exists r w', Handlers.removeRepository env clock n w = (Returns r, w'))
  /\ (exists r w', Handlers.getActiveRepository env clock w = (Returns r, w')).
Proof.
  repeat split; intros;
    unfold Handlers.listRepositories, Handlers.switchRepository,
           Handlers.removeRepository, Handlers.getActiveRepository, try_catch;
    match goal with
    | |- context [let (_, _) := ?m w in _] => destruct (m w) as [[r|e] w']
    | |- context [match ?m w with _ => _ end] => destruct (m w) as [[r|e] w']
    end; eexists; eexists; reflexivity.
Qed.

(** X22: on a file that holds a text that is not JSON, each of the
    four handlers returns a failure that carries the read error, and
    the text stays in place. *)
Theorem handlers_fail_on_malformed_file (w : world) (raw : string) :
  disk w = Some (Malformed raw) ->
  Handlers.listRepositories env clock w
  = (Returns (Handlers.Failure (Handlers.FailedTo Handlers.Listing
                                  (Failed Read SyntaxError))), w)
  /\ (forall n, Handlers.switchRepository env clock path_exists n w
                = (Returns (Handlers.Failure (Handlers.FailedTo Handlers.Switching
                                                (Failed Read SyntaxError))), w))
  /\ (forall n, Handlers.removeRepository env clock n w
                = (Returns (Handlers.Failure (Handlers.FailedTo Handlers.Removing
                                                (Failed Read SyntaxError))), w))
  /\ Handlers.getActiveRepository env clock w
     = (Returns (Handlers.Failure (Handlers.FailedTo Handlers.Resolving
                                     (Failed Read SyntaxError))), w).
Proof.
  intros Hd.
  assert (Hget : getActiveRepository env clock w = (Throws (Failed Read SyntaxError), w)).
  { unfold getActiveRepository, bind.
    rewrite (read_malformed env clock w raw Hd). reflexivity. }
  repeat split; intros;
    unfold Handlers.listRepositories, Handlers.switchRepository,
           Handlers.removeRepository, Handlers.getActiveRepository, try_catch;
    unfold bind at 1;
    rewrite ?(getRepositories_malformed w raw Hd), ?Hget;
    reflexivity.
Qed.

(** X23: the [removeRepository] handler on a file that holds a
    configuration: for a name that no record has it returns the
    not-found failure and writes nothing (the service method alone
    would rewrite the file); for a name that is stored it succeeds,
    reports the local path of the first record of that name, and no
    stored record has that name afterwards. *)
Theorem handler_removeRepository_spec (n : string) (w : world) (v : json)
        (c : ToyboxConfig) :
  disk w = Some (Serialized v) ->
  lock w = Free ->
  ToyboxConfigSchema (Some v) = Some c ->
  ((forall r, In r (repositories c) -> name r <> n) ->
   Handlers.removeRepository env clock n w
   = (Returns (Handlers.Failure (Handlers.NotInConfiguration n)), w))
  /\ (forall r, find (fun r => name r =? n) (repositories c) = Some r ->
        exists c' w',
          Handlers.removeRepository env clock n w
          = (Returns (Handlers.Success (n, localPath r)), w')
          /\ persisted w' = Some c'
          /\ (forall x, In x (repositories c') -> name x <> n)).
Proof.
  intros Hd Hl Hv. split.
  - intros Hnone.
    unfold Handlers.removeRepository, try_catch, bind.
    rewrite (getRepositories_valid w v c Hd Hv).
    rewrite (find_none_of_names n _ Hnone). reflexivity.
  - intros r Hf. eexists. eexists. split.
    { unfold Handlers.removeRepository, try_catch. unfold bind at 1.
      rewrite (getRepositories_valid w v c Hd Hv). rewrite Hf.
      unfold bind at 1.
      rewrite (removeRepository_run env clock n w v c Hd Hl Hv). reflexivity. }
    split; [apply persisted_written|].
    cbn [repositories set_lastUpdated stored set_repositories].
    intros x Hx Hname. apply (in_map name) in Hx.
    rewrite map_name_stored, removeRepository_updater_names, Hname in Hx.
    rewrite migrate_config_repositories in Hx.
    apply in_map_iff in Hx. destruct Hx as [y [Hy Hin]].
    apply filter_In in Hin. destruct Hin as [_ Hne].
    rewrite Hy, String.eqb_refl in Hne. discriminate.
Qed.

(** X24: the [getActiveRepository] handler on a file that holds a
    configuration changes nothing; it returns the failure that tells to
    use [switch_repository] exactly when the service resolves no
    repository, and otherwise the name, paths and [lastUsedAt] of the
    resolved record. *)
Theorem handler_getActiveRepository_spec (w : world) (v : json) (c : ToyboxConfig) :
  disk w = Some (Serialized v) ->
  ToyboxConfigSchema (Some v) = Some c ->
  (resolve_active c = None ->
   Handlers.getActiveRepository env clock w
   = (Returns (Handlers.Failure Handlers.NoActiveRepositorySet), w))
  /\ (forall r, resolve_active c = Some r ->
        Handlers.getActiveRepository env clock w
        = (Returns (Handlers.Success
                      (Handlers.mkInfo (name r) (localPath r) (remoteUrl r)
                                       (publishedUrl r) (lastUsedAt r))), w)).
Proof.
  intros Hd Hv.
  split; [intros Hr|intros r Hr];
    unfold Handlers.getActiveRepository, try_catch, bind;
    rewrite (getActiveRepository_valid env clock w v c Hd Hv), Hr; reflexivity.
Qed.


End HandlerProperties.

(** ** Compositions *)

Lemma find_mutate_found_same (p : ToyboxRepoConfig -> bool)
      (f : ToyboxRepoConfig -> ToyboxRepoConfig) (r : ToyboxRepoConfig)
      (l : list ToyboxRepoConfig) :
  (forall x, p (f x) = p x) ->
  NoDup (map name l) ->
  find p l = Some r ->
  find p (mutate_found (fun x => name x =? name r) f l) = Some (f r).
Proof.
  intros Hp. induction l as [|y l IH]; cbn [find mutate_found map]; [discriminate|].
  intros Hnd Hf. inversion Hnd as [|? ? Hnotin Hrest]; subst.
  destruct (p y) eqn:Hpy.
  - injection Hf as ->. rewrite String.eqb_refl. cbn [find]. now rewrite Hp, Hpy.
  - assert (Hne : (name y =? name r) = false).
    { apply String.eqb_neq. intros Heq. apply Hnotin. rewrite Heq.
      apply find_some in Hf. now apply in_map. }
    rewrite Hne. cbn [find]. rewrite Hpy. now apply IH.
Qed.

Section Compositions.

Variable env : process_env.
Variable clock : nat -> string.

(** X26: what the publish and list handlers do with the active
    repository, [getActiveRepository()] followed by
    [touchRepository(activeRepo.name)], on a registry with distinct
    names: the touch returns, and [getActiveRepository] then returns
    the record of the same name with [lastUsedAt] equal to the clock
    reading of the touch and every other member as it was. *)
Theorem touching_the_active_repository (w : world) (v : json) (c : ToyboxConfig)
        (r : ToyboxRepoConfig) :
  disk w = Some (Serialized v) ->
  lock w = Free ->
  ToyboxConfigSchema (Some v) = Some c ->
  NoDup (map name (repositories c)) ->
  getActiveRepository env clock w = (Returns (Some r), w) ->
  exists w' r',
    touchRepository env clock (name r) w = (Returns tt, w')
    /\ getActiveRepository env clock w' = (Returns (Some r'), w')
    /\ lastUsedAt r' = clock (ticks w)
    /\ name r' = name r
    /\ localPath r' = localPath r
    /\ remoteUrl r' = remoteUrl r
    /\ publishedUrl r' = publishedUrl r
    /\ createdAt r' = createdAt r
    /\ isActive r' = isActive r
    /\ metadata r' = option_map stored_metadata (metadata r).
Proof.
  intros Hd Hl Hv Hnd Hget.
  rewrite (getActiveRepository_valid env clock w v c Hd Hv) in Hget.
  injection Hget as Hres.
  destruct (touchRepository_updater_run clock (name r) (migrate_config c)
              (mkWorld (disk w) Held (ticks w)))
    as [c1 [w1 [Hu [Hrepos [Hptr _]]]]].
  rewrite migrate_config_repositories in Hrepos.
  rewrite migrate_config_activeRepository in Hptr. cbn [ticks] in Hrepos.
  eexists. exists (stored_repo (set_lastUsedAt (clock (ticks w)) r)). split.
  { unfold touchRepository. eapply method_returns.
    apply (update_valid_returns env clock _ w w1 v c c1 Hd Hl Hv Hu). }
  split; [|cbn; repeat split].
  rewrite getActiveRepository_written, resolve_active_set_lastUpdated.
  unfold resolve_active in *. rewrite Hrepos, Hptr.
  destruct (negb (truthy (activeRepository c)));
    f_equal; f_equal;
    rewrite (find_mutate_found_same _ (set_lastUsedAt (clock (ticks w))) r); auto.
Qed.

(** X27: the names stay distinct.  From a registry with distinct
    names, after [upsertRepository] (with any record),
    [setActiveRepository], [removeRepository], [touchRepository], or
    [updateRepository] with updates that give no value for the name,
    whether the call returns or throws, the stored names are
    distinct. *)
Theorem names_stay_distinct (w : world) (v : json) (c : ToyboxConfig) :
  disk w = Some (Serialized v) ->
  lock w = Free ->
  ToyboxConfigSchema (Some v) = Some c ->
  NoDup (map name (repositories c)) ->
  (forall repo c', persisted (snd (upsertRepository env clock repo w)) = Some c' ->
                   NoDup (map name (repositories c')))
  /\ (forall n c', persisted (snd (setActiveRepository env clock n w)) = Some c' ->
                   NoDup (map name (repositories c')))
  /\ (forall n c', persisted (snd (removeRepository env clock n w)) = Some c' ->
                   NoDup (map name (repositories c')))
  /\ (forall n c', persisted (snd (touchRepository env clock n w)) = Some c' ->
                   NoDup (map name (repositories c')))
  /\ (forall n updates c',
        (forall s, upd_name updates <> Value s) ->
        persisted (snd (updateRepository env clock n updates w)) = Some c' ->
        NoDup (map name (repositories c'))).
Proof.
  intros Hd Hl Hv Hnd. split; [|split; [|split; [|split]]].
  - intros repo c' Hc'.
    destruct (upsertRepository_run env clock repo w v c Hd Hl Hv)
      as [c1 [t [Hrun [Hold Hnew]]]].
    rewrite Hrun in Hc'. cbn [snd] in Hc'. rewrite persisted_written in Hc'.
    injection Hc' as <-. cbn [stored repositories set_repositories].
    rewrite map_name_stored.
    destruct (in_dec string_dec (arg_name repo) (map name (repositories c))) as [Hin|Hout].
    + now rewrite (Hold Hin).
    + rewrite (Hnew Hout).
      apply NoDup_app; [exact Hnd|constructor; [intros []|constructor]|].
      intros x Hx [<-|[]]. exact (Hout Hx).
  - intros n c' Hc'. unfold setActiveRepository in Hc'.
    destruct (setActiveRepository_updater n (migrate_config c)
                (mkWorld (disk w) Held (ticks w))) as [[c1|e] w1] eqn:Hu.
    + rewrite (persisted_after_update env clock _ w w1 v c c1 Hd Hl Hv Hu) in Hc'.
      injection Hc' as <-. cbn [repositories set_lastUpdated stored set_repositories].
      rewrite map_name_stored.
      unfold setActiveRepository_updater in Hu.
      destruct (find _ _); [|discriminate]. injection Hu as <- _.
      cbn [repositories set_repositories set_activeRepository].
      rewrite migrate_config_repositories, map_map. exact Hnd.
    + pose proof (setActiveRepository_updater_quiet n (migrate_config c)
                    (mkWorld (disk w) Held (ticks w))) as Hq.
      rewrite Hu in Hq. destruct Hq as [Hd1 [_ He]]. cbn [disk] in Hd1.
      rewrite (persisted_after_failed_update env clock _ w w1 v c e Hd Hl Hv Hu He Hd1)
        in Hc'.
      injection Hc' as <-. exact Hnd.
  - intros n c' Hc'.
    rewrite (removeRepository_run env clock n w v c Hd Hl Hv) in Hc'.
    cbn [snd] in Hc'. rewrite persisted_written in Hc'. injection Hc' as <-.
    cbn [repositories set_lastUpdated stored set_repositories].
    rewrite map_name_stored.
    rewrite removeRepository_updater_names, migrate_config_repositories.
    now apply NoDup_map_filter.
  - intros n c' Hc'.
    destruct (touchRepository_updater_run clock n (migrate_config c)
                (mkWorld (disk w) Held (ticks w))) as [c1 [w1 [Hu [Hrepos _]]]].
    unfold touchRepository in Hc'.
    rewrite (persisted_after_update env clock _ w w1 v c c1 Hd Hl Hv Hu) in Hc'.
    injection Hc' as <-. cbn [repositories set_lastUpdated stored set_repositories].
    rewrite map_name_stored.
    rewrite Hrepos, migrate_config_repositories.
    rewrite map_mutate_found; [exact Hnd|reflexivity].
  - intros n updates c' Hname Hc'.
    destruct (updateRepository_effect env clock n updates w v c Hd Hl Hv)
      as [Hthrows Hreturns].
    destruct (find (fun x => name x =? n) (repositories c)) as [repo|] eqn:Hf.
    + destruct (as_record (set_obj_lastUsedAt (clock (ticks w))
                             (Object_assign repo updates))) as [assigned|] eqn:Has.
      * assert (Hdefined : upd_name updates <> Undefined
                           /\ upd_localPath updates <> Undefined
                           /\ upd_createdAt updates <> Undefined).
        { pose proof (proj2 (as_record_refused (clock (ticks w)) repo updates)) as H.
          repeat split; intros Hu; rewrite H in Has; auto; discriminate. }
        destruct (Hreturns (or_intror Hdefined))
          as [c1 [w1 [Hrun [Hp [_ [_ [_ [_ [Hnames _]]]]]]]]].
        rewrite Hrun in Hc'. cbn [snd] in Hc'. rewrite Hp in Hc'. injection Hc' as <-.
        now rewrite (Hnames Hname).
      * apply as_record_refused in Has.
        apply find_some in Hf. destruct Hf as [Hin Heq]. apply String.eqb_eq in Heq.
        rewrite (Hthrows (ex_intro _ repo (conj Hin Heq)) Has) in Hc'.
        cbn [snd] in Hc'. unfold persisted in Hc'. cbn [disk] in Hc'.
        rewrite Hd, Hv in Hc'. injection Hc' as <-. exact Hnd.
    + assert (Hnone : forall r, In r (repositories c) -> name r <> n).
      { intros r Hin Heq. apply (find_none _ _ Hf) in Hin.
        rewrite Heq, String.eqb_refl in Hin. discriminate. }
      destruct (Hreturns (or_introl Hnone))
        as [c1 [w1 [Hrun [Hp [_ [_ [_ [_ [Hnames _]]]]]]]]].
      rewrite Hrun in Hc'. cbn [snd] in Hc'. rewrite Hp in Hc'. injection Hc' as <-.
      now rewrite (Hnames Hname).
Qed.

(** X28: [update] when there is no file: the lock is not taken, and the
    updater runs on a default configuration.  When the updater returns,
    the file is created with what it returned, stamped; when it throws,
    no file is created and its error reaches the caller as it is, not
    wrapped as [Failed to update configuration].  So
    [setActiveRepository] with no file throws the not-found error
    itself and creates nothing. *)
Theorem update_without_a_file (w : world) :
  disk w = None ->
  (forall u c' w1,
      u (default_config env (clock (ticks w))) (mkWorld None (lock w) (S (ticks w)))
      = (Returns c', w1) ->
      update env clock u w
      = (Returns (set_lastUpdated (clock (ticks w1)) c'),
         mkWorld (Some (file_of (set_lastUpdated (clock (ticks w1)) c')))
                 (lock w1) (S (ticks w1)))
      /\ persisted (snd (update env clock u w))
         = Some (stored (set_lastUpdated (clock (ticks w1)) c')))
  /\ (forall u e w1,
        u (default_config env (clock (ticks w))) (mkWorld None (lock w) (S (ticks w)))
        = (Throws e, w1) ->
        update env clock u w = (Throws e, w1))
  /\ (forall n, setActiveRepository env clock n w
                = (Throws (NotFound n), mkWorld None (lock w) (S (ticks w)))).
Proof.
  intros Hd. split; [|split].
  - intros u c' w1 Hu. rewrite (update_absent env clock u w Hd).
    rewrite Hd. unfold bind. rewrite Hu. rewrite write_run.
    split; [reflexivity|]. cbn [snd]. apply persisted_written.
  - intros u e w1 Hu. rewrite (update_absent env clock u w Hd).
    rewrite Hd. unfold bind. rewrite Hu. reflexivity.
  - intros n. unfold setActiveRepository. unfold bind at 1.
    rewrite (update_absent env clock _ w Hd). rewrite Hd. reflexivity.
Qed.

End Compositions.

(** ** The theorems at concrete inputs *)

Lemma two_repositories_disk :
  disk two_repositories = Some (Serialized (json_of_config two_repositories_config)).
Proof. vm_compute. reflexivity. Qed.

Lemma two_repositories_valid :
  ToyboxConfigSchema (Some (json_of_config two_repositories_config))
  = Some two_repositories_config.
Proof. vm_compute. reflexivity. Qed.

Lemma two_repositories_unlocked : lock two_repositories = Free.
Proof. vm_compute. reflexivity. Qed.

Lemma two_repositories_names :
  map name (repositories two_repositories_config) = ["alpha"; "gamma"].
Proof. reflexivity. Qed.

Lemma two_repositories_distinct :
  NoDup (map name (repositories two_repositories_config)).
Proof.
  rewrite two_repositories_names.
  constructor; [intros [H|[]]; discriminate|].
  constructor; [intros []|constructor].
Qed.

Lemma nobody_is_unknown :
  forall r, In r (repositories two_repositories_config) -> name r <> "nobody".
Proof.
  intros r Hin Hn. apply (in_map name) in Hin.
  rewrite two_repositories_names, Hn in Hin.
  destruct Hin as [H|[H|[]]]; discriminate.
Qed.

Lemma gamma_is_known :
  exists r, In r (repositories two_repositories_config) /\ name r = "gamma".
Proof. exists gamma_record. split; [right; left; reflexivity|reflexivity]. Qed.

Lemma read_migrates_in_memory_only_witness :
  exists c',
    read env0 clock0 old_world = (Returns c', old_world)
    /\ version c' = CONFIG_VERSION
    /\ option_map version (persisted old_world) = Some (version old_config)
    /\ option_map version (persisted (snd (write clock0 c' old_world))) = Some CONFIG_VERSION
    /\ (lock old_world = Free ->
        option_map version (persisted (snd (update env0 clock0 ret old_world)))
        = Some CONFIG_VERSION).
Proof.
  apply (read_migrates_in_memory_only env0 clock0 old_world
           (json_of_config old_config) old_config).
  - reflexivity.
  - vm_compute. reflexivity.
  - vm_compute. discriminate.
Defined.

(** C6 fails as stated: a valid configuration whose [version] is not
    the current one does not come back with its [version]. *)
Lemma write_then_read_changes_version :
  exists C',
    read env0 clock0 (snd (write clock0 old_config fresh))
    = (Returns C', snd (write clock0 old_config fresh))
    /\ version C' <> version old_config.
Proof.
  eexists. split; [vm_compute; reflexivity|]. vm_compute. discriminate.
Qed.

(** Nor does a record come back with its [metadata] when that holds a
    [__proto__] member or a number that JSON cannot write. *)
Lemma write_then_read_changes_metadata :
  exists C' r r',
    read env0 clock0 (snd (write clock0 full_config fresh))
    = (Returns C', snd (write clock0 full_config fresh))
    /\ nth_error (repositories full_config) 0 = Some r
    /\ nth_error (repositories C') 0 = Some r'
    /\ metadata r = Some odd_metadata
    /\ metadata r' = Some [("size", JNull);
                           ("tags", JArr [JStr "demo"; JNum (Finite "0")]);
                           ("owner", JStr "someone")].
Proof.
  eexists. eexists. eexists. split; [vm_compute; reflexivity|].
  repeat split.
Qed.

Lemma write_then_read_witness :
  exists C' w1 r0 r1 m0,
    snd (write clock0 full_config fresh) = w1
    /\ read env0 clock0 w1 = (Returns C', w1)
    /\ version C' = "1.0.0"
    /\ activeRepository C' = Some "alpha"
    /\ debug C' = true
    /\ localTemplatePath C' = Some "/srv/template"
    /\ preferences C' = mkPreferences "staging" false "chore: publish"
    /\ lastUpdated C' = clock0 0
    /\ ts_le (lastUpdated full_config) (lastUpdated C')
    /\ length (repositories C') = 2
    /\ nth_error (repositories C') 0 = Some r0
    /\ name r0 = "alpha" /\ isActive r0 = true
    /\ remoteUrl r0 = Some "https://example.org/alpha.git"
    /\ createdAt r0 = "2025-06-01T00:00:00.000Z"
    /\ lastUsedAt r0 = "2025-06-02T00:00:00.000Z"
    /\ metadata r0 = Some m0
    /\ get "__proto__" m0 = None
    /\ get "size" m0 = Some JNull
    /\ get "tags" m0 = Some (JArr [JStr "demo"; JNum (Finite "0")])
    /\ get "owner" m0 = Some (JStr "someone")
    /\ nth_error (repositories C') 1 = Some r1
    /\ nth_error (repositories full_config) 1 = Some r1.
Proof.
  destruct (write_then_read env0 clock0 full_config fresh)
    as (C' & w1 & Hw & Hr & Hv & _ & Ha & Hdbg & Hltp & Hp & Hlu & Hle & Hlen & Hrec & _).
  destruct (Hrec 0 _ eq_refl)
    as (r0 & H0 & Hn0 & _ & Hr0 & _ & Hc0 & Hu0 & Hi0 & _ & Hm0 & _).
  destruct (Hm0 odd_metadata eq_refl) as (m0 & Hmeta & Hget).
  destruct (Hrec 1 _ eq_refl) as (r1 & H1 & _ & _ & _ & _ & _ & _ & _ & _ & _ & Hplain).
  exists C', w1, r0, r1, m0.
  split; [exact Hw|]. split; [exact Hr|]. split; [exact Hv|].
  split; [exact Ha|]. split; [exact Hdbg|]. split; [exact Hltp|].
  split; [exact Hp|]. split; [exact Hlu|].
  split; [apply Hle; vm_compute; reflexivity|]. split; [exact Hlen|].
  split; [exact H0|]. split; [exact Hn0|]. split; [exact Hi0|].
  split; [exact Hr0|]. split; [exact Hc0|]. split; [exact Hu0|].
  split; [exact Hmeta|].
  split; [exact (Hget "__proto__")|]. split; [exact (Hget "size")|].
  split; [exact (Hget "tags")|]. split; [exact (Hget "owner")|].
  split; [exact H1|]. rewrite (Hplain eq_refl). reflexivity.
Defined.

(** C7 fails as stated: here the pointer is set (to the empty string)
    and a record of that name is stored, yet [null] is returned. *)
Lemma getActiveRepository_ignores_empty_pointer :
  exists c r,
    persisted unnamed_twice = Some c
    /\ activeRepository c = Some ""
    /\ In r (repositories c) /\ name r = ""
    /\ getActiveRepository env0 clock0 unnamed_twice = (Returns None, unnamed_twice).
Proof.
  eexists. eexists. split; [vm_compute; reflexivity|].
  split; [reflexivity|]. split; [left; reflexivity|].
  split; [reflexivity|]. vm_compute. reflexivity.
Qed.

Lemma getActiveRepository_resolves_witness :
  exists result,
    getActiveRepository env0 clock0 two_repositories = (Returns result, two_repositories)
    /\ (forall n, activeRepository two_repositories_config = Some n -> n <> "" ->
          result = find (fun r => name r =? n) (repositories two_repositories_config)
          /\ ((exists r, In r (repositories two_repositories_config) /\ name r = n) ->
              exists r, result = Some r
                        /\ In r (repositories two_repositories_config) /\ name r = n)
          /\ ((forall r, In r (repositories two_repositories_config) -> name r <> n) ->
              result = None))
    /\ (activeRepository two_repositories_config = None
        \/ activeRepository two_repositories_config = Some "" ->
        result = find (fun r => isActive r) (repositories two_repositories_config)).
Proof.
  apply (getActiveRepository_resolves env0 clock0 two_repositories
           (json_of_config two_repositories_config) two_repositories_config).
  - vm_compute. reflexivity.
  - vm_compute. reflexivity.
Defined.

Lemma setActiveRepository_spec_witness :
  setActiveRepository env0 clock0 "nobody" two_repositories
  = (Throws (Failed Update (NotFound "nobody")), two_repositories)
  /\ exists c' w' r0 r1,
      setActiveRepository env0 clock0 "gamma" two_repositories = (Returns tt, w')
      /\ persisted w' = Some c'
      /\ ticks w' = S (ticks two_repositories)
      /\ activeRepository c' = Some "gamma"
      /\ length (repositories c') = 2
      /\ nth_error (repositories c') 0 = Some r0
      /\ name r0 = "alpha" /\ isActive r0 = false
      /\ nth_error (repositories c') 1 = Some r1
      /\ name r1 = "gamma" /\ isActive r1 = true.
Proof.
  split.
  - apply (setActiveRepository_spec env0 clock0 "nobody" two_repositories
             (json_of_config two_repositories_config) two_repositories_config
             two_repositories_disk two_repositories_unlocked two_repositories_valid).
    apply nobody_is_unknown.
  - destruct (setActiveRepository_spec env0 clock0 "gamma" two_repositories
                (json_of_config two_repositories_config) two_repositories_config
                two_repositories_disk two_repositories_unlocked two_repositories_valid)
      as [_ H].
    destruct (H gamma_is_known)
      as [c' [w' [Hrun [Hp [_ [Ht [_ [Ha [Hlen [Hrec _]]]]]]]]]].
    destruct (Hrec 0 alpha_record eq_refl) as [r0 [H0 [Hi0 [Hn0 _]]]].
    destruct (Hrec 1 gamma_record eq_refl) as [r1 [H1 [Hi1 [Hn1 _]]]].
    exists c', w', r0, r1. auto 15.
Defined.





(** C2 fails as stated: after [alpha] and then [beta], upserted with
    [isActive: true] (as [initializeToybox] does), two stored records
    have [isActive = true]. *)
Lemma two_active_after_flagged_upsert :
  exists c,
    persisted (perform_all env0 clock0 [UpsertRepository alpha; UpsertRepository beta] fresh)
    = Some c
    /\ length (filter (fun r => isActive r) (repositories c)) = 2.
Proof.
  eexists. split; vm_compute; reflexivity.
Qed.

Lemma at_most_one_active_witness :
  length (filter (fun r => isActive r) (repositories session_config)) <= 1
  /\ (forall r, In r (repositories session_config) -> isActive r = true ->
                activeRepository session_config = Some (name r))
  /\ (forall n, activeRepository session_config = Some n ->
                exists r, In r (repositories session_config) /\ name r = n).
Proof.
  apply (at_most_one_active env0 clock0 session fresh session_config).
  - reflexivity.
  - left. reflexivity.
  - repeat constructor.
  - vm_compute. reflexivity.
Defined.

(** C8 fails as stated: upserting [alpha] again with an earlier
    [createdAt] stores the earlier value. *)
Lemma createdAt_rolled_back_by_upsert :
  exists c' r',
    persisted (snd (upsertRepository env0 clock0 alpha_backdated two_repositories)) = Some c'
    /\ nth_error (repositories two_repositories_config) 0 = Some alpha_record
    /\ nth_error (repositories c') 0 = Some r'
    /\ name r' = name alpha_record
    /\ ~ ts_le (createdAt alpha_record) (createdAt r').
Proof.
  eexists. eexists. split; [vm_compute; reflexivity|].
  split; [reflexivity|]. split; [reflexivity|]. split; [reflexivity|].
  vm_compute. discriminate.
Qed.

(** The four operations on the registry of [alpha] and [gamma], seen at
    the record of [alpha]. *)
Lemma timestamps_after_registry_calls_witness :
  (exists c' r',
      persisted (snd (upsertRepository env0 clock0 alpha_backdated two_repositories))
      = Some c'
      /\ nth_error (repositories c') 0 = Some r'
      /\ createdAt r' = arg_createdAt alpha_backdated
      /\ lastUsedAt r' = clock0 (ticks two_repositories))
  /\ (exists c' r',
        persisted (snd (updateRepository env0 clock0 "alpha" remote_updates two_repositories))
        = Some c'
        /\ nth_error (repositories c') 0 = Some r'
        /\ createdAt r' = createdAt alpha_record
        /\ ts_le (lastUsedAt alpha_record) (lastUsedAt r'))
  /\ (exists c' r',
        persisted (snd (touchRepository env0 clock0 "gamma" two_repositories)) = Some c'
        /\ nth_error (repositories c') 0 = Some r'
        /\ createdAt r' = createdAt alpha_record
        /\ lastUsedAt r' = lastUsedAt alpha_record)
  /\ (exists c' r',
        persisted (snd (setActiveRepository env0 clock0 "gamma" two_repositories)) = Some c'
        /\ nth_error (repositories c') 0 = Some r'
        /\ createdAt r' = createdAt alpha_record
        /\ lastUsedAt r' = lastUsedAt alpha_record).
Proof.
  destruct (timestamps_after_registry_calls env0 clock0 two_repositories
              (json_of_config two_repositories_config) two_repositories_config
              0 alpha_record two_repositories_disk two_repositories_unlocked
              two_repositories_valid eq_refl) as [Hupsert [Hupdate [Htouch Hset]]].
  split; [|split; [|split]].
  - eexists. eexists. split; [vm_compute; reflexivity|]. split; [reflexivity|].
    eapply (Hupsert alpha_backdated); [vm_compute; reflexivity|reflexivity|reflexivity].
  - eexists. eexists. split; [vm_compute; reflexivity|]. split; [reflexivity|].
    destruct (Hupdate "alpha" remote_updates _ _ ltac:(vm_compute; reflexivity) eq_refl)
      as [_ [[Hc|Hc] [Hle _]]]; [|discriminate Hc].
    split; [exact Hc|]. apply Hle. vm_compute. reflexivity.
  - eexists. eexists. split; [vm_compute; reflexivity|]. split; [reflexivity|].
    destruct (Htouch "gamma" _ _ ltac:(vm_compute; reflexivity) eq_refl)
      as [[Hu|Hu] [Hc _]]; [auto|].
    vm_compute in Hu. discriminate Hu.
  - eexists. eexists. split; [vm_compute; reflexivity|]. split; [reflexivity|].
    destruct (Hset "gamma" _ _ ltac:(vm_compute; reflexivity) eq_refl) as [Hu Hc]. auto.
Defined.

(** C9 on two repositories: [alpha] and [gamma] are upserted together
    with no file yet; both calls return and only [gamma] is stored. *)
Lemma concurrent_updates_without_a_file_lose_one_witness :
  exists ca cb w' l,
    interleave env0 clock0 (upsertRepository_updater clock0 alpha)
               (upsertRepository_updater clock0 gamma)
               [First; Second; First; Second] Issued Issued fresh
    = (Done (Returns ca), Done (Returns cb), w')
    /\ getRepositories env0 clock0 w' = (Returns l, w')
    /\ map name l = ["gamma"]
    /\ ~ In "alpha" (map name l).
Proof.
  destruct (concurrent_updates_without_a_file_lose_one env0 clock0 alpha gamma Free 0)
    as [ca [cb [w' [l [Hrun [_ [_ [_ [Hget [Hnames Hlost]]]]]]]]]].
  exists ca, cb, w', l. split; [exact Hrun|]. split; [exact Hget|].
  split; [exact Hnames|]. apply Hlost. discriminate.
Defined.

(** The same two calls, one after the other: both are stored. *)
Lemma one_after_the_other_keeps_both :
  exists ca cb w' l,
    interleave env0 clock0 (upsertRepository_updater clock0 alpha)
               (upsertRepository_updater clock0 gamma)
               [First; First; Second; Second] Issued Issued fresh
    = (Done (Returns ca), Done (Returns cb), w')
    /\ getRepositories env0 clock0 w' = (Returns l, w')
    /\ map name l = ["alpha"; "gamma"].
Proof.
  eexists. eexists. eexists. eexists.
  split; [vm_compute; reflexivity|]. split; [vm_compute; reflexivity|]. reflexivity.
Qed.

(** ** The further properties at concrete inputs *)

Lemma read_bootstraps_once_witness :
  exists d w1,
    read env0 clock0 fresh = (Returns d, w1)
    /\ exists_ w1 = (Returns true, w1)
    /\ read env0 clock0 w1 = (Returns d, w1).
Proof.
  destruct (read_bootstraps_once env0 clock0 fresh eq_refl)
    as (d & w1 & _ & H1 & H2 & _ & _ & _ & _ & H3).
  exists d, w1. auto.
Defined.

Lemma read_result_is_current_and_stored_witness :
  version (migrate_config old_config) = CONFIG_VERSION
  /\ lock old_world = lock old_world
  /\ exists c0, persisted old_world = Some c0
                /\ migrate_config c0 = migrate_config old_config.
Proof.
  apply (read_result_is_current_and_stored env0 clock0 old_world old_world
           (migrate_config old_config)).
  vm_compute. reflexivity.
Defined.

Lemma update_when_the_marker_is_there_witness :
  update env0 clock0 ret held_world = (Throws (Failed Update ELOCKED), held_world)
  /\ exists c' w',
      update env0 clock0 ret abandoned_world = (Returns c', w')
      /\ lock w' = Free
      /\ option_map version (persisted w') = Some CONFIG_VERSION.
Proof.
  destruct (update_when_the_marker_is_there env0 clock0 ret
              (Serialized (json_of_config old_config)) 0) as (Hheld & _ & _ & Hgone).
  split; [exact Hheld|].
  destruct (Hgone (json_of_config old_config) old_config (migrate_config old_config)
                  (mkWorld (Some (Serialized (json_of_config old_config))) Held 0)
                  eq_refl ltac:(vm_compute; reflexivity) eq_refl)
    as (w'' & Hrun & Hp & Hl).
  eexists. exists w''. split; [exact Hrun|]. split; [exact Hl|].
  rewrite Hp. reflexivity.
Defined.

Lemma mutators_fail_on_malformed_file_witness :
  upsertRepository env0 clock0 alpha garbled
  = (Throws (Failed Update (Failed Read SyntaxError)), garbled).
Proof.
  destruct (mutators_fail_on_malformed_file env0 clock0 garbled "{not json"
              eq_refl eq_refl) as [_ [H _]].
  apply H.
Defined.

Lemma update_releases_lock_witness :
  lock (snd (update env0 clock0 (setActiveRepository_updater "nobody") two_repositories))
  = Free.
Proof.
  apply (update_releases_lock env0 clock0).
  - apply setActiveRepository_updater_quiet.
  - apply two_repositories_unlocked.
Defined.

Lemma update_keeps_file_when_updater_throws_witness :
  fst (update env0 clock0 (setActiveRepository_updater "nobody") two_repositories)
  = Throws (Failed Update (NotFound "nobody"))
  /\ disk (snd (update env0 clock0 (setActiveRepository_updater "nobody") two_repositories))
     = disk two_repositories
  /\ lock (snd (update env0 clock0 (setActiveRepository_updater "nobody")
                       two_repositories)) = Free.
Proof.
  apply (update_keeps_file_when_updater_throws env0 clock0
           (setActiveRepository_updater "nobody") two_repositories
           (mkWorld (disk two_repositories) Held (ticks two_repositories))
           (json_of_config two_repositories_config) two_repositories_config).
  - apply two_repositories_disk.
  - apply two_repositories_unlocked.
  - apply two_repositories_valid.
  - apply setActiveRepository_updater_quiet.
  - vm_compute. reflexivity.
Defined.

Lemma upsertRepository_on_invalid_document_witness :
  exists c' w' r,
    upsertRepository env0 clock0 alpha invalid_world = (Returns tt, w')
    /\ persisted w' = Some c'
    /\ lock w' = Free
    /\ repositories c' = [r]
    /\ name r = arg_name alpha
    /\ isActive r = true
    /\ activeRepository c' = Some (arg_name alpha).
Proof.
  apply (upsertRepository_on_invalid_document env0 clock0 alpha invalid_world (JArr []));
    reflexivity.
Defined.

Lemma upsertRepository_names_witness :
  exists c' w',
    upsertRepository env0 clock0 alpha_backdated two_repositories = (Returns tt, w')
    /\ persisted w' = Some c'
    /\ map name (repositories c') = ["alpha"; "gamma"].
Proof.
  destruct (upsertRepository_names env0 clock0 alpha_backdated two_repositories
              (json_of_config two_repositories_config) two_repositories_config
              two_repositories_disk two_repositories_unlocked two_repositories_valid)
    as (c' & w' & Hrun & Hp & _ & Hold & _).
  exists c', w'. split; [exact Hrun|]. split; [exact Hp|].
  apply Hold. left. reflexivity.
Defined.

Lemma two_upserts_are_both_kept_witness :
  exists w1 w2 l,
    upsertRepository env0 clock0 alpha old_world = (Returns tt, w1)
    /\ upsertRepository env0 clock0 gamma w1 = (Returns tt, w2)
    /\ getRepositories env0 clock0 w2 = (Returns l, w2)
    /\ map name l = ["alpha"; "gamma"].
Proof.
  apply (two_upserts_are_both_kept env0 clock0 alpha gamma old_world
           (json_of_config old_config) old_config).
  - reflexivity.
  - reflexivity.
  - vm_compute. reflexivity.
  - discriminate.
  - intros [].
  - intros [].
Defined.

Lemma setActiveRepository_then_getActiveRepository_witness :
  exists c' w' r,
    setActiveRepository env0 clock0 "gamma" two_repositories = (Returns tt, w')
    /\ persisted w' = Some c'
    /\ (forall x, In x (repositories c') -> (isActive x = true <-> name x = "gamma"))
    /\ getActiveRepository env0 clock0 w' = (Returns (Some r), w')
    /\ name r = "gamma" /\ isActive r = true /\ In r (repositories c').
Proof.
  apply (setActiveRepository_then_getActiveRepository env0 clock0 "gamma" two_repositories
           (json_of_config two_repositories_config) two_repositories_config
           two_repositories_disk two_repositories_unlocked two_repositories_valid).
  rewrite two_repositories_names. right. left. reflexivity.
Defined.

Lemma register_then_activate_witness :
  exists w1 w2 c2 r,
    upsertRepository env0 clock0 beta fresh = (Returns tt, w1)
    /\ setActiveRepository env0 clock0 (arg_name beta) w1 = (Returns tt, w2)
    /\ persisted w2 = Some c2
    /\ (forall x, In x (repositories c2) -> (isActive x = true <-> name x = arg_name beta))
    /\ getActiveRepository env0 clock0 w2 = (Returns (Some r), w2)
    /\ name r = arg_name beta /\ isActive r = true.
Proof.
  apply (register_then_activate env0 clock0 beta fresh).
  - reflexivity.
  - left. reflexivity.
Defined.

Lemma removeRepository_of_unknown_name_witness :
  exists c' w',
    removeRepository env0 clock0 "nobody" two_repositories = (Returns tt, w')
    /\ persisted w' = Some c'
    /\ repositories c' = repositories two_repositories_config
    /\ activeRepository c' = activeRepository two_repositories_config.
Proof.
  destruct (removeRepository_of_unknown_name env0 clock0 "nobody" two_repositories
              (json_of_config two_repositories_config) two_repositories_config
              two_repositories_disk two_repositories_unlocked two_repositories_valid
              nobody_is_unknown)
    as (c' & w' & Hrun & Hp & _ & Hkeep & _).
  exists c', w'. split; [exact Hrun|]. split; [exact Hp|].
  destruct (Hkeep ltac:(discriminate)) as (_ & Hptr & Hplain).
  split; [|exact Hptr]. apply Hplain. repeat constructor.
Defined.

Lemma touchRepository_effect_witness :
  exists c' w' r0 r1,
    touchRepository env0 clock0 "gamma" two_repositories = (Returns tt, w')
    /\ persisted w' = Some c'
    /\ activeRepository c' = activeRepository two_repositories_config
    /\ length (repositories c') = 2
    /\ nth_error (repositories c') 0 = Some r0
    /\ name r0 = "alpha"
    /\ lastUsedAt r0 = lastUsedAt alpha_record
    /\ nth_error (repositories c') 1 = Some r1
    /\ name r1 = "gamma"
    /\ createdAt r1 = createdAt gamma_record
    /\ isActive r1 = isActive gamma_record
    /\ lastUsedAt r1 = clock0 (ticks two_repositories).
Proof.
  destruct (touchRepository_effect env0 clock0 "gamma" two_repositories
              (json_of_config two_repositories_config) two_repositories_config
              two_repositories_disk two_repositories_unlocked two_repositories_valid)
    as (c' & w' & Hrun & Hp & _ & Hptr & Hlen & Hrec & _).
  destruct (Hrec 0 alpha_record eq_refl) as (r0 & H0 & Hid0 & _ & _ & Hkeep0).
  destruct (Hrec 1 gamma_record eq_refl) as (r1 & H1 & Hid1 & Hflag1 & Hset1 & _).
  destruct Hid0 as (Hn0 & _).
  destruct Hid1 as (Hn1 & _ & _ & _ & Hc1 & _).
  exists c', w', r0, r1.
  split; [exact Hrun|]. split; [exact Hp|]. split; [exact Hptr|].
  split; [exact Hlen|]. split; [exact H0|]. split; [exact Hn0|].
  split; [apply Hkeep0; vm_compute; discriminate|].
  split; [exact H1|]. split; [exact Hn1|]. split; [exact Hc1|].
  split; [exact Hflag1|]. apply Hset1. vm_compute. reflexivity.
Defined.

Lemma updateRepository_effect_witness :
  (exists c' w' r',
      updateRepository env0 clock0 "alpha" remote_updates two_repositories = (Returns tt, w')
      /\ persisted w' = Some c'
      /\ nth_error (repositories c') 0 = Some r'
      /\ name r' = "alpha"
      /\ remoteUrl r' = Some "https://github.com/someone/alpha"
      /\ publishedUrl r' = Some "https://someone.github.io/alpha/"
      /\ isActive r' = isActive alpha_record
      /\ lastUsedAt r' = clock0 (ticks two_repositories))
  /\ (exists c' w' r',
        updateRepository env0 clock0 "alpha" clearing_updates two_repositories
        = (Returns tt, w')
        /\ persisted w' = Some c'
        /\ nth_error (repositories c') 0 = Some r'
        /\ localPath r' = "/srv/alpha"
        /\ remoteUrl r' = None
        /\ isActive r' = false
        /\ lastUsedAt r' = clock0 (ticks two_repositories)
        /\ activeRepository c' = Some "alpha")
  /\ updateRepository env0 clock0 "alpha" nameless_updates two_repositories
     = (Throws (Failed Update ZodError),
        mkWorld (disk two_repositories) Free (S (S (ticks two_repositories)))).
Proof.
  split; [|split].
  - destruct (updateRepository_effect env0 clock0 "alpha" remote_updates two_repositories
                (json_of_config two_repositories_config) two_repositories_config
                two_repositories_disk two_repositories_unlocked two_repositories_valid)
      as [_ H].
    destruct H as (c' & w' & Hrun & Hp & _ & _ & _ & Hrec & _).
    { right. repeat split; discriminate. }
    destruct (Hrec 0 alpha_record eq_refl) as (r' & H0 & _ & Hat).
    destruct (Hat eq_refl) as (Hu & Hn & _ & _ & Hr & Hpub & Hi & _).
    exists c', w', r'. auto 10.
  - destruct (updateRepository_effect env0 clock0 "alpha" clearing_updates two_repositories
                (json_of_config two_repositories_config) two_repositories_config
                two_repositories_disk two_repositories_unlocked two_repositories_valid)
      as [_ H].
    destruct H as (c' & w' & Hrun & Hp & _ & Hptr & _ & Hrec & _).
    { right. repeat split; discriminate. }
    destruct (Hrec 0 alpha_record eq_refl) as (r' & H0 & _ & Hat).
    destruct (Hat eq_refl) as (Hu & _ & Hl & _ & Hr & _ & Hi & _).
    exists c', w', r'. auto 10.
  - destruct (updateRepository_effect env0 clock0 "alpha" nameless_updates two_repositories
                (json_of_config two_repositories_config) two_repositories_config
                two_repositories_disk two_repositories_unlocked two_repositories_valid)
      as [H _].
    apply H.
    + exists alpha_record. split; [left; reflexivity|reflexivity].
    + left. reflexivity.
Defined.

Lemma written_values_validate_to_what_is_stored_witness :
  exists r r',
    nth_error (repositories full_config) 0 = Some r
    /\ metadata r = Some odd_metadata
    /\ ToyboxRepoConfigSchema (Some (reparsed (json_of_repo (validated_repo r)))) = Some r'
    /\ name r' = name r
    /\ isActive r' = isActive r
    /\ metadata r' = Some [("size", JNull);
                           ("tags", JArr [JStr "demo"; JNum (Finite "0")]);
                           ("owner", JStr "someone")]
    /\ ToyboxRepoConfigSchema (Some (reparsed (json_of_repo (validated_repo r')))) = Some r'.
Proof.
  destruct written_values_validate_to_what_is_stored as [Hrepo _].
  eexists.
  match goal with
  | |- exists r', nth_error _ _ = Some ?r /\ _ =>
      destruct (Hrepo r) as (r' & Hparse & Hn & _ & _ & _ & _ & _ & Hi & _ & _ & _ & Hagain)
  end.
  exists r'. split; [reflexivity|]. split; [reflexivity|].
  split; [exact Hparse|]. split; [exact Hn|]. split; [exact Hi|].
  split; [|exact Hagain].
  vm_compute in Hparse. injection Hparse as <-. reflexivity.
Defined.

Lemma schema_fills_in_defaults_witness :
  ToyboxConfigSchema (Some (JObj sparse_document))
  = Some (mkConfig "1.0.0" [] None false None "2025-01-01T00:00:00.000Z"
                   (mkPreferences "toybox" true "feat: Add new artifact via TOYBOX")).
Proof.
  apply (schema_fills_in_defaults sparse_document "2025-01-01T00:00:00.000Z");
    reflexivity.
Defined.

Lemma schema_ignores_undeclared_members_witness :
  ToyboxConfigSchema (Some (JObj sparse_document))
  = ToyboxConfigSchema (Some (JObj [("lastUpdated", JStr "2025-01-01T00:00:00.000Z")])).
Proof.
  apply (schema_ignores_undeclared_members "theme" (JStr "dark")
           [("lastUpdated", JStr "2025-01-01T00:00:00.000Z")]).
  intros H. cbn in H. repeat (destruct H as [H|H]; [discriminate|]). exact H.
Defined.

Lemma listRepositories_lists_the_registry_witness :
  exists entries,
    Handlers.listRepositories env0 clock0 two_repositories
    = (Returns (Handlers.Success entries), two_repositories)
    /\ map Handlers.entry_name entries = ["alpha"; "gamma"]
    /\ map Handlers.entry_isActive entries = [true; false].
Proof.
  destruct (listRepositories_lists_the_registry env0 clock0 two_repositories
              (json_of_config two_repositories_config) two_repositories_config
              two_repositories_disk two_repositories_valid)
    as [entries [Hrun [Hentries [Hnames _]]]].
  exists entries. split; [exact Hrun|]. split; [exact Hnames|].
  rewrite Hentries. reflexivity.
Defined.

Lemma handlers_fail_on_malformed_file_witness :
  Handlers.listRepositories env0 clock0 garbled
  = (Returns (Handlers.Failure (Handlers.FailedTo Handlers.Listing
                                  (Failed Read SyntaxError))), garbled).
Proof.
  destruct (handlers_fail_on_malformed_file env0 clock0 all_paths garbled "{not json"
              eq_refl) as [H _].
  exact H.
Defined.

Lemma handler_removeRepository_spec_witness :
  Handlers.removeRepository env0 clock0 "nobody" two_repositories
  = (Returns (Handlers.Failure (Handlers.NotInConfiguration "nobody")), two_repositories).
Proof.
  destruct (handler_removeRepository_spec env0 clock0 "nobody" two_repositories
              (json_of_config two_repositories_config) two_repositories_config
              two_repositories_disk two_repositories_unlocked two_repositories_valid)
    as [H _].
  apply H. apply nobody_is_unknown.
Defined.

Lemma handler_getActiveRepository_spec_witness :
  Handlers.getActiveRepository env0 clock0 two_repositories
  = (Returns (Handlers.Success
                (Handlers.mkInfo (name alpha_record) (localPath alpha_record)
                                 (remoteUrl alpha_record) (publishedUrl alpha_record)
                                 (lastUsedAt alpha_record))), two_repositories).
Proof.
  destruct (handler_getActiveRepository_spec env0 clock0 two_repositories
              (json_of_config two_repositories_config) two_repositories_config
              two_repositories_disk two_repositories_valid)
    as [_ H].
  apply H. reflexivity.
Defined.


Lemma touching_the_active_repository_witness :
  exists w' r',
    touchRepository env0 clock0 "alpha" two_repositories = (Returns tt, w')
    /\ getActiveRepository env0 clock0 w' = (Returns (Some r'), w')
    /\ lastUsedAt r' = clock0 (ticks two_repositories)
    /\ name r' = "alpha"
    /\ createdAt r' = createdAt alpha_record
    /\ isActive r' = true.
Proof.
  destruct (touching_the_active_repository env0 clock0 two_repositories
              (json_of_config two_repositories_config) two_repositories_config alpha_record
              two_repositories_disk two_repositories_unlocked two_repositories_valid
              two_repositories_distinct)
    as (w' & r' & Hrun & Hget & Hu & Hn & _ & _ & _ & Hc & Hi & _).
  - vm_compute. reflexivity.
  - exists w', r'. auto 10.
Defined.

Lemma names_stay_distinct_witness :
  exists c',
    persisted (snd (upsertRepository env0 clock0 beta two_repositories)) = Some c'
    /\ NoDup (map name (repositories c')).
Proof.
  destruct (names_stay_distinct env0 clock0 two_repositories
              (json_of_config two_repositories_config) two_repositories_config
              two_repositories_disk two_repositories_unlocked two_repositories_valid
              two_repositories_distinct) as [H _].
  eexists. split; [vm_compute; reflexivity|].
  apply (H beta). vm_compute. reflexivity.
Defined.

Lemma update_without_a_file_witness :
  setActiveRepository env0 clock0 "alpha" fresh
  = (Throws (NotFound "alpha"), mkWorld None (lock fresh) (S (ticks fresh))).
Proof.
  destruct (update_without_a_file env0 clock0 fresh eq_refl) as [_ [_ H]].
  apply H.
Defined.
